(** * The browser agent's control loop, embedded in Rocq

    The file follows agent.py top to bottom: Python values and string
    methods, the binary64 arithmetic behind [denormalize_x] and
    [denormalize_y], the credential helpers, [BrowserAgent.handle_action],
    [get_model_response], [_get_safety_confirmation],
    [run_one_iteration] with its screenshot pruning pass, and
    [agent_loop].  It also embeds [FormAgent.handle_action] of
    form_agent.py and the site authentication of
    computers/playwright/auth.py.  Stateful code is written in a
    state-and-exception monad over the agent's fields and the trace of its
    interactions with the outside world. *)

From Stdlib Require Import ZArith Lia String Ascii SpecFloat.
From stdpp Require Import gmap strings list fin_maps.

#[local] Set Warnings "-register-all".
#[local] Open Scope string_scope.
#[local] Open Scope Z_scope.
#[local] Open Scope list_scope.

(** ** Python values *)

(** The JSON-like values that travel in [FunctionCall.args] and in the
    [response] mapping of a [FunctionResponse].  Numbers are integers, the
    type the tool declarations give to coordinates. *)
Inductive pyval : Type :=
  | VNone
  | VBool (b : bool)
  | VInt (z : Z)
  | VStr (s : string)
  | VList (l : list pyval)
  | VDict (d : gmap string pyval).

(** Exceptions the control loop can raise or observe. *)
Inductive exn : Type :=
  | KeyError (key : string)
  | TypeError
  | AttributeError
  | OverflowError
  | EOFError
  | ValueError (msg : string)
  | ServiceError (code : string).

(** Python's [bool(v)]. *)
Definition truthy (v : pyval) : bool :=
  match v with
  | VNone => false
  | VBool b => b
  | VInt z => negb (z =? 0)
  | VStr s => negb (String.eqb s "")
  | VList l => match l with [] => false | _ => true end
  | VDict d => negb (bool_decide (d = ∅))
  end.

(** [v == s] for a string literal [s]. *)
Definition eq_str (v : pyval) (s : string) : bool :=
  match v with
  | VStr t => String.eqb t s
  | _ => false
  end.

(** ** String methods *)

Module Str.

Definition lower_ascii (c : ascii) : ascii :=
  let n := N_of_ascii c in
  if ((65 <=? n) && (n <=? 90))%N then ascii_of_N (n + 32) else c.

Definition upper_ascii (c : ascii) : ascii :=
  let n := N_of_ascii c in
  if ((97 <=? n) && (n <=? 122))%N then ascii_of_N (n - 32) else c.

Fixpoint map (f : ascii -> ascii) (s : string) : string :=
  match s with
  | EmptyString => EmptyString
  | String c s' => String (f c) (map f s')
  end.

(** [s.lower()] and [s.upper()] on ASCII text. *)
Definition lower : string -> string := map lower_ascii.
Definition upper : string -> string := map upper_ascii.

(** [s.endswith(suffix)] *)
Definition endswith (s suffix : string) : bool :=
  let n := String.length s in
  let m := String.length suffix in
  (m <=? n)%nat && String.eqb (substring (n - m)%nat m s) suffix.

(** [s.replace(old, new)] for a non-empty [old]: occurrences are taken
    left to right and do not overlap.  [skip] counts the characters of a
    matched occurrence that are still to be dropped. *)
Fixpoint replace_from (old new : string) (skip : nat) (s : string) : string :=
  match s with
  | EmptyString => EmptyString
  | String c s' =>
      match skip with
      | S k => replace_from old new k s'
      | O =>
          if String.prefix old s
          then new +:+ replace_from old new (String.length old - 1)%nat s'
          else String c (replace_from old new 0 s')
      end
  end.

Definition replace (s old new : string) : string := replace_from old new 0 s.

(** [s.split(sep)] for a one-character separator. *)
Fixpoint split (sep : ascii) (s : string) : list string :=
  match s with
  | EmptyString => [EmptyString]
  | String c s' =>
      if Ascii.eqb c sep then EmptyString :: split sep s'
      else match split sep s' with
           | h :: t => String c h :: t
           | [] => [String c EmptyString]
           end
  end.

(** [sep.join(l)] *)
Definition join (sep : string) (l : list string) : string := String.concat sep l.

(** [x in (a, b, ...)] for strings. *)
Definition mem (x : string) (l : list string) : bool := existsb (String.eqb x) l.

End Str.

#[global] Arguments Str.mem : simpl never.
#[global] Arguments Str.lower : simpl never.
#[global] Arguments Str.upper : simpl never.

(** ** binary64 arithmetic

    Python floats are IEEE 754 binary64 numbers; the operations are the
    Standard Library's executable specification of them. *)

Module Float64.

Definition prec : Z := 53.
Definition emax : Z := 1024.

(** [float(z)], rounded to nearest even. *)
Definition of_int (z : Z) : spec_float := binary_normalize prec emax z 0 false.

Definition div : spec_float -> spec_float -> spec_float := SFdiv prec emax.
Definition mul : spec_float -> spec_float -> spec_float := SFmul prec emax.

(** [int(f)]: truncation toward zero; infinities and NaN have no integer. *)
Definition to_int (f : spec_float) : option Z :=
  match f with
  | S754_zero _ => Some 0
  | S754_finite s m e =>
      let a := match e with
               | Z0 => Zpos m
               | Zpos _ => Z.shiftl (Zpos m) e
               | Zneg _ => Z.shiftr (Zpos m) (- e)
               end in
      Some (if s then - a else a)
  | S754_infinity _ => None
  | S754_nan => None
  end.

End Float64.

(** The float [x / 1000] for an integer [x]: the correctly rounded quotient
    of the two integers (for [|x| <= 2^53] both convert exactly and CPython
    divides the doubles). *)
Definition quotient (x : Z) : spec_float :=
  Float64.div (Float64.of_int x) (Float64.of_int 1000).

(** [int(x / 1000 * dim)] for integers [x] and [dim]: the product converts
    [dim] to a float first, and [int] truncates.  A result that is not
    finite raises OverflowError. *)
Definition denormalize (x dim : Z) : exn + Z :=
  match Float64.to_int (Float64.mul (quotient x) (Float64.of_int dim)) with
  | Some p => inr p
  | None => inl OverflowError
  end.

(** What the rounding of [v / 1000] guarantees: a positive normal number
    [m * 2^e] with a 53-bit [m], within half a unit in the last place of
    the exact quotient. *)
Definition quotient_ok (v : Z) : bool :=
  match quotient v with
  | S754_finite false m e =>
      (2 ^ 52 <=? Zpos m) && (Zpos m <? 2 ^ 53) && (-62 <=? e) && (e <=? -52)
      && (Z.abs (1000 * Zpos m - v * 2 ^ (- e)) <=? 500)
  | _ => false
  end.

(** The record [shr] leaves after [k >= 1] shifts of a non-negative
    mantissa: the quotient, the last bit shifted out, and whether any bit
    before it (or the incoming round and sticky bits) was set. *)
Definition shifted (m : Z) (r s : bool) (k : Z) : shr_record :=
  Build_shr_record (m / 2 ^ k) (Z.odd (m / 2 ^ (k - 1)))
    (negb (m mod 2 ^ (k - 1) =? 0) || (r || s)).

(** The normalized coordinates at which the width of main.py's screen
    gets a pixel below the exact floor. *)
Definition WIDTH_EXCEPTIONS : list Z := [175; 350; 575; 700].

(** The pixel the exact formula gives, less one at the listed
    exceptions. *)
Definition expected_pixel (exceptions : list Z) (v d : Z) : Z :=
  if existsb (Z.eqb v) exceptions then v * d / 1000 - 1 else v * d / 1000.

Definition pixel_ok (exceptions : list Z) (d v : Z) : bool :=
  match denormalize v d with
  | inr p => p =? expected_pixel exceptions v d
  | inl _ => false
  end.

(** ** The data model: computers.EnvState and google.genai.types *)

Module EnvState.
Record t : Type := mk { screenshot : string; url : string }.
End EnvState.

Module FunctionCall.
Record t : Type := mk { name : string; args : option (gmap string pyval) }.
End FunctionCall.

Module FunctionResponseBlob.
Record t : Type := mk { mime_type : string; data : string }.
End FunctionResponseBlob.

Module FunctionResponsePart.
Record t : Type := mk { inline_data : option FunctionResponseBlob.t }.
End FunctionResponsePart.

Module FunctionResponse.
Record t : Type := mk {
  name : string;
  response : gmap string pyval;
  parts : option (list FunctionResponsePart.t) }.
End FunctionResponse.

Module Part.
Record t : Type := mk {
  text : option string;
  function_call : option FunctionCall.t;
  function_response : option FunctionResponse.t }.
End Part.

Module Content.
Record t : Type := mk { role : string; parts : option (list Part.t) }.
End Content.

Inductive FinishReason : Type :=
  | STOP
  | MAX_TOKENS
  | MALFORMED_FUNCTION_CALL
  | OTHER.

Module Candidate.
Record t : Type := mk { content : option Content.t; finish_reason : FinishReason }.
End Candidate.

Module GenerateContentResponse.
Record t : Type := mk { candidates : option (list Candidate.t) }.
End GenerateContentResponse.

(** Built-in Computer Use tools return an [EnvState], custom functions a
    [dict]. *)
Inductive FunctionResponseT : Type :=
  | OfEnvState (e : EnvState.t)
  | OfDict (d : gmap string pyval).

(** Truth of an optional list: [None] and [[]] are both false. *)
Definition nonempty {A} (l : option (list A)) : bool :=
  match l with
  | Some (_ :: _) => true
  | _ => false
  end.

(** The iterable behind [for x in l] for an optional list known to be
    truthy. *)
Definition items {A} (l : option (list A)) : list A := default [] l.

(** ** The outside world *)

(** One method of the [Computer] interface, with the arguments the agent
    passes. *)
Inductive BackendCall : Type :=
  | open_web_browser
  | click_at (x y : Z)
  | hover_at (x y : Z)
  | type_text_at (x y : Z) (text press_enter clear_before_typing : pyval)
  | scroll_document (direction : pyval)
  | scroll_at (x y : Z) (direction : pyval) (magnitude : Z)
  | wait_5_seconds
  | go_back
  | go_forward
  | search
  | navigate (url : pyval)
  | key_combination (keys : list string)
  | drag_and_drop (x y destination_x destination_y : Z).

(** What the agent does to the outside world, in order. *)
Inductive event : Type :=
  | EvGenerate (contents : list Content.t)
  | EvSleep (delay : Z)
  | EvInput (line : string)
  | EvBackend (call : BackendCall).

(** The fields of a [BrowserAgent], the lines still to come on standard
    input, the number of model calls made and the trace of events. *)
Record agent : Type := mkAgent {
  _contents : list Content.t;
  _temp_credentials : gmap string pyval;
  final_reasoning : option string;
  _trust_mode : bool;
  _verbose : bool;
  stdin : list string;
  model_calls : nat;
  trace : list event }.

Definition set_contents (c : list Content.t) (s : agent) : agent :=
  mkAgent c (_temp_credentials s) (final_reasoning s) (_trust_mode s)
    (_verbose s) (stdin s) (model_calls s) (trace s).

Definition set_temp_credentials (c : gmap string pyval) (s : agent) : agent :=
  mkAgent (_contents s) c (final_reasoning s) (_trust_mode s)
    (_verbose s) (stdin s) (model_calls s) (trace s).

Definition set_final_reasoning (r : option string) (s : agent) : agent :=
  mkAgent (_contents s) (_temp_credentials s) r (_trust_mode s)
    (_verbose s) (stdin s) (model_calls s) (trace s).

Definition set_stdin (l : list string) (s : agent) : agent :=
  mkAgent (_contents s) (_temp_credentials s) (final_reasoning s) (_trust_mode s)
    (_verbose s) l (model_calls s) (trace s).

Definition set_model_calls (n : nat) (s : agent) : agent :=
  mkAgent (_contents s) (_temp_credentials s) (final_reasoning s) (_trust_mode s)
    (_verbose s) (stdin s) n (trace s).

Definition log (e : event) (s : agent) : agent :=
  mkAgent (_contents s) (_temp_credentials s) (final_reasoning s) (_trust_mode s)
    (_verbose s) (stdin s) (model_calls s) (trace s ++ [e]).

(** ** The monad of agent methods

    A method takes the agent and returns a value or raises, together with
    the agent as it has left it: effects made before an exception stay. *)

Definition M (A : Type) : Type := agent -> (exn + A) * agent.

#[global] Instance M_ret : MRet M := fun A a s => (inr a, s).

#[global] Instance M_bind : MBind M := fun A B f m s =>
  match m s with
  | (inr a, s') => f a s'
  | (inl e, s') => (inl e, s')
  end.

Definition raise {A} (e : exn) : M A := fun s => (inl e, s).
Definition get : M agent := fun s => (inr s, s).
Definition modify (f : agent -> agent) : M unit := fun s => (inr tt, f s).

(** A pure computation that may raise. *)
Definition lift {A} (r : exn + A) : M A := fun s => (r, s).

(** [try: m except Exception as e: h e] *)
Definition try_except {A} (m : M A) (h : exn -> M A) : M A := fun s =>
  match m s with
  | (inr a, s') => (inr a, s')
  | (inl e, s') => h e s'
  end.

(** Unfolds the monad operations in the goal. *)
Ltac unfold_monad :=
  unfold mbind, M_bind, mret, M_ret, lift, get, modify, raise, try_except.

(** [d[k]] *)
Definition getitem (d : gmap string pyval) (k : string) : exn + pyval :=
  match d !! k with
  | Some v => inr v
  | None => inl (KeyError k)
  end.

(** [d.get(k, dflt)] *)
Definition get_default (d : gmap string pyval) (k : string) (dflt : pyval) : pyval :=
  default dflt (d !! k).

(** [v[k]] for a value: only a dict can be subscripted by a string. *)
Definition subscript (v : pyval) (k : string) : exn + pyval :=
  match v with
  | VDict d => getitem d k
  | _ => inl TypeError
  end.

(** [action.args[k]]: [args] may be [None]. *)
Definition arg (action : FunctionCall.t) (k : string) : exn + pyval :=
  match FunctionCall.args action with
  | Some d => getitem d k
  | None => inl TypeError
  end.

(** [action.args.get(k, dflt)] *)
Definition arg_default (action : FunctionCall.t) (k : string) (dflt : pyval) : exn + pyval :=
  match FunctionCall.args action with
  | Some d => inr (get_default d k dflt)
  | None => inl AttributeError
  end.

(** The integer a value stands for in arithmetic. *)
Definition as_int (v : pyval) : exn + Z :=
  match v with
  | VInt z => inr z
  | VBool b => inr (Z.b2z b)
  | _ => inl TypeError
  end.

(** ** Module constants *)

Definition MAX_RECENT_TURN_WITH_SCREENSHOTS : nat := 3.

Definition PREDEFINED_COMPUTER_USE_FUNCTIONS : list string :=
  [ "open_web_browser"; "click_at"; "hover_at"; "type_text_at";
    "scroll_document"; "scroll_at"; "wait_5_seconds"; "go_back";
    "go_forward"; "search"; "navigate"; "key_combination"; "drag_and_drop" ].

Definition USERNAME_PLACEHOLDER : string := "{{USERNAME}}".
Definition PASSWORD_PLACEHOLDER : string := "{{PASSWORD}}".

Definition INSTRUCTION : string :=
  "Credentials loaded. Use type_text_at with {{USERNAME}} and {{PASSWORD}} placeholders to enter credentials in the appropriate fields.".

(** ** Custom functions *)

(** [multiply_numbers(x, y)] on integer arguments. *)
Definition multiply_numbers (x y : pyval) : exn + gmap string pyval :=
  match as_int x, as_int y with
  | inr a, inr b => inr {[ "result" := VInt (a * b) ]}
  | _, _ => inl TypeError
  end.

Section Credentials.

(** [os.environ]: variable names with their values, in iteration order. *)
Variable environ : list (string * string).

Definition env_vars : list string := environ.*1.

(** [os.environ.get(k)] *)
Definition environ_get (k : string) : option string :=
  snd <$> List.find (fun p => String.eqb (fst p) k) environ.

(** The body of the loop of [get_available_credentials]: the site a
    variable name contributes, if any. *)
Definition site_of_var (var : string) : option string :=
  if Str.endswith var "_USERNAME" || Str.endswith var "_USER" then
    let site := Str.replace (Str.replace var "_USERNAME" "") "_USER" "" in
    let password_var := site +:+ "_PASSWORD" in
    if Str.mem password_var env_vars then Some (Str.lower site) else None
  else None.

Definition available_sites : list string := omap site_of_var env_vars.

Definition get_available_credentials : gmap string pyval :=
  {[ "available_sites" := VList (VStr <$> available_sites);
     "message" :=
       VStr ("Credentials are securely stored for: "
             +:+ (match available_sites with
                  | [] => "no sites"
                  | _ => Str.join ", " available_sites
                  end)
             +:+ ". Use perform_secure_login() to authenticate.") ]}.

(** Python's [x and y] on two optional strings, as a truth value. *)
Definition both_set (username password : option string) : bool :=
  match username, password with
  | Some u, Some p => negb (String.eqb u "") && negb (String.eqb p "")
  | _, _ => false
  end.

Definition opt_str (o : option string) : pyval :=
  match o with
  | Some s => VStr s
  | None => VNone
  end.

(** The name under which [perform_secure_login] looks the username up. *)
Definition username_key_of (site : string) : string :=
  let site_upper := Str.upper site in
  let username_key := site_upper +:+ "_USERNAME" in
  if Str.mem username_key env_vars then username_key else site_upper +:+ "_USER".

Definition password_key_of (site : string) : string := Str.upper site +:+ "_PASSWORD".

(** The two messages of [perform_secure_login]. *)
Definition retrieved_message (site : string) : string :=
  "Credentials retrieved for " +:+ site +:+ ". Ready to perform login.".

Definition not_found_message (site : string) : string :=
  "No credentials found for " +:+ site +:+ ". Expected environment variables: "
  +:+ username_key_of site +:+ " and " +:+ password_key_of site.

Definition perform_secure_login (site : pyval) : exn + gmap string pyval :=
  match site with
  | VStr site =>
      let username := environ_get (username_key_of site) in
      let password := environ_get (password_key_of site) in
      if both_set username password then
        inr {[ "success" := VBool true;
               "message" := VStr (retrieved_message site);
               "username" := opt_str username;
               "password" := opt_str password ]}
      else
        inr {[ "success" := VBool false;
               "message" := VStr (not_found_message site);
               "username" := VNone;
               "password" := VNone ]}
  | _ => inl AttributeError
  end.

End Credentials.

(** What of the environment is not secret: the variable names, in order,
    and whether each value is empty. *)
Definition shape (environ : list (string * string)) : list (string * bool) :=
  (fun p => (p.1, String.eqb p.2 "")) <$> environ.

(** ** Site authentication (computers/playwright/auth.py) *)

(** The fields of an [AuthConfig].  All but [site_name] come out of the
    TOML document as they are. *)
Module AuthConfig.
Record t : Type := mk {
  site_name : string;
  name : pyval;
  login_url : pyval;
  success_url : pyval;
  username_env : pyval;
  password_env : pyval;
  username_field : pyval;
  password_field : pyval;
  submit_button : pyval;
  success_element : pyval;
  timeout : pyval }.
End AuthConfig.

(** What [PlaywrightAuthenticator] reads of the parsed TOML document: the
    [default_site] string and the [sites] table with its entries in file
    order, each of which may be absent. *)
Module ConfigData.
Record t : Type := mk {
  default_site : option string;
  sites : option (list (string * pyval)) }.
End ConfigData.

(** The methods of a Playwright [Page] that [perform_login] calls, with
    their arguments.  [get_by_label_fill] is
    [page.get_by_label(text).fill(value)] and [get_by_role_click] is
    [page.get_by_role(role, name=name).click()]. *)
Module Page.
Inductive call : Type :=
  | goto (url : pyval)
  | wait_for_load_state (state : string) (timeout : pyval)
  | fill (selector : pyval) (value : string) (timeout : Z)
  | get_by_label_fill (text : pyval) (value : string)
  | click (selector : pyval) (timeout : Z)
  | get_by_role_click (role : string) (name : pyval)
  | wait_for_url (url : pyval) (timeout : pyval)
  | wait_for_selector (selector : pyval) (timeout : pyval).

(** What the login does to the outside world, in order. *)
Inductive event : Type :=
  | Called (c : call)
  | Slept (seconds : Z).

(** What a page method can raise: Playwright's TimeoutError, another
    Playwright error, or a Python exception. *)
Inductive error : Type :=
  | PlaywrightTimeoutError
  | PlaywrightError (msg : string)
  | PythonError (e : exn).
End Page.

(** [v.get(k, dflt)] for a value: only a dict has [get]. *)
Definition value_get (v : pyval) (k : string) (dflt : pyval) : exn + pyval :=
  match v with
  | VDict d => inr (get_default d k dflt)
  | _ => inl AttributeError
  end.

(** [d[k]] and [k in d] for a table kept in file order. *)
Definition table_get (table : list (string * pyval)) (k : string) : option pyval :=
  snd <$> List.find (fun entry => String.eqb (fst entry) k) table.

Fixpoint repeat_string (n : nat) (s : string) : string :=
  match n with
  | O => ""
  | S n' => s +:+ repeat_string n' s
  end.

(** [v * n] for a non-negative integer literal [n]. *)
Definition times (v : pyval) (n : nat) : exn + pyval :=
  match v with
  | VInt z => inr (VInt (z * Z.of_nat n))
  | VBool b => inr (VInt (Z.b2z b * Z.of_nat n))
  | VStr s => inr (VStr (repeat_string n s))
  | VList l => inr (VList (mjoin (replicate n l)))
  | VNone | VDict _ => inl TypeError
  end.

Section Auth.

(** The process environment, the parsed configuration file, and the page:
    whether a call raises, given what has happened so far, and the URL
    the page is at. *)
Variable environ : list (string * string).
Variable config_data : ConfigData.t.
Variable page : list Page.event → Page.call → option Page.error.
Variable page_url : list Page.event → string.

#[local] Instance exn_ret : MRet (sum exn) := fun A a => inr a.

#[local] Instance exn_bind : MBind (sum exn) := fun A B f m =>
  match m with
  | inr a => f a
  | inl e => inl e
  end.

(** [AuthConfig.__init__] *)
Definition AuthConfig_init (site_name : string) (config : pyval) : exn + AuthConfig.t :=
  name ← value_get config "name" (VStr site_name);
  login_url ← subscript config "login_url";
  success_url ← value_get config "success_url" (VStr "");
  username_env ← subscript config "username_env";
  password_env ← subscript config "password_env";
  selectors ← value_get config "selectors" (VDict ∅);
  username_field ← value_get selectors "username_field" (VStr "");
  password_field ← value_get selectors "password_field" (VStr "");
  submit_button ← value_get selectors "submit_button" (VStr "");
  success_element ← value_get selectors "success_element" (VStr "");
  timeout ← value_get selectors "timeout" (VInt 30);
  mret (AuthConfig.mk site_name name login_url success_url username_env
          password_env username_field password_field submit_button
          success_element timeout).

(** [os.environ.get(k)] for a value [k]: a key that is not a string is a
    TypeError. *)
Definition os_environ_get (k : pyval) : exn + option string :=
  match k with
  | VStr k => inr (environ_get environ k)
  | _ => inl TypeError
  end.

(** [AuthConfig.get_credentials].  The ValueError carries the fixed start
    of the message. *)
Definition get_credentials (config : AuthConfig.t) : exn + (string * string) :=
  username ← os_environ_get (AuthConfig.username_env config);
  password ← os_environ_get (AuthConfig.password_env config);
  match username, password with
  | Some u, Some p =>
      if String.eqb u "" || String.eqb p ""
      then inl (ValueError "Missing credentials for ")
      else inr (u, p)
  | _, _ => inl (ValueError "Missing credentials for ")
  end.

Definition default_site : string := default "" (ConfigData.default_site config_data).

Definition sites : list (string * pyval) := default [] (ConfigData.sites config_data).

(** [PlaywrightAuthenticator.get_site_config] *)
Definition get_site_config (site_name : option string) : exn + AuthConfig.t :=
  let site_name := match site_name with
                   | None => default_site
                   | Some site_name => site_name
                   end in
  if String.eqb site_name "" then
    inl (ValueError "No site specified and no default_site configured")
  else
    match table_get sites site_name with
    | None =>
        let available := Str.join ", " sites.*1 in
        inl (ValueError ("Site '" +:+ site_name +:+ "' not found in config. "
                         +:+ "Available sites: " +:+ available))
    | Some config => AuthConfig_init site_name config
    end.

(** [PlaywrightAuthenticator.list_available_sites] *)
Definition list_available_sites : list string := sites.*1.

(** The monad of [perform_login]: a value or an error, together with the
    page events so far. *)
Definition P (A : Type) : Type := list Page.event → (Page.error + A) * list Page.event.

#[local] Instance P_ret : MRet P := fun A a t => (inr a, t).

#[local] Instance P_bind : MBind P := fun A B f m t =>
  match m t with
  | (inr a, t') => f a t'
  | (inl e, t') => (inl e, t')
  end.

(** A pure computation that may raise a Python exception. *)
Definition python {A} (r : exn + A) : P A := fun t =>
  (match r with
   | inr a => inr a
   | inl e => inl (Page.PythonError e)
   end, t).

(** A call of a page method. *)
Definition call (c : Page.call) : P unit := fun t =>
  (match page t c with
   | None => inr tt
   | Some e => inl e
   end, t ++ [Page.Called c]).

(** [time.sleep(seconds)] *)
Definition pause (seconds : Z) : P unit := fun t => (inr tt, t ++ [Page.Slept seconds]).

(** [try: m except PlaywrightTimeoutError: h] *)
Definition except_timeout {A} (m h : P A) : P A := fun t =>
  match m t with
  | (inl Page.PlaywrightTimeoutError, t') => h t'
  | r => r
  end.

(** [config.timeout * 1000] *)
Definition timeout_ms (config : AuthConfig.t) : P pyval :=
  python (times (AuthConfig.timeout config) 1000).

(** The steps of [perform_login] once the site and the credentials are
    known. *)
Definition login_steps (config : AuthConfig.t) (username password : string) : P pyval :=
  call (Page.goto (AuthConfig.login_url config));;
  timeout ← timeout_ms config;
  call (Page.wait_for_load_state "networkidle" timeout);;
  pause 1;;
  except_timeout
    (call (Page.fill (AuthConfig.username_field config) username 5000))
    (call (Page.get_by_label_fill (AuthConfig.username_field config) username));;
  except_timeout
    (call (Page.fill (AuthConfig.password_field config) password 5000))
    (call (Page.get_by_label_fill (AuthConfig.password_field config) password));;
  except_timeout
    (call (Page.click (AuthConfig.submit_button config) 5000))
    (call (Page.get_by_role_click "button" (AuthConfig.submit_button config)));;
  (if truthy (AuthConfig.success_url config) then
     except_timeout
       (timeout ← timeout_ms config;
        call (Page.wait_for_url (AuthConfig.success_url config) timeout))
       (timeout ← timeout_ms config;
        call (Page.wait_for_load_state "networkidle" timeout))
   else
     timeout ← timeout_ms config;
     call (Page.wait_for_load_state "networkidle" timeout));;
  (if truthy (AuthConfig.success_element config) then
     except_timeout
       (timeout ← timeout_ms config;
        call (Page.wait_for_selector (AuthConfig.success_element config) timeout))
       (mret tt)
   else mret tt);;
  pause 1;;
  if truthy (AuthConfig.success_url config) then
    mret (AuthConfig.success_url config)
  else
    fun t => (inr (VStr (page_url t)), t).

(** [PlaywrightAuthenticator.perform_login] *)
Definition perform_login (site_name : option string) : P pyval :=
  config ← python (get_site_config site_name);
  credentials ← python (get_credentials config);
  login_steps config credentials.1 credentials.2.

(** The page calls and pauses a login for [config] may make. *)
Definition login_event (config : AuthConfig.t) (username password : string)
    (e : Page.event) : Prop :=
  match e with
  | Page.Slept seconds => seconds = 1
  | Page.Called (Page.goto url) => url = AuthConfig.login_url config
  | Page.Called (Page.wait_for_load_state state _) => state = "networkidle"
  | Page.Called (Page.fill selector value timeout) =>
      timeout = 5000
      ∧ ((selector = AuthConfig.username_field config ∧ value = username)
         ∨ (selector = AuthConfig.password_field config ∧ value = password))
  | Page.Called (Page.get_by_label_fill text value) =>
      (text = AuthConfig.username_field config ∧ value = username)
      ∨ (text = AuthConfig.password_field config ∧ value = password)
  | Page.Called (Page.click selector timeout) =>
      selector = AuthConfig.submit_button config ∧ timeout = 5000
  | Page.Called (Page.get_by_role_click role name) =>
      role = "button" ∧ name = AuthConfig.submit_button config
  | Page.Called (Page.wait_for_url url _) => url = AuthConfig.success_url config
  | Page.Called (Page.wait_for_selector selector _) =>
      selector = AuthConfig.success_element config
  end.

(** A step that only appends events that satisfy [Q]. *)
Definition emits {A} (Q : Page.event → Prop) (m : P A) : Prop :=
  ∀ t, ∃ new, (m t).2 = t ++ new ∧ Forall Q new.

(** A step that returns, and one that returns or raises Playwright's
    TimeoutError. *)
Definition returns {A} (m : P A) : Prop := ∀ t, ∃ a t', m t = (inr a, t').

Definition returns_or_times_out {A} (m : P A) : Prop :=
  ∀ t, (∃ a t', m t = (inr a, t'))
       ∨ (∃ t', m t = (inl Page.PlaywrightTimeoutError, t')).

(** The page calls that [perform_login] makes inside a [try] with a
    handler for Playwright's TimeoutError. *)
Definition has_fallback (c : Page.call) : bool :=
  match c with
  | Page.fill _ _ _ | Page.click _ _ | Page.wait_for_url _ _
  | Page.wait_for_selector _ _ => true
  | _ => false
  end.

(** The value [perform_login] returns when the page events are [t]. *)
Definition login_result (config : AuthConfig.t) (t : list Page.event) : pyval :=
  if truthy (AuthConfig.success_url config) then AuthConfig.success_url config
  else VStr (page_url t).

End Auth.

(** ** BrowserAgent *)

Section BrowserAgent.

(** The collaborators: the screen size and the answers of the browser
    backend (a function of what has happened so far), the process
    environment, and the outcome of the n-th call to the model service. *)
Variable screen_size : Z * Z.
Variable computer : list event -> BackendCall -> EnvState.t.
Variable environ : list (string * string).
Variable generate_content : nat -> exn + GenerateContentResponse.t.

(** A call of a [self._browser_computer] method. *)
Definition browser (c : BackendCall) : M FunctionResponseT := fun s =>
  (inr (OfEnvState (computer (trace s) c)), log (EvBackend c) s).

Definition denormalize_x (x : pyval) : M Z :=
  x ← lift (as_int x); lift (denormalize x screen_size.1).

Definition denormalize_y (y : pyval) : M Z :=
  y ← lift (as_int y); lift (denormalize y screen_size.2).

(** The placeholder step of the [type_text_at] branch. *)
Definition substitute (text : pyval) (creds : gmap string pyval) : pyval :=
  if eq_str text USERNAME_PLACEHOLDER && bool_decide (is_Some (creds !! "username"))
  then default VNone (creds !! "username")
  else if eq_str text PASSWORD_PLACEHOLDER && bool_decide (is_Some (creds !! "password"))
  then default VNone (creds !! "password")
  else text.

(** [direction in ("up", "down")] and the like. *)
Definition direction_in (direction : pyval) (l : list string) : bool :=
  existsb (eq_str direction) l.

Definition handle_action (action : FunctionCall.t) : M FunctionResponseT :=
  let name := FunctionCall.name action in
  if String.eqb name "open_web_browser" then
    browser open_web_browser
  else if String.eqb name "click_at" then
    x ← lift (arg action "x"); x ← denormalize_x x;
    y ← lift (arg action "y"); y ← denormalize_y y;
    browser (click_at x y)
  else if String.eqb name "hover_at" then
    x ← lift (arg action "x"); x ← denormalize_x x;
    y ← lift (arg action "y"); y ← denormalize_y y;
    browser (hover_at x y)
  else if String.eqb name "type_text_at" then
    x ← lift (arg action "x"); x ← denormalize_x x;
    y ← lift (arg action "y"); y ← denormalize_y y;
    press_enter ← lift (arg_default action "press_enter" (VBool false));
    clear_before_typing ← lift (arg_default action "clear_before_typing" (VBool true));
    text ← lift (arg action "text");
    s ← get;
    let text := substitute text (_temp_credentials s) in
    browser (type_text_at x y text press_enter clear_before_typing)
  else if String.eqb name "scroll_document" then
    direction ← lift (arg action "direction");
    browser (scroll_document direction)
  else if String.eqb name "scroll_at" then
    x ← lift (arg action "x"); x ← denormalize_x x;
    y ← lift (arg action "y"); y ← denormalize_y y;
    magnitude ← lift (arg_default action "magnitude" (VInt 800));
    direction ← lift (arg action "direction");
    magnitude ←
      (if direction_in direction ["up"; "down"] then denormalize_y magnitude
       else if direction_in direction ["left"; "right"] then denormalize_x magnitude
       else raise (ValueError "Unknown direction: "));
    browser (scroll_at x y direction magnitude)
  else if String.eqb name "wait_5_seconds" then
    browser wait_5_seconds
  else if String.eqb name "go_back" then
    browser go_back
  else if String.eqb name "go_forward" then
    browser go_forward
  else if String.eqb name "search" then
    browser search
  else if String.eqb name "navigate" then
    url ← lift (arg action "url");
    browser (navigate url)
  else if String.eqb name "key_combination" then
    keys ← lift (arg action "keys");
    match keys with
    | VStr keys => browser (key_combination (Str.split "+" keys))
    | _ => raise AttributeError
    end
  else if String.eqb name "drag_and_drop" then
    x ← lift (arg action "x"); x ← denormalize_x x;
    y ← lift (arg action "y"); y ← denormalize_y y;
    destination_x ← lift (arg action "destination_x");
    destination_x ← denormalize_x destination_x;
    destination_y ← lift (arg action "destination_y");
    destination_y ← denormalize_y destination_y;
    browser (drag_and_drop x y destination_x destination_y)
  else if String.eqb name "multiply_numbers" then
    x ← lift (arg action "x");
    y ← lift (arg action "y");
    r ← lift (multiply_numbers x y);
    mret (OfDict r)
  else if String.eqb name "get_available_credentials" then
    mret (OfDict (get_available_credentials environ))
  else if String.eqb name "perform_secure_login" then
    site ← lift (arg action "site");
    result ← lift (perform_secure_login environ site);
    success ← lift (getitem result "success");
    message ← lift (getitem result "message");
    let safe_result : gmap string pyval :=
      {[ "success" := success; "message" := message ]} in
    if truthy success then
      username ← lift (getitem result "username");
      password ← lift (getitem result "password");
      modify (set_temp_credentials {[ "username" := username; "password" := password ]});;
      mret (OfDict (<[ "instruction" := VStr INSTRUCTION ]> safe_result))
    else
      mret (OfDict safe_result)
  else
    raise (ValueError "Unsupported function").

(** *** get_model_response *)

(** [self._client.models.generate_content(...)] *)
Definition call_model : M GenerateContentResponse.t := fun s =>
  (generate_content (model_calls s),
   log (EvGenerate (_contents s)) (set_model_calls (S (model_calls s)) s)).

(** [time.sleep(delay)] *)
Definition sleep (delay : Z) : M unit :=
  if delay <? 0 then raise (ValueError "sleep length must be non-negative")
  else modify (log (EvSleep delay)).

(** The [for attempt in range(max_retries)] loop from [attempt] on, with
    [remaining] rounds to go.  Falling off the loop returns [None]. *)
Fixpoint retry_loop (max_retries base_delay_s : Z) (attempt : Z) (remaining : nat)
  : M (option GenerateContentResponse.t) :=
  match remaining with
  | O => mret None
  | S remaining' =>
      try_except
        (response ← call_model; mret (Some response))
        (fun e =>
           if attempt <? max_retries - 1 then
             let delay := base_delay_s * 2 ^ attempt in
             sleep delay;;
             retry_loop max_retries base_delay_s (attempt + 1) remaining'
           else raise e)
  end.

(** The defaults of [get_model_response]. *)
Definition DEFAULT_MAX_RETRIES : Z := 5.
Definition DEFAULT_BASE_DELAY_S : Z := 1.

Definition get_model_response (max_retries base_delay_s : Z)
  : M (option GenerateContentResponse.t) :=
  retry_loop max_retries base_delay_s 0 (Z.to_nat max_retries).

(** *** get_text and extract_function_calls *)

Definition get_text (candidate : Candidate.t) : option string :=
  match Candidate.content candidate with
  | None => None
  | Some content =>
      if negb (nonempty (Content.parts content)) then None
      else
        let text := omap (fun part =>
                            match Part.text part with
                            | Some t => if String.eqb t "" then None else Some t
                            | None => None
                            end) (items (Content.parts content)) in
        let joined := Str.join " " text in
        if String.eqb joined "" then None else Some joined
  end.

Definition extract_function_calls (candidate : Candidate.t) : list FunctionCall.t :=
  match Candidate.content candidate with
  | None => []
  | Some content =>
      if negb (nonempty (Content.parts content)) then []
      else omap Part.function_call (items (Content.parts content))
  end.

(** *** _get_safety_confirmation *)

Inductive decision : Type :=
  | D_CONTINUE
  | D_TERMINATE.

Definition ACCEPTED : list string := ["y"; "n"; "ye"; "yes"; "no"].

(** The [while] loop around [input]: lines are read until one is accepted;
    reading past the end of the input raises EOFError. *)
Fixpoint read_decision (lines : list string) : M string :=
  match lines with
  | [] => raise EOFError
  | line :: rest =>
      modify (fun s => log (EvInput line) (set_stdin rest s));;
      if Str.mem (Str.lower line) ACCEPTED then mret line
      else read_decision rest
  end.

Definition _get_safety_confirmation (safety : pyval) : M decision :=
  d ← lift (subscript safety "decision");
  if negb (eq_str d "require_confirmation") then
    raise (ValueError "Unknown safety decision: safety['decision']")
  else
    s ← get;
    if _trust_mode s then
      _ ← lift (subscript safety "explanation");
      mret D_CONTINUE
    else
      _ ← lift (subscript safety "explanation");
      decision ← read_decision (stdin s);
      if Str.mem (Str.lower decision) ["n"; "no"] then mret D_TERMINATE
      else mret D_CONTINUE.

(** *** The screenshot pruning pass of run_one_iteration *)

(** The condition on a part, tested both to find a screenshot and to
    remove it. *)
Definition is_screenshot_part (part : Part.t) : bool :=
  match Part.function_response part with
  | Some fr =>
      nonempty (FunctionResponse.parts fr)
      && Str.mem (FunctionResponse.name fr) PREDEFINED_COMPUTER_USE_FUNCTIONS
  | None => false
  end.

Definition has_screenshot (content : Content.t) : bool :=
  existsb is_screenshot_part (items (Content.parts content)).

(** [part.function_response.parts = None] where the condition holds. *)
Definition strip_part (part : Part.t) : Part.t :=
  if is_screenshot_part part then
    Part.mk (Part.text part) (Part.function_call part)
      ((fun fr => FunctionResponse.mk (FunctionResponse.name fr)
                    (FunctionResponse.response fr) None)
         <$> Part.function_response part)
  else part.

Definition strip_content (content : Content.t) : Content.t :=
  Content.mk (Content.role content)
    (match Content.parts content with
     | Some parts => Some (strip_part <$> parts)
     | None => None
     end).

(** A turn that counts toward [turn_with_screenshots_found]. *)
Definition screenshot_turn (content : Content.t) : bool :=
  String.eqb (Content.role content) "user"
  && nonempty (Content.parts content)
  && has_screenshot content.

(** The loop over [reversed(self._contents)], most recent turn first. *)
Fixpoint prune_reversed (turn_with_screenshots_found : nat) (reversed : list Content.t)
  : list Content.t :=
  match reversed with
  | [] => []
  | content :: older =>
      if screenshot_turn content then
        let found := S turn_with_screenshots_found in
        (if (MAX_RECENT_TURN_WITH_SCREENSHOTS <? found)%nat
         then strip_content content else content)
          :: prune_reversed found older
      else content :: prune_reversed turn_with_screenshots_found older
  end.

Definition prune_screenshots (contents : list Content.t) : list Content.t :=
  rev (prune_reversed 0 (rev contents)).

(** The number of turns of a conversation that count as screenshot turns. *)
Definition screenshot_turns (contents : list Content.t) : nat :=
  length (List.filter screenshot_turn contents).

(** *** run_one_iteration *)

Inductive status : Type :=
  | COMPLETE
  | CONTINUE.

(** The safety step of the loop body: [None] when the gate resolved
    TERMINATE, otherwise the [extra_fr_fields] of this call. *)
Definition safety_step (function_call : FunctionCall.t) : M (option (gmap string pyval)) :=
  match FunctionCall.args function_call with
  | Some args =>
      if negb (bool_decide (args = ∅)) then
        match args !! "safety_decision" with
        | Some safety =>
            if truthy safety then
              decision ← _get_safety_confirmation safety;
              match decision with
              | D_TERMINATE => mret None
              | D_CONTINUE => mret (Some {[ "safety_acknowledgement" := VStr "true" ]})
              end
            else mret (Some ∅)
        | None => mret (Some ∅)
        end
      else mret (Some ∅)
  | None => mret (Some ∅)
  end.

(** The [FunctionResponse] built from the result of an action. *)
Definition function_response_of (function_call : FunctionCall.t)
    (extra_fr_fields : gmap string pyval) (fc_result : FunctionResponseT)
  : FunctionResponse.t :=
  match fc_result with
  | OfEnvState st =>
      FunctionResponse.mk (FunctionCall.name function_call)
        (extra_fr_fields ∪ {[ "url" := VStr (EnvState.url st) ]})
        (Some [FunctionResponsePart.mk
                 (Some (FunctionResponseBlob.mk "image/png" (EnvState.screenshot st)))])
  | OfDict d =>
      FunctionResponse.mk (FunctionCall.name function_call) d None
  end.

(** The [for function_call in function_calls] loop: [None] when a
    TERMINATE made the method return from inside the loop. *)
Fixpoint dispatch_loop (function_calls : list FunctionCall.t)
    (function_responses : list FunctionResponse.t)
  : M (option (list FunctionResponse.t)) :=
  match function_calls with
  | [] => mret (Some function_responses)
  | function_call :: rest =>
      extra ← safety_step function_call;
      match extra with
      | None => mret None
      | Some extra_fr_fields =>
          fc_result ← handle_action function_call;
          dispatch_loop rest
            (function_responses
               ++ [function_response_of function_call extra_fr_fields fc_result])
      end
  end.

Definition user_turn (function_responses : list FunctionResponse.t) : Content.t :=
  Content.mk "user"
    (Some ((fun fr => Part.mk None None (Some fr)) <$> function_responses)).

Definition append_content (content : Content.t) : M unit :=
  modify (fun s => set_contents (_contents s ++ [content]) s).

Definition run_one_iteration : M status :=
  response ← try_except
               (r ← get_model_response DEFAULT_MAX_RETRIES DEFAULT_BASE_DELAY_S;
                mret (Some r))
                        (fun e => mret None);
  match response with
  | None => mret COMPLETE
  | Some None => raise AttributeError
  | Some (Some response) =>
      match GenerateContentResponse.candidates response with
      | Some (candidate :: _) =>
          match Candidate.content candidate with
          | Some content => append_content content
          | None => mret tt
          end;;
          let reasoning := get_text candidate in
          let function_calls := extract_function_calls candidate in
          match function_calls, reasoning, Candidate.finish_reason candidate with
          | [], None, MALFORMED_FUNCTION_CALL => mret CONTINUE
          | [], _, _ =>
              modify (set_final_reasoning reasoning);;
              mret COMPLETE
          | _, _, _ =>
              function_responses ← dispatch_loop function_calls [];
              match function_responses with
              | None => mret COMPLETE
              | Some function_responses =>
                  append_content (user_turn function_responses);;
                  modify (fun s => set_contents (prune_screenshots (_contents s)) s);;
                  mret CONTINUE
              end
          end
      | _ => raise (ValueError "Empty response")
      end
  end.


(** The agent after it has read [lines] from standard input, with [rest]
    still to come. *)
Definition after_input (lines rest : list string) (s : agent) : agent :=
  mkAgent (_contents s) (_temp_credentials s) (final_reasoning s) (_trust_mode s)
    (_verbose s) rest (model_calls s) (trace s ++ (EvInput <$> lines)).

(** An action request that carries a SafetyDecision: a mapping under
    [safety_decision] whose [decision] is the confirmation sentinel and
    which has an [explanation]. *)
Definition carries_safety_decision (function_call : FunctionCall.t) : Prop :=
  ∃ args safety explanation,
    FunctionCall.args function_call = Some args
    ∧ args !! "safety_decision" = Some safety
    ∧ subscript safety "decision" = inr (VStr "require_confirmation")
    ∧ subscript safety "explanation" = inr explanation.

(** An action request with no [safety_decision] argument. *)
Definition no_safety_decision (function_call : FunctionCall.t) : Prop :=
  ∀ args, FunctionCall.args function_call = Some args →
          args !! "safety_decision" = None.

(** The vault contents an action writes: those of a
    [perform_secure_login] call whose result has a true [success], and
    nothing for any other action. *)
Definition retrieves (action : FunctionCall.t) : option (gmap string pyval) :=
  if String.eqb (FunctionCall.name action) "perform_secure_login" then
    match arg action "site" with
    | inr site =>
        match perform_secure_login environ site with
        | inr result =>
            if truthy (default VNone (result !! "success")) then
              Some {[ "username" := default VNone (result !! "username");
                      "password" := default VNone (result !! "password") ]}
            else None
        | inl _ => None
        end
    | inl _ => None
    end
  else None.

(** Actions handled one after the other, whatever each returns or raises. *)
Definition handle_actions (actions : list FunctionCall.t) (s : agent) : agent :=
  foldl (fun s action => (handle_action action s).2) s actions.

(** The events of attempts [0..k] of one model call under the backoff
    rule: attempt [k >= 1] comes after a sleep of [base_delay * 2^(k-1)];
    nothing comes before attempt 0 or after the last attempt. *)
Fixpoint backoff_trace (contents : list Content.t) (base_delay : Z) (k : nat)
  : list event :=
  match k with
  | O => [EvGenerate contents]
  | S k' =>
      backoff_trace contents base_delay k'
        ++ [EvSleep (base_delay * 2 ^ Z.of_nat k'); EvGenerate contents]
  end.

(** The same events, listed from attempt [a] on with [failures] failed
    attempts ahead: the order in which the loop produces them. *)
Fixpoint attempts_from (contents : list Content.t) (base_delay a : Z) (failures : nat)
  : list event :=
  match failures with
  | O => [EvGenerate contents]
  | S n =>
      EvGenerate contents :: EvSleep (base_delay * 2 ^ a)
        :: attempts_from contents base_delay (a + 1) n
  end.

(** The agent after [n] more model calls that left [events] in the trace. *)
Definition after_calls (n : nat) (events : list event) (s : agent) : agent :=
  mkAgent (_contents s) (_temp_credentials s) (final_reasoning s) (_trust_mode s)
    (_verbose s) (stdin s) (model_calls s + n) (trace s ++ events).

(** The agent after one model call that answered with a turn [content]:
    the call is in the trace and the turn is in the conversation. *)
Definition model_turn (content : Content.t) (s : agent) : agent :=
  set_contents (_contents s ++ [content])
    (after_calls 1 [EvGenerate (_contents s)] s).

(** A method that leaves one aspect [proj] of the agent as it found it. *)
Definition keeps {X A : Type} (proj : agent → X) (m : M A) : Prop :=
  ∀ s, proj (m s).2 = proj s.

(** *** agent_loop *)

(** [while status == "CONTINUE": status = self.run_one_iteration()], for
    at most [fuel] iterations: [Some tt] when the loop has ended, [None]
    when every iteration allowed has returned CONTINUE. *)
Fixpoint agent_loop (fuel : nat) : M (option unit) :=
  match fuel with
  | O => mret None
  | S fuel' =>
      status ← run_one_iteration;
      match status with
      | CONTINUE => agent_loop fuel'
      | COMPLETE => mret (Some tt)
      end
  end.

(** The names [handle_action] has a branch for. *)
Definition HANDLED_FUNCTIONS : list string :=
  PREDEFINED_COMPUTER_USE_FUNCTIONS
    ++ ["multiply_numbers"; "get_available_credentials"; "perform_secure_login"].

(** The agent after one model call that answered with [candidate]: the
    call is in the trace, and the candidate's content, if it has one, is
    in the conversation. *)
Definition after_answer (candidate : Candidate.t) (s : agent) : agent :=
  match Candidate.content candidate with
  | Some content => model_turn content s
  | None => after_calls 1 [EvGenerate (_contents s)] s
  end.

(** The parts [get_text] and [extract_function_calls] go through: none
    when the candidate has no content or the content has no parts. *)
Definition candidate_parts (candidate : Candidate.t) : list Part.t :=
  match Candidate.content candidate with
  | Some content => items (Content.parts content)
  | None => []
  end.

(** A method that calls the backend at most once, as its last step: it
    leaves the trace alone and returns no [EnvState], or it appends one
    backend call and returns the backend's answer to it. *)
Definition calls_backend_at_most_once (m : M FunctionResponseT) : Prop :=
  ∀ s,
    (trace (m s).2 = trace s ∧ ∀ st, (m s).1 ≠ inr (OfEnvState st))
    ∨ (∃ c, trace (m s).2 = trace s ++ [EvBackend c]
            ∧ (m s).1 = inr (OfEnvState (computer (trace s) c))).

(** The exceptions [handle_action] can raise for a request named [name]. *)
Definition action_error (name : string) (e : exn) : Prop :=
  match e with
  | KeyError _ | TypeError | AttributeError | OverflowError => True
  | ValueError msg =>
      (msg = "Unknown direction: " ∧ name = "scroll_at")
      ∨ (msg = "Unsupported function" ∧ name ∉ HANDLED_FUNCTIONS)
  | _ => False
  end.

(** A method whose exceptions all satisfy [P]. *)
Definition raises_within {A} (P : exn → Prop) (m : M A) : Prop :=
  ∀ s e, (m s).1 = inl e → P e.

(** One conversation grown out of another: the old turns are still
    there, in place, each as it was or with its screenshots removed, and
    at most [n] turns have been added. *)
Definition grown_from (n : nat) (old new : list Content.t) : Prop :=
  (length old ≤ length new ≤ length old + n)%nat
  ∧ ∀ i content, old !! i = Some content →
      new !! i = Some content ∨ new !! i = Some (strip_content content).

(** ** FormAgent (form_agent.py) *)

(** The file system as [read_data_from_json] sees it: the parsed JSON
    document behind a path, or the exception [open] or [json.load]
    raises. *)
Variable json_file : pyval → exn + pyval.

(** What [FormAgent.handle_action] returns: an [EnvState], or a Python
    value (the dict of a custom function, the document of a JSON file). *)
Inductive FormResponseT : Type :=
  | FormEnvState (e : EnvState.t)
  | FormValue (v : pyval).

(** A result of [BrowserAgent.handle_action] as such a value. *)
Definition of_base (r : FunctionResponseT) : FormResponseT :=
  match r with
  | OfEnvState e => FormEnvState e
  | OfDict d => FormValue (VDict d)
  end.

Definition read_data_from_json (file_path : pyval) : M pyval :=
  lift (json_file file_path).

(** [input(question)]: the next line of standard input, EOFError at its
    end. *)
Definition ask_for_help (question : pyval) : M string :=
  s ← get;
  match stdin s with
  | [] => raise EOFError
  | line :: rest =>
      modify (fun s => log (EvInput line) (set_stdin rest s));;
      mret line
  end.

(** [FormAgent.handle_action], for an agent built with the given
    [can_ask_for_help]. *)
Definition FormAgent_handle_action (can_ask_for_help : bool) (action : FunctionCall.t)
  : M FormResponseT :=
  let name := FunctionCall.name action in
  if String.eqb name "read_data_from_json" then
    file_path ← lift (arg action "file_path");
    data ← read_data_from_json file_path;
    mret (FormValue data)
  else if String.eqb name "ask_for_help" && can_ask_for_help then
    question ← lift (arg action "question");
    response ← ask_for_help question;
    mret (FormValue (VDict {[ "response" := VStr response ]}))
  else
    r ← handle_action action;
    mret (of_base r).

(** The two [isinstance] tests of the dispatch loop on what
    [FormAgent.handle_action] returned: an [EnvState] and a dict each
    give a [FunctionResponse], any other value gives none. *)
Definition FormAgent_response_of (function_call : FunctionCall.t)
    (extra_fr_fields : gmap string pyval) (fc_result : FormResponseT)
  : option FunctionResponse.t :=
  match fc_result with
  | FormEnvState st =>
      Some (function_response_of function_call extra_fr_fields (OfEnvState st))
  | FormValue (VDict d) =>
      Some (function_response_of function_call extra_fr_fields (OfDict d))
  | FormValue _ => None
  end.

(** The [for function_call in function_calls] loop of the inherited
    [run_one_iteration], with [self.handle_action] resolved to
    [FormAgent.handle_action]. *)
Fixpoint FormAgent_dispatch_loop (can_ask_for_help : bool)
    (function_calls : list FunctionCall.t)
    (function_responses : list FunctionResponse.t)
  : M (option (list FunctionResponse.t)) :=
  match function_calls with
  | [] => mret (Some function_responses)
  | function_call :: rest =>
      extra ← safety_step function_call;
      match extra with
      | None => mret None
      | Some extra_fr_fields =>
          fc_result ← FormAgent_handle_action can_ask_for_help function_call;
          FormAgent_dispatch_loop can_ask_for_help rest
            (function_responses
               ++ match FormAgent_response_of function_call extra_fr_fields
                          fc_result with
                  | Some function_response => [function_response]
                  | None => []
                  end)
      end
  end.

(** ** A sample session

    Concrete collaborators and inputs on which the facts below are run:
    the screen of main.py, a backend that answers every call with the same
    screenshot, an environment with one credential pair, and a few action
    requests. *)

Definition PLAYWRIGHT_SCREEN_SIZE : Z * Z := (1440, 900).

Definition sample_computer (history : list event) (call : BackendCall) : EnvState.t :=
  EnvState.mk "PNG"
    (match call with
     | navigate (VStr url) => url
     | _ => "https://www.google.com"
     end).

Definition sample_environ : list (string * string) :=
  [ ("HOME", "/root"); ("GITHUB_USERNAME", "octocat"); ("GITHUB_PASSWORD", "hunter2") ].

(** The same variables with other secrets. *)
Definition other_environ : list (string * string) :=
  [ ("HOME", "/srv"); ("GITHUB_USERNAME", "mona"); ("GITHUB_PASSWORD", "correct horse") ].

Definition sample_query : Content.t :=
  Content.mk "user" (Some [Part.mk (Some "Sign in to the site") None None]).

Definition sample_agent (trust_mode : bool) (lines : list string) : agent :=
  mkAgent [sample_query] ∅ None trust_mode true lines 0 [].

Definition sample_safety : pyval :=
  VDict {[ "decision" := VStr "require_confirmation";
           "explanation" := VStr "This action submits a form." ]}.

Definition click_request : FunctionCall.t :=
  FunctionCall.mk "click_at" (Some {[ "x" := VInt 500; "y" := VInt 500 ]}).

Definition flagged_navigate : FunctionCall.t :=
  FunctionCall.mk "navigate"
    (Some {[ "url" := VStr "https://example.com"; "safety_decision" := sample_safety ]}).

Definition flagged_open : FunctionCall.t :=
  FunctionCall.mk "open_web_browser" (Some {[ "safety_decision" := sample_safety ]}).

Definition flagged_listing : FunctionCall.t :=
  FunctionCall.mk "get_available_credentials"
    (Some {[ "safety_decision" := sample_safety ]}).

Definition login_request (site : string) : FunctionCall.t :=
  FunctionCall.mk "perform_secure_login" (Some {[ "site" := VStr site ]}).

Definition type_request (text : string) : FunctionCall.t :=
  FunctionCall.mk "type_text_at"
    (Some {[ "x" := VInt 250; "y" := VInt 100; "text" := VStr text ]}).

Definition turn_of (function_calls : list FunctionCall.t) : Content.t :=
  Content.mk "model" (Some ((fun fc => Part.mk None (Some fc) None) <$> function_calls)).

Definition answer (content : Content.t) : GenerateContentResponse.t :=
  GenerateContentResponse.mk (Some [Candidate.mk (Some content) STOP]).

(** A model service that always answers with the same turn. *)
Definition steady_model (content : Content.t) (n : nat)
  : exn + GenerateContentResponse.t :=
  inr (answer content).

(** A model service that fails [failures] times and then answers. *)
Definition flaky_model (failures : nat) (content : Content.t) (n : nat)
  : exn + GenerateContentResponse.t :=
  if (n <? failures)%nat then inl (ServiceError "503") else inr (answer content).

(** A user turn with the result of one predefined function and its
    screenshot. *)
Definition screenshot_of (url : string) : Content.t :=
  Content.mk "user"
    (Some [Part.mk None None
             (Some (FunctionResponse.mk "click_at" {[ "url" := VStr url ]}
                      (Some [FunctionResponsePart.mk
                               (Some (FunctionResponseBlob.mk "image/png" "PNG"))])))]).

Definition sample_conversation : list Content.t :=
  [ sample_query;
    turn_of [click_request]; screenshot_of "https://a.example";
    turn_of [click_request]; screenshot_of "https://b.example";
    turn_of [click_request]; screenshot_of "https://c.example";
    turn_of [click_request]; screenshot_of "https://d.example" ].

(** A model service that is down, one that answers without candidates,
    and one that keeps answering with an empty malformed candidate. *)
Definition failing_model (n : nat) : exn + GenerateContentResponse.t :=
  inl (ServiceError "503").

Definition empty_model (n : nat) : exn + GenerateContentResponse.t :=
  inr (GenerateContentResponse.mk None).

Definition malformed_model (n : nat) : exn + GenerateContentResponse.t :=
  inr (GenerateContentResponse.mk
         (Some [Candidate.mk None MALFORMED_FUNCTION_CALL])).

(** A model turn that only reports. *)
Definition final_answer : Content.t :=
  Content.mk "model" (Some [Part.mk (Some "The form is submitted.") None None]).

Definition scroll_request : FunctionCall.t :=
  FunctionCall.mk "scroll_at"
    (Some {[ "x" := VInt 500; "y" := VInt 500; "direction" := VStr "down" ]}).

Definition keys_request : FunctionCall.t :=
  FunctionCall.mk "key_combination" (Some {[ "keys" := VStr "Control+Shift+T" ]}).

Definition help_request : FunctionCall.t :=
  FunctionCall.mk "ask_for_help" (Some {[ "question" := VStr "Which account?" ]}).

Definition read_request : FunctionCall.t :=
  FunctionCall.mk "read_data_from_json" (Some {[ "file_path" := VStr "rows.json" ]}).

(** A file system with one JSON file, whose document is an array. *)
Definition sample_json_file (file_path : pyval) : exn + pyval :=
  if eq_str file_path "rows.json" then inr (VList [VInt 1; VInt 2])
  else inl (ValueError "No such file or directory").

(** An environment that names one site under both username variables. *)
Definition doubled_environ : list (string * string) :=
  [ ("DB_USERNAME", "admin"); ("DB_USER", "root"); ("DB_PASSWORD", "secret") ].

(** A configuration file with one site, the site it describes, and two
    pages: one on which every call succeeds, and one on which every call
    that has a fallback times out. *)
Definition sample_config_data : ConfigData.t :=
  ConfigData.mk (Some "github")
    (Some [ ("github",
             VDict {[ "login_url" := VStr "https://github.com/login";
                      "username_env" := VStr "GITHUB_USERNAME";
                      "password_env" := VStr "GITHUB_PASSWORD" ]}) ]).

Definition sample_config : AuthConfig.t :=
  AuthConfig.mk "github" (VStr "github") (VStr "https://github.com/login")
    (VStr "") (VStr "GITHUB_USERNAME") (VStr "GITHUB_PASSWORD")
    (VStr "") (VStr "") (VStr "") (VStr "") (VInt 30).

Definition quiet_page (t : list Page.event) (c : Page.call) : option Page.error :=
  None.

Definition slow_page (t : list Page.event) (c : Page.call) : option Page.error :=
  if has_fallback c then Some Page.PlaywrightTimeoutError else None.

Definition sample_page_url (t : list Page.event) : string := "https://github.com/".

(** * Facts *)

(** ** The string methods and the credential listing on examples *)

Example lower_mixed_case : Str.lower "YeS" = "yes".
Proof. reflexivity. Qed.

Example endswith_user : Str.endswith "SITE_USER" "_USER" = true.
Proof. reflexivity. Qed.

Example replace_twice :
  Str.replace (Str.replace "MY_USER_USERNAME" "_USERNAME" "") "_USER" "" = "MY".
Proof. reflexivity. Qed.

Example split_keys : Str.split "+" "Control+Shift+T" = ["Control"; "Shift"; "T"].
Proof. reflexivity. Qed.

Example sample_sites : available_sites sample_environ = ["github"].
Proof. reflexivity. Qed.

Example sample_login_fails :
  perform_secure_login sample_environ (VStr "gitlab")
  = inr {[ "success" := VBool false;
           "message" :=
             VStr "No credentials found for gitlab. Expected environment variables: GITLAB_USER and GITLAB_PASSWORD";
           "username" := VNone;
           "password" := VNone ]}.
Proof. reflexivity. Qed.

(** ** The screenshot pruning pass *)

Lemma strip_part_clean part : is_screenshot_part (strip_part part) = false.
Proof.
  unfold strip_part. destruct (is_screenshot_part part) eqn:E; [|done].
  unfold is_screenshot_part in *. simpl.
  destruct (Part.function_response part); [done|discriminate].
Qed.

Lemma strip_part_other part : is_screenshot_part part = false → strip_part part = part.
Proof. unfold strip_part. by intros ->. Qed.

Lemma strip_content_clean content : screenshot_turn (strip_content content) = false.
Proof.
  unfold screenshot_turn, has_screenshot, strip_content. simpl.
  destruct (Content.parts content) as [parts|]; simpl.
  - replace (existsb is_screenshot_part (strip_part <$> parts)) with false.
    { by rewrite andb_false_r. }
    symmetry. induction parts as [|p parts IH]; [done|].
    rewrite fmap_cons. simpl. by rewrite strip_part_clean.
  - by rewrite andb_false_r.
Qed.

Lemma prune_reversed_length n l : length (prune_reversed n l) = length l.
Proof.
  revert n. induction l as [|c l IH]; intros n; [done|].
  simpl. destruct (screenshot_turn c); simpl; by rewrite IH.
Qed.

Lemma prune_reversed_app n l1 l2 :
  prune_reversed n (l1 ++ l2)
  = prune_reversed n l1 ++ prune_reversed (n + screenshot_turns l1) l2.
Proof.
  revert n. induction l1 as [|c l1 IH]; intros n.
  - simpl. by rewrite Nat.add_0_r.
  - unfold screenshot_turns in *. simpl.
    destruct (screenshot_turn c); simpl; by rewrite IH, ?Nat.add_succ_r.
Qed.

(** Past the limit every screenshot turn is stripped and nothing else
    changes. *)
Lemma prune_reversed_saturated n l :
  (MAX_RECENT_TURN_WITH_SCREENSHOTS ≤ n)%nat →
  prune_reversed n l
  = (fun c => if screenshot_turn c then strip_content c else c) <$> l.
Proof.
  revert n. induction l as [|c l IH]; intros n Hn; [done|].
  simpl. destruct (screenshot_turn c).
  - rewrite (proj2 (Nat.ltb_lt _ _)) by lia. f_equal. apply IH. lia.
  - f_equal. by apply IH.
Qed.

(** A second pass that starts with a count no larger than the first one
    finds nothing left to remove. *)
Lemma prune_reversed_idem m n l :
  (m ≤ n)%nat → prune_reversed m (prune_reversed n l) = prune_reversed n l.
Proof.
  revert m n. induction l as [|c l IH]; intros m n Hmn; [done|].
  simpl. destruct (screenshot_turn c) eqn:Ec.
  - destruct (MAX_RECENT_TURN_WITH_SCREENSHOTS <? S n)%nat eqn:En.
    + simpl. rewrite strip_content_clean. f_equal. apply IH. lia.
    + simpl. rewrite Ec.
      apply Nat.ltb_ge in En.
      rewrite (proj2 (Nat.ltb_ge _ _)) by lia.
      f_equal. apply IH. lia.
  - simpl. rewrite Ec. f_equal. by apply IH.
Qed.

(** After a pass that started at [n], the turns still holding screenshots
    are those the limit left room for. *)
Lemma prune_reversed_count n l :
  screenshot_turns (prune_reversed n l)
  = (screenshot_turns l `min` (MAX_RECENT_TURN_WITH_SCREENSHOTS - n))%nat.
Proof.
  unfold screenshot_turns.
  revert n. induction l as [|c l IH]; intros n; [done|].
  cbn -[Nat.min Nat.sub Nat.ltb]. destruct (screenshot_turn c) eqn:Ec.
  - destruct (MAX_RECENT_TURN_WITH_SCREENSHOTS <? S n)%nat eqn:En;
      cbn -[Nat.min Nat.sub Nat.ltb].
    + rewrite strip_content_clean, IH.
      apply Nat.ltb_lt in En. unfold MAX_RECENT_TURN_WITH_SCREENSHOTS in *. lia.
    + rewrite Ec. cbn -[Nat.min Nat.sub Nat.ltb]. rewrite IH.
      apply Nat.ltb_ge in En. unfold MAX_RECENT_TURN_WITH_SCREENSHOTS in *. lia.
  - cbn -[Nat.min Nat.sub Nat.ltb]. by rewrite Ec, IH.
Qed.

Lemma screenshot_turns_rev l : screenshot_turns (rev l) = screenshot_turns l.
Proof.
  unfold screenshot_turns. induction l as [|c l IH]; [done|].
  simpl. rewrite List.filter_app, length_app, IH. simpl.
  destruct (screenshot_turn c); simpl; lia.
Qed.

(** The pass seen from the front of the conversation: the turn at a given
    place is stripped exactly when it is a screenshot turn with at least
    three screenshot turns after it. *)
Lemma prune_screenshots_middle older content newer :
  prune_screenshots (older ++ content :: newer)
  = rev (prune_reversed
           (screenshot_turns newer + (if screenshot_turn content then 1 else 0))
           (rev older))
    ++ (if screenshot_turn content
           && (MAX_RECENT_TURN_WITH_SCREENSHOTS <=? screenshot_turns newer)%nat
        then strip_content content else content)
    :: prune_screenshots newer.
Proof.
  unfold prune_screenshots.
  rewrite rev_app_distr. simpl. rewrite <- app_assoc. simpl.
  rewrite prune_reversed_app, rev_app_distr, screenshot_turns_rev. simpl.
  destruct (screenshot_turn content); simpl.
  - rewrite <- app_assoc, Nat.add_1_r. simpl.
    by destruct (screenshot_turns newer) as [|[|[|k]]].
  - by rewrite <- app_assoc, Nat.add_0_r.
Qed.

Lemma prune_screenshots_length contents :
  length (prune_screenshots contents) = length contents.
Proof.
  unfold prune_screenshots. by rewrite length_rev, prune_reversed_length, length_rev.
Qed.

Lemma prune_screenshots_lookup contents i content :
  contents !! i = Some content →
  prune_screenshots contents !! i
  = Some (if screenshot_turn content
             && (MAX_RECENT_TURN_WITH_SCREENSHOTS
                 <=? screenshot_turns (drop (S i) contents))%nat
          then strip_content content else content).
Proof.
  intros Hi.
  rewrite <- (take_drop_middle contents i content Hi) at 1.
  rewrite prune_screenshots_middle.
  apply list_lookup_middle.
  rewrite length_rev, prune_reversed_length, length_rev, length_take.
  apply lookup_lt_Some in Hi. lia.
Qed.

(** What stripping does to a turn, part by part: the role, the number and
    order of parts, the text, the function call, and the name and response
    mapping of a function response all stay; only the [parts] of a function
    response that holds a screenshot of a predefined function become
    [None]. *)
Lemma strip_content_parts content :
  Content.role (strip_content content) = Content.role content
  ∧ length (items (Content.parts (strip_content content)))
    = length (items (Content.parts content))
  ∧ ∀ j part,
      items (Content.parts content) !! j = Some part →
      ∃ part',
        items (Content.parts (strip_content content)) !! j = Some part'
        ∧ Part.text part' = Part.text part
        ∧ Part.function_call part' = Part.function_call part
        ∧ match Part.function_response part with
          | None => Part.function_response part' = None
          | Some fr =>
              ∃ fr',
                Part.function_response part' = Some fr'
                ∧ FunctionResponse.name fr' = FunctionResponse.name fr
                ∧ FunctionResponse.response fr' = FunctionResponse.response fr
                ∧ FunctionResponse.parts fr'
                  = if is_screenshot_part part then None
                    else FunctionResponse.parts fr
          end.
Proof.
  unfold strip_content. destruct (Content.parts content) as [parts|]; simpl.
  - split; [done|]. split; [by rewrite length_fmap|].
    intros j part Hj. exists (strip_part part).
    split; [by rewrite list_lookup_fmap, Hj|].
    unfold strip_part. destruct (is_screenshot_part part) eqn:E; simpl.
    + repeat split. destruct (Part.function_response part) as [fr|]; simpl; [|done].
      by exists (FunctionResponse.mk (FunctionResponse.name fr)
                   (FunctionResponse.response fr) None).
    + repeat split. destruct (Part.function_response part) as [fr|]; [|done].
      by exists fr.
  - do 2 (split; [done|]). intros j part Hj. by rewrite lookup_nil in Hj.
Qed.

(** C5. In a conversation with more than three screenshot turns (user
    turns holding a function response of a predefined function with an
    attachment), the pruning pass keeps the conversation's length, leaves
    exactly three screenshot turns, and treats the turn at each place as
    follows: a screenshot turn with fewer than three screenshot turns after
    it is unchanged, a screenshot turn with three or more after it is
    stripped, and any other turn is unchanged; stripping removes the
    attachment of every matching part and keeps its name and response
    mapping and every other part. *)
Theorem C5_retention (contents : list Content.t) :
  (MAX_RECENT_TURN_WITH_SCREENSHOTS < screenshot_turns contents)%nat →
  let pruned := prune_screenshots contents in
  length pruned = length contents
  ∧ screenshot_turns pruned = MAX_RECENT_TURN_WITH_SCREENSHOTS
  ∧ (∀ i content,
       contents !! i = Some content →
       let newer := screenshot_turns (drop (S i) contents) in
       (screenshot_turn content = true →
        (newer < MAX_RECENT_TURN_WITH_SCREENSHOTS)%nat →
        pruned !! i = Some content)
       ∧ (screenshot_turn content = true →
          (MAX_RECENT_TURN_WITH_SCREENSHOTS ≤ newer)%nat →
          pruned !! i = Some (strip_content content)
          ∧ screenshot_turn (strip_content content) = false)
       ∧ (screenshot_turn content = false → pruned !! i = Some content))
  ∧ (∀ content,
       Content.role (strip_content content) = Content.role content
       ∧ length (items (Content.parts (strip_content content)))
         = length (items (Content.parts content))
       ∧ ∀ j part,
           items (Content.parts content) !! j = Some part →
           ∃ part',
             items (Content.parts (strip_content content)) !! j = Some part'
             ∧ Part.text part' = Part.text part
             ∧ Part.function_call part' = Part.function_call part
             ∧ match Part.function_response part with
               | None => Part.function_response part' = None
               | Some fr =>
                   ∃ fr',
                     Part.function_response part' = Some fr'
                     ∧ FunctionResponse.name fr' = FunctionResponse.name fr
                     ∧ FunctionResponse.response fr' = FunctionResponse.response fr
                     ∧ FunctionResponse.parts fr'
                       = if is_screenshot_part part then None
                         else FunctionResponse.parts fr
               end).
Proof.
  intros HN pruned. subst pruned.
  split; [apply prune_screenshots_length|].
  split.
  { unfold prune_screenshots.
    rewrite screenshot_turns_rev, prune_reversed_count, screenshot_turns_rev.
    unfold MAX_RECENT_TURN_WITH_SCREENSHOTS in *. lia. }
  split; [|apply strip_content_parts].
  intros i content Hi newer. subst newer.
  rewrite (prune_screenshots_lookup _ _ _ Hi).
  split; [|split].
  - intros -> Hlt. cbn [andb]. by rewrite (proj2 (Nat.leb_gt _ _)).
  - intros -> Hle. cbn [andb]. rewrite (proj2 (Nat.leb_le _ _)) by done.
    split; [done|apply strip_content_clean].
  - by intros ->.
Qed.

(** C6. Applying the pruning pass to a conversation it has already been
    applied to changes nothing. *)
Theorem C6_prune_idempotent (contents : list Content.t) :
  prune_screenshots (prune_screenshots contents) = prune_screenshots contents.
Proof.
  unfold prune_screenshots. rewrite rev_involutive.
  by rewrite prune_reversed_idem.
Qed.

(** ** The safety gate *)

Lemma mem_elem_of x l : Str.mem x l = true ↔ x ∈ l.
Proof.
  unfold Str.mem. rewrite existsb_exists. split.
  - intros (y & Hy & Heq). apply String.eqb_eq in Heq. subst.
    by apply list_elem_of_In.
  - intros Hx. exists x. split; [by apply list_elem_of_In|apply String.eqb_refl].
Qed.

Lemma mem_not_elem_of x l : Str.mem x l = false ↔ x ∉ l.
Proof.
  rewrite <- mem_elem_of. destruct (Str.mem x l); naive_solver.
Qed.

Lemma accepted_alphabet x : x ∈ ["y"; "n"; "yes"; "no"; "ye"] ↔ x ∈ ACCEPTED.
Proof. unfold ACCEPTED. rewrite !elem_of_cons. clear. tauto. Qed.

Lemma refusal_accepted x : x ∈ ["n"; "no"] → x ∈ ACCEPTED.
Proof. unfold ACCEPTED. rewrite !elem_of_cons. clear. tauto. Qed.

Lemma read_decision_accepts rejected line rest s :
  Forall (fun l => Str.lower l ∉ ACCEPTED) rejected →
  Str.lower line ∈ ACCEPTED →
  read_decision (rejected ++ line :: rest) s
  = (inr line, after_input (rejected ++ [line]) rest s).
Proof.
  intros Hrej Hacc. revert s.
  induction Hrej as [|l rejected Hl Hrej IH]; intros s.
  - simpl. unfold_monad. simpl.
    apply mem_elem_of in Hacc. rewrite Hacc.
    unfold after_input, log, set_stdin. simpl. done.
  - simpl. unfold_monad. simpl.
    apply mem_not_elem_of in Hl. rewrite Hl.
    rewrite IH. unfold after_input, log, set_stdin. simpl.
    by rewrite <- app_assoc.
Qed.

(** The gate with trust mode off, for a well-formed decision. *)
Lemma safety_confirmation_asks safety explanation s rejected line rest :
  subscript safety "decision" = inr (VStr "require_confirmation") →
  subscript safety "explanation" = inr explanation →
  _trust_mode s = false →
  stdin s = rejected ++ line :: rest →
  Forall (fun l => Str.lower l ∉ ACCEPTED) rejected →
  Str.lower line ∈ ACCEPTED →
  _get_safety_confirmation safety s
  = (inr (if Str.mem (Str.lower line) ["n"; "no"] then D_TERMINATE else D_CONTINUE),
     after_input (rejected ++ [line]) rest s).
Proof.
  intros Hd He Ht Hin Hrej Hacc.
  unfold _get_safety_confirmation. unfold_monad.
  rewrite Hd. simpl. rewrite Ht, He, Hin.
  rewrite read_decision_accepts by done.
  by destruct (Str.mem (Str.lower line) ["n"; "no"]).
Qed.

(** C8. For a safety decision that asks for confirmation, the gate with
    trust mode on resolves CONTINUE and leaves the agent, its standard
    input included, as it was; with trust mode off it reads lines up to and
    including the first whose lower-case form is one of y, n, ye, yes, no,
    resolves TERMINATE exactly when that form is n or no, and leaves the
    lines after it unread. *)
Theorem C8_safety_gate (safety explanation : pyval) (s : agent) :
  subscript safety "decision" = inr (VStr "require_confirmation") →
  subscript safety "explanation" = inr explanation →
  (_trust_mode s = true →
   _get_safety_confirmation safety s = (inr D_CONTINUE, s))
  ∧ (_trust_mode s = false →
     ∀ rejected line rest,
       stdin s = rejected ++ line :: rest →
       Forall (fun l => Str.lower l ∉ ["y"; "n"; "yes"; "no"; "ye"]) rejected →
       Str.lower line ∈ ["y"; "n"; "yes"; "no"; "ye"] →
       _get_safety_confirmation safety s
       = (inr (if bool_decide (Str.lower line ∈ ["n"; "no"])
               then D_TERMINATE else D_CONTINUE),
          after_input (rejected ++ [line]) rest s)).
Proof.
  intros Hd He. split.
  - intros Ht. unfold _get_safety_confirmation. unfold_monad.
    rewrite Hd. simpl. rewrite Ht, He. done.
  - intros Ht rejected line rest Hin Hrej Hacc.
    rewrite (safety_confirmation_asks _ _ _ _ _ _ Hd He Ht Hin).
    + destruct (Str.mem (Str.lower line) ["n"; "no"]) eqn:E.
      * apply mem_elem_of in E. by rewrite bool_decide_eq_true_2.
      * apply mem_not_elem_of in E. by rewrite bool_decide_eq_false_2.
    + eapply Forall_impl; [exact Hrej|]. intros l Hl Hin'. apply Hl.
      by apply accepted_alphabet.
    + by apply accepted_alphabet.
Qed.

(** ** The retry wrapper *)

Lemma attempts_from_snoc contents base a n :
  attempts_from contents base a (S n)
  = attempts_from contents base a n
      ++ [EvSleep (base * 2 ^ (a + Z.of_nat n)); EvGenerate contents].
Proof.
  revert a. induction n as [|n IH]; intros a.
  - simpl. by rewrite Z.add_0_r.
  - change (attempts_from contents base a (S (S n)))
      with (EvGenerate contents :: EvSleep (base * 2 ^ a)
              :: attempts_from contents base (a + 1) (S n)).
    rewrite IH.
    by replace (a + 1 + Z.of_nat n) with (a + Z.of_nat (S n)) by lia.
Qed.

Lemma attempts_from_backoff contents base k :
  attempts_from contents base 0 k = backoff_trace contents base k.
Proof.
  induction k as [|k IH]; [done|].
  rewrite attempts_from_snoc, IH. simpl. done.
Qed.

Lemma after_calls_after_calls n m ev1 ev2 s :
  after_calls n ev2 (after_calls m ev1 s) = after_calls (m + n) (ev1 ++ ev2) s.
Proof. unfold after_calls. simpl. f_equal; [lia|by rewrite app_assoc]. Qed.

Lemma call_model_step s :
  call_model s = (generate_content (model_calls s), after_calls 1 [EvGenerate (_contents s)] s).
Proof.
  unfold call_model, after_calls, log, set_model_calls. simpl.
  by rewrite Nat.add_1_r.
Qed.

Lemma sleep_step delay s :
  0 ≤ delay → sleep delay s = (inr tt, after_calls 0 [EvSleep delay] s).
Proof.
  intros H. unfold sleep. rewrite (proj2 (Z.ltb_ge _ _)) by done.
  unfold modify, after_calls, log. simpl. by rewrite Nat.add_0_r.
Qed.

(** [j] failures, then a response, with rounds to spare. *)
Lemma retry_loop_succeeds max_retries base (errs : nat → exn) response j :
  0 ≤ base →
  ∀ remaining attempt s,
    0 ≤ attempt →
    (j < remaining)%nat →
    attempt + Z.of_nat remaining = max_retries →
    (∀ i, (i < j)%nat → generate_content (model_calls s + i) = inl (errs i)) →
    generate_content (model_calls s + j) = inr response →
    retry_loop max_retries base attempt remaining s
    = (inr (Some response),
       after_calls (S j) (attempts_from (_contents s) base attempt j) s).
Proof.
  intros Hbase. revert errs.
  induction j as [|j IH]; intros errs remaining attempt s Ha Hj Hmax Hfail Hok.
  - destruct remaining as [|remaining]; [lia|].
    simpl. unfold_monad. rewrite call_model_step.
    rewrite Nat.add_0_r in Hok. by rewrite Hok.
  - destruct remaining as [|remaining]; [lia|].
    simpl. unfold_monad. rewrite call_model_step.
    specialize (Hfail 0%nat ltac:(lia)) as H0. rewrite Nat.add_0_r in H0.
    rewrite H0.
    rewrite (proj2 (Z.ltb_lt _ _)) by lia.
    rewrite sleep_step by (apply Z.mul_nonneg_nonneg; [done|by apply Z.pow_nonneg]).
    rewrite (IH (fun i => errs (S i))); try lia.
    + rewrite !after_calls_after_calls. simpl. done.
    + intros i Hi. simpl. rewrite <- (Hfail (S i)) by lia. f_equal. lia.
    + simpl. rewrite <- Hok. f_equal. lia.
Qed.

(** Every round fails: the last error is raised, with no sleep after it. *)
Lemma retry_loop_exhausted max_retries base (errs : nat → exn) :
  0 ≤ base →
  ∀ remaining attempt s,
    0 ≤ attempt →
    attempt + Z.of_nat (S remaining) = max_retries →
    (∀ i, (i ≤ remaining)%nat → generate_content (model_calls s + i) = inl (errs i)) →
    retry_loop max_retries base attempt (S remaining) s
    = (inl (errs remaining),
       after_calls (S remaining) (attempts_from (_contents s) base attempt remaining) s).
Proof.
  intros Hbase remaining. revert errs.
  induction remaining as [|remaining IH]; intros errs attempt s Ha Hmax Hfail.
  - simpl. unfold_monad. rewrite call_model_step.
    specialize (Hfail 0%nat ltac:(lia)) as H0. rewrite Nat.add_0_r in H0.
    rewrite H0. by rewrite (proj2 (Z.ltb_ge _ _)) by lia.
  - change (retry_loop max_retries base attempt (S (S remaining)) s)
      with (try_except (response ← call_model; mret (Some response))
              (fun e =>
                 if attempt <? max_retries - 1 then
                   sleep (base * 2 ^ attempt);;
                   retry_loop max_retries base (attempt + 1) (S remaining)
                 else raise e) s).
    unfold_monad. rewrite call_model_step.
    specialize (Hfail 0%nat ltac:(lia)) as H0. rewrite Nat.add_0_r in H0.
    rewrite H0.
    rewrite (proj2 (Z.ltb_lt _ _)) by lia.
    rewrite sleep_step by (apply Z.mul_nonneg_nonneg; [done|by apply Z.pow_nonneg]).
    rewrite (IH (fun i => errs (S i))); try lia.
    + rewrite !after_calls_after_calls. simpl. done.
    + intros i Hi. simpl. rewrite <- (Hfail (S i)) by lia. f_equal. lia.
Qed.

(** C7. With a non-negative base delay: if the first [j] attempts fail
    and attempt [j] (0-indexed) answers, with [j < max_retries], the call
    returns that answer after [j + 1] attempts, having slept
    [base_delay * 2^(k-1)] before each attempt [k >= 1] and at no other
    time; if all of the first [max_retries >= 1] attempts fail, the call
    makes exactly [max_retries] attempts with the same sleeps between them,
    none after the last, and raises the error of the last attempt. *)
Theorem C7_retry_backoff (max_retries base_delay_s : Z) (errs : nat → exn) (s : agent) :
  0 ≤ base_delay_s →
  (∀ j response,
     Z.of_nat j < max_retries →
     (∀ i, (i < j)%nat → generate_content (model_calls s + i) = inl (errs i)) →
     generate_content (model_calls s + j) = inr response →
     get_model_response max_retries base_delay_s s
     = (inr (Some response),
        after_calls (S j) (backoff_trace (_contents s) base_delay_s j) s))
  ∧ (1 ≤ max_retries →
     (∀ i, Z.of_nat i < max_retries →
           generate_content (model_calls s + i) = inl (errs i)) →
     get_model_response max_retries base_delay_s s
     = (inl (errs (Z.to_nat max_retries - 1)%nat),
        after_calls (Z.to_nat max_retries)
          (backoff_trace (_contents s) base_delay_s (Z.to_nat max_retries - 1)) s)).
Proof.
  intros Hbase. unfold get_model_response. split.
  - intros j response Hj Hfail Hok.
    rewrite <- attempts_from_backoff.
    apply (retry_loop_succeeds max_retries base_delay_s errs); try done; lia.
  - intros Hmax Hfail.
    rewrite <- attempts_from_backoff.
    destruct (Z.to_nat max_retries) as [|remaining] eqn:E; [lia|].
    replace (S remaining - 1)%nat with remaining by lia.
    apply (retry_loop_exhausted max_retries base_delay_s errs); try done; try lia.
    intros i Hi. apply Hfail. lia.
Qed.

(** ** The credential vault *)

Lemma handle_action_login action :
  FunctionCall.name action = "perform_secure_login" →
  handle_action action
  = (site ← lift (arg action "site");
     result ← lift (perform_secure_login environ site);
     success ← lift (getitem result "success");
     message ← lift (getitem result "message");
     let safe_result : gmap string pyval :=
       {[ "success" := success; "message" := message ]} in
     if truthy success then
       username ← lift (getitem result "username");
       password ← lift (getitem result "password");
       modify (set_temp_credentials {[ "username" := username; "password" := password ]});;
       mret (OfDict (<[ "instruction" := VStr INSTRUCTION ]> safe_result))
     else
       mret (OfDict safe_result)).
Proof. unfold handle_action. by intros ->. Qed.

Section Frame.

(** Frame lemmas for an aspect [proj] of the agent that the trace does
    not enter. *)
Context {X : Type} (proj : agent → X).
Hypothesis proj_log : ∀ e s, proj (log e s) = proj s.

#[local] Abbreviation keeps := (keeps proj).

Lemma keeps_ret {A} (a : A) : keeps (mret a).
Proof. done. Qed.

Lemma keeps_raise {A} (e : exn) : keeps (raise (A:=A) e).
Proof. done. Qed.

Lemma keeps_lift {A} (r : exn + A) : keeps (lift r).
Proof. done. Qed.

Lemma keeps_get : keeps get.
Proof. done. Qed.

Lemma keeps_bind {A B} (m : M A) (f : A → M B) :
  keeps m → (∀ a, keeps (f a)) → keeps (m ≫= f).
Proof.
  intros Hm Hf s. unfold mbind, M_bind. specialize (Hm s).
  destruct (m s) as [[e|a] s']; simpl in *; [done|].
  by rewrite Hf.
Qed.

Lemma keeps_browser c : keeps (browser c).
Proof. intros s. apply proj_log. Qed.

Lemma keeps_denormalize_x x : keeps (denormalize_x x).
Proof.
  unfold denormalize_x. apply keeps_bind; [apply keeps_lift|].
  intros a. apply keeps_lift.
Qed.

Lemma keeps_denormalize_y y : keeps (denormalize_y y).
Proof.
  unfold denormalize_y. apply keeps_bind; [apply keeps_lift|].
  intros a. apply keeps_lift.
Qed.

Ltac keeps :=
  repeat first
    [ apply keeps_ret | apply keeps_raise | apply keeps_lift | apply keeps_get
    | apply keeps_browser | apply keeps_denormalize_x | apply keeps_denormalize_y
    | apply keeps_bind; [|intros ?]
    | match goal with
      | |- keeps (if ?b then _ else _) => destruct b
      | |- keeps (match ?x with _ => _ end) => destruct x
      | |- keeps (let _ := _ in _) => cbv zeta
      end ].

(** Every branch but [perform_secure_login] only reads the agent and
    calls the backend. *)
Lemma handle_action_other_keeps action :
  String.eqb (FunctionCall.name action) "perform_secure_login" = false →
  keeps (handle_action action).
Proof.
  intros E. unfold handle_action. rewrite E. keeps.
Qed.

(** An aspect the vault does not enter either is kept by every action. *)
Lemma handle_action_keeps action :
  (∀ c s, proj (set_temp_credentials c s) = proj s) →
  keeps (handle_action action).
Proof.
  intros Hvault.
  destruct (String.eqb (FunctionCall.name action) "perform_secure_login") eqn:E;
    [|by apply handle_action_other_keeps].
  apply String.eqb_eq in E. rewrite (handle_action_login _ E).
  keeps. intros s. apply Hvault.
Qed.

End Frame.

(** The [perform_secure_login] branch, outcome by outcome. *)
Lemma handle_action_login_site action site s :
  FunctionCall.name action = "perform_secure_login" →
  arg action "site" = inr (VStr site) →
  handle_action action s
  = let username := environ_get environ (username_key_of environ site) in
    let password := environ_get environ (password_key_of site) in
    if both_set username password then
      (inr (OfDict (<[ "instruction" := VStr INSTRUCTION ]>
                      {[ "success" := VBool true;
                         "message" := VStr (retrieved_message site) ]})),
       set_temp_credentials
         {[ "username" := opt_str username; "password" := opt_str password ]} s)
    else
      (inr (OfDict {[ "success" := VBool false;
                      "message" := VStr (not_found_message environ site) ]}),
       s).
Proof.
  intros Hname Hsite. rewrite (handle_action_login _ Hname).
  unfold_monad. rewrite Hsite. unfold perform_secure_login.
  cbn zeta. destruct (both_set _ _); reflexivity.
Qed.

Lemma retrieves_login_site action site :
  FunctionCall.name action = "perform_secure_login" →
  arg action "site" = inr (VStr site) →
  retrieves action
  = let username := environ_get environ (username_key_of environ site) in
    let password := environ_get environ (password_key_of site) in
    if both_set username password then
      Some {[ "username" := opt_str username; "password" := opt_str password ]}
    else None.
Proof.
  intros Hname Hsite. unfold retrieves. rewrite Hname, Hsite.
  unfold perform_secure_login. cbn zeta.
  destruct (both_set _ _); reflexivity.
Qed.

(** The vault after any action: what a successful retrieval wrote, or
    what it held before. *)
Lemma handle_action_vault action s :
  _temp_credentials (handle_action action s).2
  = default (_temp_credentials s) (retrieves action).
Proof.
  destruct (String.eqb (FunctionCall.name action) "perform_secure_login") eqn:E.
  - apply String.eqb_eq in E.
    destruct (arg action "site") as [e|site] eqn:Hsite.
    + rewrite (handle_action_login _ E). unfold retrieves.
      by rewrite E, Hsite.
    + destruct site as [| | |site| |];
        try (rewrite (handle_action_login _ E); unfold retrieves;
             by rewrite E, Hsite).
      rewrite (handle_action_login_site _ _ _ E Hsite).
      rewrite (retrieves_login_site _ _ E Hsite). cbn zeta.
      by destruct (both_set _ _).
  - rewrite (handle_action_other_keeps _temp_credentials); [|done|done].
    unfold retrieves. by rewrite E.
Qed.

Lemma handle_actions_vault actions s :
  Forall (fun action => retrieves action = None) actions →
  _temp_credentials (handle_actions actions s) = _temp_credentials s.
Proof.
  intros H. revert s. unfold handle_actions.
  induction H as [|action actions Ha _ IH]; intros s; [done|].
  simpl. rewrite IH, handle_action_vault. by rewrite Ha.
Qed.

Lemma retrieves_Some action pair :
  retrieves action = Some pair →
  FunctionCall.name action = "perform_secure_login"
  ∧ ∃ site u p,
      arg action "site" = inr (VStr site)
      ∧ environ_get environ (username_key_of environ site) = Some u
      ∧ environ_get environ (password_key_of site) = Some p
      ∧ u ≠ "" ∧ p ≠ ""
      ∧ pair = {[ "username" := VStr u; "password" := VStr p ]}.
Proof.
  intros H.
  destruct (String.eqb (FunctionCall.name action) "perform_secure_login") eqn:E;
    [|unfold retrieves in H; by rewrite E in H].
  apply String.eqb_eq in E. split; [done|].
  destruct (arg action "site") as [e|site] eqn:Hsite;
    [unfold retrieves in H; by rewrite E, Hsite in H|].
  destruct site as [| | |site| |];
    try (unfold retrieves in H; by rewrite E, Hsite in H).
  rewrite (retrieves_login_site _ _ E Hsite) in H. cbn zeta in H.
  destruct (environ_get environ (username_key_of environ site)) as [u|] eqn:Hu;
    [|done].
  destruct (environ_get environ (password_key_of site)) as [p|] eqn:Hp;
    [|done].
  simpl in H.
  destruct (String.eqb u "") eqn:Eu; [done|].
  destruct (String.eqb p "") eqn:Ep; [done|].
  apply String.eqb_neq in Eu, Ep. simpl in H.
  exists site, u, p. repeat split; try done. congruence.
Qed.

(** ** The type_text_at branch *)

Lemma eq_str_true v k : eq_str v k = true ↔ v = VStr k.
Proof.
  destruct v; simpl; try (split; [discriminate|by intros [=]]).
  rewrite String.eqb_eq. split; [by intros ->|by intros [=]].
Qed.

Lemma handle_action_type_text action :
  FunctionCall.name action = "type_text_at" →
  handle_action action
  = (x ← lift (arg action "x"); x ← denormalize_x x;
     y ← lift (arg action "y"); y ← denormalize_y y;
     press_enter ← lift (arg_default action "press_enter" (VBool false));
     clear_before_typing ← lift (arg_default action "clear_before_typing" (VBool true));
     text ← lift (arg action "text");
     s ← get;
     let text := substitute text (_temp_credentials s) in
     browser (type_text_at x y text press_enter clear_before_typing)).
Proof. unfold handle_action. by intros ->. Qed.

(** The placeholder step, case by case. *)
Lemma substitute_cases text creds :
  (∀ u, text = VStr USERNAME_PLACEHOLDER → creds !! "username" = Some u →
        substitute text creds = u)
  ∧ (∀ p, text = VStr PASSWORD_PLACEHOLDER → creds !! "password" = Some p →
          substitute text creds = p)
  ∧ (¬ (text = VStr USERNAME_PLACEHOLDER ∧ is_Some (creds !! "username")) →
     ¬ (text = VStr PASSWORD_PLACEHOLDER ∧ is_Some (creds !! "password")) →
     substitute text creds = text).
Proof.
  unfold substitute. repeat split.
  - intros u -> Hu. by rewrite Hu.
  - intros p -> Hp. by rewrite Hp.
  - intros Hnu Hnp.
    destruct (eq_str text USERNAME_PLACEHOLDER
              && bool_decide (is_Some (creds !! "username"))) eqn:E1.
    { apply andb_true_iff in E1 as [E1 E2]. apply eq_str_true in E1.
      apply bool_decide_eq_true_1 in E2. by destruct Hnu. }
    destruct (eq_str text PASSWORD_PLACEHOLDER
              && bool_decide (is_Some (creds !! "password"))) eqn:E2; [|done].
    apply andb_true_iff in E2 as [E2 E3]. apply eq_str_true in E2.
    apply bool_decide_eq_true_1 in E3. by destruct Hnp.
Qed.

(** C3. A [type_text_at] call whose coordinates denormalize forwards to
    the backend: the stored username when the text is the username
    placeholder and the vault holds a username, the stored password when
    the text is the password placeholder and the vault holds a password,
    and the text argument itself in every other case. *)
Theorem C3_type_text_substitution (action : FunctionCall.t)
    (args : gmap string pyval) (x y text : pyval) (px py : Z) (s : agent) :
  FunctionCall.name action = "type_text_at" →
  FunctionCall.args action = Some args →
  args !! "x" = Some x →
  args !! "y" = Some y →
  args !! "text" = Some text →
  denormalize_x x s = (inr px, s) →
  denormalize_y y s = (inr py, s) →
  ∃ forwarded,
    handle_action action s
    = (let call := type_text_at px py forwarded
                     (get_default args "press_enter" (VBool false))
                     (get_default args "clear_before_typing" (VBool true)) in
       (inr (OfEnvState (computer (trace s) call)), log (EvBackend call) s))
    ∧ (∀ u, text = VStr "{{USERNAME}}" →
            _temp_credentials s !! "username" = Some u → forwarded = u)
    ∧ (∀ p, text = VStr "{{PASSWORD}}" →
            _temp_credentials s !! "password" = Some p → forwarded = p)
    ∧ (¬ (text = VStr "{{USERNAME}}" ∧ is_Some (_temp_credentials s !! "username")) →
       ¬ (text = VStr "{{PASSWORD}}" ∧ is_Some (_temp_credentials s !! "password")) →
       forwarded = text).
Proof.
  intros Hname Hargs Hx Hy Htext Hpx Hpy.
  exists (substitute text (_temp_credentials s)).
  split; [|apply substitute_cases].
  rewrite (handle_action_type_text _ Hname).
  unfold arg, arg_default, getitem. rewrite Hargs, Hx, Hy, Htext.
  unfold mbind, M_bind. unfold lift at 1. rewrite Hpx.
  unfold lift at 1. rewrite Hpy. reflexivity.
Qed.

(** C10. The vault after an action holds what a successful retrieval
    wrote and otherwise what it held before; a retrieval that finds no
    credentials returns its failure mapping and leaves the whole agent as it
    was; a [type_text_at] call never writes the vault; so after a
    successful retrieval followed by any actions none of which is a
    successful retrieval, the vault still holds the retrieved pair and both
    placeholders are replaced by its values. *)
Theorem C10_vault_frame :
  (∀ action s,
     _temp_credentials (handle_action action s).2
     = default (_temp_credentials s) (retrieves action))
  ∧ (∀ action site s,
       FunctionCall.name action = "perform_secure_login" →
       arg action "site" = inr (VStr site) →
       both_set (environ_get environ (username_key_of environ site))
                (environ_get environ (password_key_of site)) = false →
       retrieves action = None
       ∧ handle_action action s
         = (inr (OfDict {[ "success" := VBool false;
                           "message" := VStr (not_found_message environ site) ]}),
            s))
  ∧ (∀ action, FunctionCall.name action = "type_text_at" → retrieves action = None)
  ∧ (∀ login pair actions s,
       retrieves login = Some pair →
       Forall (fun action => retrieves action = None) actions →
       let s' := handle_actions (login :: actions) s in
       ∃ u p,
         pair = {[ "username" := VStr u; "password" := VStr p ]}
         ∧ _temp_credentials s' = pair
         ∧ substitute (VStr "{{USERNAME}}") (_temp_credentials s') = VStr u
         ∧ substitute (VStr "{{PASSWORD}}") (_temp_credentials s') = VStr p).
Proof.
  split; [apply handle_action_vault|].
  split.
  { intros action site s Hname Hsite Hfail.
    rewrite (retrieves_login_site _ _ Hname Hsite).
    rewrite (handle_action_login_site _ _ _ Hname Hsite).
    cbn zeta. by rewrite Hfail. }
  split.
  { intros action Hname. unfold retrieves. by rewrite Hname. }
  intros login pair actions s Hlogin Hrest s'.
  destruct (retrieves_Some _ _ Hlogin) as (_ & site & u & p & _ & _ & _ & _ & _ & ->).
  exists u, p. split; [done|].
  assert (_temp_credentials s' = {[ "username" := VStr u; "password" := VStr p ]}) as ->.
  { subst s'. unfold handle_actions. simpl.
    fold (handle_actions actions (handle_action login s).2).
    rewrite (handle_actions_vault _ _ Hrest), handle_action_vault.
    by rewrite Hlogin. }
  done.
Qed.

(** ** One iteration with a denied confirmation *)

Lemma safety_step_unflagged function_call s :
  no_safety_decision function_call →
  safety_step function_call s = (inr (Some ∅), s).
Proof.
  intros H. unfold safety_step, no_safety_decision in *.
  destruct (FunctionCall.args function_call) as [args|]; [|done].
  rewrite (H args eq_refl). by destruct (negb _).
Qed.

Lemma carries_safety_decision_truthy (args : gmap string pyval) safety explanation :
  args !! "safety_decision" = Some safety →
  subscript safety "decision" = inr (VStr "require_confirmation") →
  subscript safety "explanation" = inr explanation →
  bool_decide (args = ∅) = false ∧ truthy safety = true.
Proof.
  intros Hs Hd He. split.
  - apply bool_decide_eq_false_2. intros ->. by rewrite lookup_empty in Hs.
  - destruct safety as [| | | | |d]; try discriminate. simpl.
    rewrite bool_decide_eq_false_2; [done|].
    intros ->. unfold subscript, getitem in Hd. by rewrite lookup_empty in Hd.
Qed.

Lemma safety_step_denied function_call s rejected deny rest :
  carries_safety_decision function_call →
  _trust_mode s = false →
  stdin s = rejected ++ deny :: rest →
  Forall (fun l => Str.lower l ∉ ACCEPTED) rejected →
  Str.lower deny ∈ ["n"; "no"] →
  safety_step function_call s
  = (inr None, after_input (rejected ++ [deny]) rest s).
Proof.
  intros (args & safety & explanation & Hargs & Hs & Hd & He) Ht Hin Hrej Hdeny.
  destruct (carries_safety_decision_truthy _ _ _ Hs Hd He) as [Hne Htruthy].
  unfold safety_step. rewrite Hargs, Hne, Hs, Htruthy. simpl.
  unfold mbind, M_bind.
  rewrite (safety_confirmation_asks _ _ _ _ _ _ Hd He Ht Hin Hrej).
  - apply mem_elem_of in Hdeny. by rewrite Hdeny.
  - by apply refusal_accepted.
Qed.

Lemma safety_step_approved function_call s :
  carries_safety_decision function_call →
  _trust_mode s = true →
  safety_step function_call s
  = (inr (Some {[ "safety_acknowledgement" := VStr "true" ]}), s).
Proof.
  intros (args & safety & explanation & Hargs & Hs & Hd & He) Ht.
  destruct (carries_safety_decision_truthy _ _ _ Hs Hd He) as [Hne Htruthy].
  unfold safety_step. rewrite Hargs, Hne, Hs, Htruthy. simpl.
  unfold _get_safety_confirmation. unfold_monad.
  rewrite Hd. simpl. by rewrite Ht, He.
Qed.

Lemma get_model_response_first max_retries base response s :
  0 < max_retries →
  generate_content (model_calls s) = inr response →
  get_model_response max_retries base s
  = (inr (Some response), after_calls 1 [EvGenerate (_contents s)] s).
Proof.
  intros Hmax Hok. unfold get_model_response.
  destruct (Z.to_nat max_retries) as [|remaining] eqn:E; [lia|].
  simpl. unfold_monad. by rewrite call_model_step, Hok.
Qed.

(** The iteration up to the dispatch loop, for a turn with function
    calls. *)
Lemma run_one_iteration_dispatch s response candidate others content fc fcs :
  generate_content (model_calls s) = inr response →
  GenerateContentResponse.candidates response = Some (candidate :: others) →
  Candidate.content candidate = Some content →
  extract_function_calls candidate = fc :: fcs →
  run_one_iteration s
  = (function_responses ← dispatch_loop (fc :: fcs) [];
     match function_responses with
     | None => mret COMPLETE
     | Some function_responses =>
         append_content (user_turn function_responses);;
         modify (fun s => set_contents (prune_screenshots (_contents s)) s);;
         mret CONTINUE
     end) (model_turn content s).
Proof.
  intros Hok Hcand Hcontent Hfcs. unfold run_one_iteration.
  unfold mbind at 1. unfold M_bind at 1. unfold try_except.
  unfold mbind at 1. unfold M_bind at 1.
  rewrite (get_model_response_first DEFAULT_MAX_RETRIES DEFAULT_BASE_DELAY_S
             response s) by done.
  unfold mret at 1. unfold M_ret at 1.
  rewrite Hcand, Hcontent, Hfcs.
  unfold mbind at 1. unfold M_bind at 1.
  reflexivity.
Qed.

Lemma after_input_contents lines rest s :
  _contents (after_input lines rest s) = _contents s.
Proof. done. Qed.


(** ** The other ways out of one iteration *)

Lemma get_model_response_exhausted (errs : nat → exn) s :
  (∀ i, (i < 5)%nat → generate_content (model_calls s + i) = inl (errs i)) →
  get_model_response DEFAULT_MAX_RETRIES DEFAULT_BASE_DELAY_S s
  = (inl (errs 4%nat), after_calls 5 (backoff_trace (_contents s) 1 4) s).
Proof.
  intros Hfail. unfold get_model_response. rewrite <- attempts_from_backoff.
  change (Z.to_nat DEFAULT_MAX_RETRIES) with 5%nat.
  apply (retry_loop_exhausted 5 1 errs); try done.
  intros i Hi. apply Hfail. lia.
Qed.

Lemma run_one_iteration_exhausted (errs : nat → exn) s :
  (∀ i, (i < 5)%nat → generate_content (model_calls s + i) = inl (errs i)) →
  run_one_iteration s
  = (inr COMPLETE, after_calls 5 (backoff_trace (_contents s) 1 4) s).
Proof.
  intros Hfail. unfold run_one_iteration.
  unfold mbind at 1. unfold M_bind at 1. unfold try_except.
  unfold mbind at 1. unfold M_bind at 1.
  by rewrite (get_model_response_exhausted errs s Hfail).
Qed.

(** X1. When the model service fails five times in a row, the iteration
    swallows the error and returns COMPLETE: it has made exactly five
    attempts with sleeps of 1, 2, 4 and 8 seconds between them, and has
    left the conversation, the vault, the final reasoning and the
    standard input as they were, with no backend call.  The agent loop
    therefore ends after this single iteration, whatever the bound on
    iterations. *)
Theorem run_one_iteration_service_down (errs : nat → exn) (s : agent) (fuel : nat) :
  (∀ i, (i < 5)%nat → generate_content (model_calls s + i) = inl (errs i)) →
  let ask := EvGenerate (_contents s) in
  let s' :=
    mkAgent (_contents s) (_temp_credentials s) (final_reasoning s)
      (_trust_mode s) (_verbose s) (stdin s) (model_calls s + 5)
      (trace s ++ [ask; EvSleep 1; ask; EvSleep 2; ask; EvSleep 4; ask;
                   EvSleep 8; ask]) in
  run_one_iteration s = (inr COMPLETE, s')
  ∧ agent_loop (S fuel) s = (inr (Some tt), s').
Proof.
  intros Hfail ask s'.
  pose proof (run_one_iteration_exhausted errs s Hfail) as Hrun.
  split; [by rewrite Hrun|].
  simpl. unfold mbind, M_bind. by rewrite Hrun.
Qed.

(** The iteration from the first candidate on, when the first attempt
    answers. *)
Lemma run_one_iteration_answer s response candidate others :
  generate_content (model_calls s) = inr response →
  GenerateContentResponse.candidates response = Some (candidate :: others) →
  run_one_iteration s
  = (match extract_function_calls candidate, get_text candidate,
           Candidate.finish_reason candidate with
     | [], None, MALFORMED_FUNCTION_CALL => mret CONTINUE
     | [], _, _ =>
         modify (set_final_reasoning (get_text candidate));;
         mret COMPLETE
     | _, _, _ =>
         function_responses ← dispatch_loop (extract_function_calls candidate) [];
         match function_responses with
         | None => mret COMPLETE
         | Some function_responses =>
             append_content (user_turn function_responses);;
             modify (fun s => set_contents (prune_screenshots (_contents s)) s);;
             mret CONTINUE
         end
     end) (after_answer candidate s).
Proof.
  intros Hok Hcand. unfold run_one_iteration.
  unfold mbind at 1. unfold M_bind at 1. unfold try_except.
  unfold mbind at 1. unfold M_bind at 1.
  rewrite (get_model_response_first DEFAULT_MAX_RETRIES DEFAULT_BASE_DELAY_S
             response s) by done.
  unfold mret at 1. unfold M_ret at 1.
  rewrite Hcand. unfold after_answer.
  unfold mbind at 1. unfold M_bind at 1.
  destruct (Candidate.content candidate) as [content|]; reflexivity.
Qed.

Lemma run_one_iteration_no_candidates s response :
  generate_content (model_calls s) = inr response →
  nonempty (GenerateContentResponse.candidates response) = false →
  run_one_iteration s
  = (inl (ValueError "Empty response"),
     after_calls 1 [EvGenerate (_contents s)] s).
Proof.
  intros Hok Hcand. unfold run_one_iteration.
  unfold mbind at 1. unfold M_bind at 1. unfold try_except.
  unfold mbind at 1. unfold M_bind at 1.
  rewrite (get_model_response_first DEFAULT_MAX_RETRIES DEFAULT_BASE_DELAY_S
             response s) by done.
  unfold mret at 1. unfold M_ret at 1.
  by destruct (GenerateContentResponse.candidates response) as [[|? ?]|].
Qed.

(** X2. A response without candidates ([None] or an empty list) is not
    swallowed like a service failure: the iteration raises ValueError
    "Empty response" after the one model call, and so does the agent
    loop, whose [while] has no handler; the conversation is as it was. *)
Theorem empty_response_raises (s : agent) (response : GenerateContentResponse.t)
    (fuel : nat) :
  generate_content (model_calls s) = inr response →
  nonempty (GenerateContentResponse.candidates response) = false →
  run_one_iteration s
  = (inl (ValueError "Empty response"),
     after_calls 1 [EvGenerate (_contents s)] s)
  ∧ agent_loop (S fuel) s
    = (inl (ValueError "Empty response"),
       after_calls 1 [EvGenerate (_contents s)] s).
Proof.
  intros Hok Hcand.
  pose proof (run_one_iteration_no_candidates s response Hok Hcand) as Hrun.
  split; [done|].
  simpl. unfold mbind, M_bind. by rewrite Hrun.
Qed.

(** X3. A candidate without action requests ends the iteration in one of
    two ways.  With no text and finish reason MALFORMED_FUNCTION_CALL the
    iteration returns CONTINUE and records nothing but the candidate's
    content, if any; in every other case it returns COMPLETE and sets
    [final_reasoning] to the candidate's text (which may be [None]).  No
    user turn is added and the backend is not called. *)
Theorem run_one_iteration_without_calls (s : agent)
    (response : GenerateContentResponse.t) (candidate : Candidate.t)
    (others : list Candidate.t) :
  generate_content (model_calls s) = inr response →
  GenerateContentResponse.candidates response = Some (candidate :: others) →
  extract_function_calls candidate = [] →
  (get_text candidate = None →
   Candidate.finish_reason candidate = MALFORMED_FUNCTION_CALL →
   run_one_iteration s = (inr CONTINUE, after_answer candidate s))
  ∧ (get_text candidate ≠ None
     ∨ Candidate.finish_reason candidate ≠ MALFORMED_FUNCTION_CALL →
     run_one_iteration s
     = (inr COMPLETE,
        set_final_reasoning (get_text candidate) (after_answer candidate s))).
Proof.
  intros Hok Hcand Hcalls.
  rewrite (run_one_iteration_answer s response candidate others Hok Hcand).
  rewrite Hcalls. split.
  - by intros -> ->.
  - intros H.
    destruct (get_text candidate) as [text|]; [reflexivity|].
    destruct (Candidate.finish_reason candidate); try reflexivity.
    by destruct H.
Qed.

(** ** The agent loop *)

(** A service that answers every call with a candidate that has no
    content and finish reason MALFORMED_FUNCTION_CALL. *)
Lemma run_one_iteration_malformed s response others :
  generate_content (model_calls s) = inr response →
  GenerateContentResponse.candidates response
  = Some (Candidate.mk None MALFORMED_FUNCTION_CALL :: others) →
  run_one_iteration s
  = (inr CONTINUE, after_calls 1 [EvGenerate (_contents s)] s).
Proof.
  intros Hok Hcand.
  by rewrite (run_one_iteration_answer s response _ others Hok Hcand).
Qed.

(** X4. The retry of a malformed function call has no bound.  Against a
    service that keeps answering with an empty candidate whose finish
    reason is MALFORMED_FUNCTION_CALL, the loop is still running after
    any number [n] of iterations: it has made [n] model calls, each with
    the same conversation, and has not slept. *)
Theorem agent_loop_malformed_forever (s : agent) (n : nat) :
  (∀ k, ∃ response others,
      generate_content k = inr response
      ∧ GenerateContentResponse.candidates response
        = Some (Candidate.mk None MALFORMED_FUNCTION_CALL :: others)) →
  agent_loop n s
  = (inr None, after_calls n (replicate n (EvGenerate (_contents s))) s).
Proof.
  intros Hmodel. revert s. induction n as [|n IH]; intros s.
  - unfold after_calls. simpl. rewrite Nat.add_0_r, app_nil_r. by destruct s.
  - destruct (Hmodel (model_calls s)) as (response & others & Hok & Hcand).
    simpl. unfold mbind, M_bind.
    rewrite (run_one_iteration_malformed s response others Hok Hcand).
    rewrite IH. rewrite after_calls_after_calls. done.
Qed.

(** ** What one action does to the backend and to the agent *)

Lemma once_browser c : calls_backend_at_most_once (browser c).
Proof. intros s. right. by exists c. Qed.

Lemma once_raise e : calls_backend_at_most_once (raise e).
Proof. intros s. left. split; [done|]. intros st. discriminate. Qed.

Lemma once_dict d : calls_backend_at_most_once (mret (OfDict d)).
Proof. intros s. left. split; [done|]. intros st. discriminate. Qed.

Lemma once_bind {A} (m : M A) (f : A → M FunctionResponseT) :
  keeps trace m →
  (∀ a, calls_backend_at_most_once (f a)) →
  calls_backend_at_most_once (m ≫= f).
Proof.
  intros Hm Hf s. unfold mbind, M_bind. specialize (Hm s).
  destruct (m s) as [[e|a] s'].
  - left. split; [done|]. intros st. discriminate.
  - simpl in Hm. destruct (Hf a s') as [[Ht Hr]|(c & Ht & Hr)].
    + left. by rewrite Ht.
    + right. exists c. by rewrite Ht, Hr, Hm.
Qed.

Lemma keeps_trace_vault d : keeps trace (modify (set_temp_credentials d)).
Proof. done. Qed.

Ltac at_most_once :=
  repeat first
    [ apply once_browser | apply once_raise | apply once_dict
    | apply once_bind;
      [ first [ apply keeps_lift | apply keeps_get | apply keeps_denormalize_x
              | apply keeps_denormalize_y | apply keeps_trace_vault
              | apply keeps_raise ]
      | intros ? ]
    | match goal with
      | |- calls_backend_at_most_once (if ?b then _ else _) => destruct b
      | |- calls_backend_at_most_once (match ?x with _ => _ end) => destruct x
      | |- calls_backend_at_most_once (let _ := _ in _) => cbv zeta
      end ].

(** X5. One action is at most one backend call, made last.  Whatever the
    request, [handle_action] either leaves the trace alone and returns no
    [EnvState] (a custom function, or an exception raised before the
    backend is reached), or appends exactly one backend call to the trace
    and returns the backend's answer to that call. *)
Theorem handle_action_calls_backend_at_most_once (action : FunctionCall.t) :
  calls_backend_at_most_once (handle_action action).
Proof.
  unfold handle_action. cbv zeta. at_most_once.
  - apply once_bind; [|intros ?; at_most_once].
    destruct (direction_in _ _); [apply keeps_denormalize_y|].
    destruct (direction_in _ _); [apply keeps_denormalize_x|apply keeps_raise].
Qed.

(** X6. [handle_action] works on the backend and the vault only: the
    conversation, the final reasoning, the trust and verbosity settings,
    the pending standard input and the count of model calls are the same
    after any action, whether it returns or raises. *)
Theorem handle_action_frame (action : FunctionCall.t) (s : agent) :
  let s' := (handle_action action s).2 in
  _contents s' = _contents s
  ∧ final_reasoning s' = final_reasoning s
  ∧ _trust_mode s' = _trust_mode s
  ∧ _verbose s' = _verbose s
  ∧ stdin s' = stdin s
  ∧ model_calls s' = model_calls s.
Proof.
  cbv zeta.
  split; [|split; [|split; [|split; [|split]]]];
    by apply handle_action_keeps.
Qed.

(** *** Errors *)

Lemma within_ret {A} P (a : A) : raises_within P (mret a).
Proof. intros s e. discriminate. Qed.

Lemma within_get P : raises_within P get.
Proof. intros s e. discriminate. Qed.

Lemma within_modify P f : raises_within P (modify f).
Proof. intros s e. discriminate. Qed.

Lemma within_browser P c : raises_within P (browser c).
Proof. intros s e. discriminate. Qed.

Lemma within_raise {A} (P : exn → Prop) e : P e → raises_within P (raise (A:=A) e).
Proof. intros H s e'. unfold raise. simpl. by intros [= <-]. Qed.

Lemma within_lift {A} (P : exn → Prop) (r : exn + A) :
  (∀ e, r = inl e → P e) → raises_within P (lift r).
Proof. intros H s e. unfold lift. simpl. apply H. Qed.

Lemma within_bind {A B} P (m : M A) (f : A → M B) :
  raises_within P m → (∀ a, raises_within P (f a)) → raises_within P (m ≫= f).
Proof.
  intros Hm Hf s e. unfold mbind, M_bind. specialize (Hm s).
  destruct (m s) as [[e'|a] s'].
  - simpl. intros [= <-]. by apply Hm.
  - apply Hf.
Qed.

Lemma arg_error action k e :
  arg action k = inl e → e = KeyError k ∨ e = TypeError.
Proof.
  unfold arg, getitem. destruct (FunctionCall.args action) as [d|].
  - destruct (d !! k); [discriminate|]. intros [= <-]. by left.
  - intros [= <-]. by right.
Qed.

Lemma within_arg name action k :
  raises_within (action_error name) (lift (arg action k)).
Proof.
  apply within_lift. intros e He.
  by destruct (arg_error _ _ _ He) as [-> | ->].
Qed.

Lemma within_arg_default name action k dflt :
  raises_within (action_error name) (lift (arg_default action k dflt)).
Proof.
  apply within_lift. intros e. unfold arg_default.
  destruct (FunctionCall.args action); [discriminate|]. by intros [= <-].
Qed.

Lemma within_getitem name d k :
  raises_within (action_error name) (lift (getitem d k)).
Proof.
  apply within_lift. intros e. unfold getitem.
  destruct (d !! k); [discriminate|]. by intros [= <-].
Qed.

Lemma within_as_int name v :
  raises_within (action_error name) (lift (as_int v)).
Proof.
  apply within_lift. intros e. destruct v; simpl; try discriminate;
    by intros [= <-].
Qed.

Lemma within_denormalize name x dim :
  raises_within (action_error name) (lift (denormalize x dim)).
Proof.
  apply within_lift. intros e. unfold denormalize.
  destruct (Float64.to_int _); [discriminate|]. by intros [= <-].
Qed.

Lemma within_denormalize_x name x :
  raises_within (action_error name) (denormalize_x x).
Proof.
  apply within_bind; [apply within_as_int|]. intros a. apply within_denormalize.
Qed.

Lemma within_denormalize_y name y :
  raises_within (action_error name) (denormalize_y y).
Proof.
  apply within_bind; [apply within_as_int|]. intros a. apply within_denormalize.
Qed.

Lemma within_multiply_numbers name x y :
  raises_within (action_error name) (lift (multiply_numbers x y)).
Proof.
  apply within_lift. intros e. unfold multiply_numbers.
  destruct (as_int x), (as_int y); try discriminate; by intros [= <-].
Qed.

Lemma within_perform_secure_login name site :
  raises_within (action_error name) (lift (perform_secure_login environ site)).
Proof.
  apply within_lift. intros e. unfold perform_secure_login.
  destruct site; try (by intros [= <-]).
  cbv zeta. destruct (both_set _ _); discriminate.
Qed.

Ltac within :=
  repeat first
    [ apply within_ret | apply within_get | apply within_modify
    | apply within_browser | apply within_arg | apply within_arg_default
    | apply within_getitem | apply within_denormalize_x
    | apply within_denormalize_y | apply within_multiply_numbers
    | apply within_perform_secure_login
    | apply within_bind; [|intros ?]
    | match goal with
      | |- raises_within _ (let _ := _ in _) => cbv zeta
      | |- raises_within _ (match ?x with _ => _ end) =>
          lazymatch x with
          | String.eqb _ _ => fail
          | direction_in _ _ => fail
          | _ => destruct x
          end
      | |- raises_within _ (raise AttributeError) => by apply within_raise
      end ].

Lemma not_handled name :
  name ∉ HANDLED_FUNCTIONS ↔
  Forall (fun known => String.eqb name known = false) HANDLED_FUNCTIONS.
Proof.
  rewrite Forall_forall. split.
  - intros H known Hin. apply String.eqb_neq. by intros ->.
  - intros H Hin. specialize (H _ Hin). by rewrite String.eqb_refl in H.
Qed.

Lemma handle_action_not_handled action s :
  FunctionCall.name action ∉ HANDLED_FUNCTIONS →
  handle_action action s = (inl (ValueError "Unsupported function"), s).
Proof.
  intros H. apply not_handled in H. unfold HANDLED_FUNCTIONS in H.
  cbn [PREDEFINED_COMPUTER_USE_FUNCTIONS app] in H.
  repeat (apply Forall_cons_1 in H; destruct H as [? H]).
  unfold handle_action. cbv zeta.
  repeat match goal with E : String.eqb _ _ = false |- _ => rewrite E; clear E end.
  reflexivity.
Qed.

Lemma handle_action_raises action :
  raises_within (action_error (FunctionCall.name action)) (handle_action action).
Proof.
  unfold handle_action. cbv zeta.
  repeat match goal with
         | |- raises_within _ (if String.eqb ?n ?k then _ else _) =>
             destruct (String.eqb n k) eqn:?; [within|]
         end.
  - destruct (direction_in _ _); [apply within_denormalize_y|].
    destruct (direction_in _ _); [apply within_denormalize_x|].
    apply within_raise. left.
    split; [done|]. by apply String.eqb_eq.
  - apply within_raise. right. split; [done|].
    apply not_handled. unfold HANDLED_FUNCTIONS.
    cbn [PREDEFINED_COMPUTER_USE_FUNCTIONS app].
    repeat (apply Forall_cons_2; [assumption|]). apply Forall_nil_2.
Qed.


(** *** scroll_at and key_combination *)

Lemma direction_in_elem_of direction l :
  direction_in direction l = true ↔ direction ∈ VStr <$> l.
Proof.
  unfold direction_in. induction l as [|k l IH]; simpl.
  - split; [discriminate|]. by intros ?%elem_of_nil.
  - rewrite orb_true_iff, elem_of_cons, IH, eq_str_true. done.
Qed.

Lemma handle_action_scroll_at action :
  FunctionCall.name action = "scroll_at" →
  handle_action action
  = (x ← lift (arg action "x"); x ← denormalize_x x;
     y ← lift (arg action "y"); y ← denormalize_y y;
     magnitude ← lift (arg_default action "magnitude" (VInt 800));
     direction ← lift (arg action "direction");
     magnitude ←
       (if direction_in direction ["up"; "down"] then denormalize_y magnitude
        else if direction_in direction ["left"; "right"] then denormalize_x magnitude
        else raise (ValueError "Unknown direction: "));
     browser (scroll_at x y direction magnitude)).
Proof. unfold handle_action. by intros ->. Qed.

(** X8. [scroll_at] scales its magnitude (800 when the request gives
    none) by the screen height for "up" and "down" and by the screen width
    for "left" and "right", and passes the direction on unchanged; with
    any other direction it raises ValueError before the backend is called,
    although both coordinates have been converted by then. *)
Theorem scroll_at_magnitude (action : FunctionCall.t) (args : gmap string pyval)
    (x y direction : pyval) (xi yi px py : Z) (s : agent) :
  FunctionCall.name action = "scroll_at" →
  FunctionCall.args action = Some args →
  args !! "x" = Some x → as_int x = inr xi → denormalize xi screen_size.1 = inr px →
  args !! "y" = Some y → as_int y = inr yi → denormalize yi screen_size.2 = inr py →
  args !! "direction" = Some direction →
  let magnitude := default (VInt 800) (args !! "magnitude") in
  (direction ∈ [VStr "up"; VStr "down"] →
   ∀ m pm, as_int magnitude = inr m → denormalize m screen_size.2 = inr pm →
           handle_action action s = browser (scroll_at px py direction pm) s)
  ∧ (direction ∈ [VStr "left"; VStr "right"] →
     ∀ m pm, as_int magnitude = inr m → denormalize m screen_size.1 = inr pm →
             handle_action action s = browser (scroll_at px py direction pm) s)
  ∧ (direction ∉ [VStr "up"; VStr "down"; VStr "left"; VStr "right"] →
     handle_action action s = (inl (ValueError "Unknown direction: "), s)).
Proof.
  intros Hname Hargs Hx Hxi Hpx Hy Hyi Hpy Hdir magnitude.
  rewrite (handle_action_scroll_at _ Hname).
  unfold_monad. unfold arg, arg_default, getitem, get_default.
  rewrite Hargs, Hx. unfold denormalize_x, denormalize_y. unfold_monad.
  rewrite Hxi, Hpx, Hy, Hyi, Hpy, Hdir. fold magnitude.
  split; [|split].
  - intros Hin m pm Hm Hpm.
    rewrite (proj2 (direction_in_elem_of direction ["up"; "down"]) Hin).
    by rewrite Hm, Hpm.
  - intros Hin m pm Hm Hpm.
    destruct (direction_in direction ["up"; "down"]) eqn:Eup.
    { apply direction_in_elem_of in Eup.
      exfalso. clear -Hin Eup. simpl in Eup.
      rewrite !elem_of_cons, elem_of_nil in Hin, Eup.
      destruct Hin as [->|[->|[]]]; destruct Eup as [?|[?|[]]]; discriminate. }
    rewrite (proj2 (direction_in_elem_of direction ["left"; "right"]) Hin).
    by rewrite Hm, Hpm.
  - intros Hout.
    destruct (direction_in direction ["up"; "down"]) eqn:Eup.
    { apply direction_in_elem_of in Eup. exfalso. apply Hout.
      clear -Eup. simpl in Eup. rewrite !elem_of_cons, elem_of_nil in Eup.
      rewrite !elem_of_cons. tauto. }
    destruct (direction_in direction ["left"; "right"]) eqn:Elr; [|done].
    apply direction_in_elem_of in Elr. exfalso. apply Hout.
    clear -Elr. simpl in Elr. rewrite !elem_of_cons, elem_of_nil in Elr.
    rewrite !elem_of_cons. tauto.
Qed.

Lemma split_nonempty sep s : Str.split sep s ≠ [].
Proof.
  destruct s as [|c s]; simpl; [done|].
  destruct (Ascii.eqb c sep); [done|]. by destruct (Str.split sep s).
Qed.

Lemma join_split sep s :
  Str.join (String sep EmptyString) (Str.split sep s) = s.
Proof.
  unfold Str.join. induction s as [|c s IH]; [done|].
  simpl. destruct (Ascii.eqb c sep) eqn:E.
  - apply Ascii.eqb_eq in E. subst c.
    pose proof (split_nonempty sep s) as Hne.
    destruct (Str.split sep s) as [|h t]; [done|].
    change (String.concat (String sep EmptyString) (EmptyString :: h :: t))
      with (String sep (String.concat (String sep EmptyString) (h :: t))).
    by rewrite IH.
  - destruct (Str.split sep s) as [|h [|h' t]].
    + simpl in IH. by subst s.
    + simpl in *. by subst s.
    + change (String.concat (String sep EmptyString) (String c h :: h' :: t))
        with (String c (String.concat (String sep EmptyString) (h :: h' :: t))).
      by rewrite IH.
Qed.

Lemma split_no_separator sep s :
  Forall (fun key => sep ∉ list_ascii_of_string key) (Str.split sep s).
Proof.
  induction s as [|c s IH]; simpl.
  - apply Forall_cons_2; [|apply Forall_nil_2]. simpl. by intros ?%elem_of_nil.
  - destruct (Ascii.eqb c sep) eqn:E.
    + apply Forall_cons_2; [|done]. simpl. by intros ?%elem_of_nil.
    + apply Ascii.eqb_neq in E.
      destruct (Str.split sep s) as [|h t].
      * apply Forall_cons_2; [|apply Forall_nil_2]. simpl.
        rewrite elem_of_cons. intros [->|?%elem_of_nil]; done.
      * apply Forall_cons_1 in IH. destruct IH as [Hh Ht].
        apply Forall_cons_2; [|done]. simpl.
        rewrite elem_of_cons. intros [->|?]; done.
Qed.

(** X9. [key_combination] hands the backend the keys of the request in
    order: the list it passes is never empty, none of its keys contains a
    plus sign, and joined with plus signs it spells the [keys] argument
    again. *)
Theorem key_combination_keys (action : FunctionCall.t) (args : gmap string pyval)
    (keys : string) (s : agent) :
  FunctionCall.name action = "key_combination" →
  FunctionCall.args action = Some args →
  args !! "keys" = Some (VStr keys) →
  ∃ pressed,
    handle_action action s = browser (key_combination pressed) s
    ∧ pressed ≠ []
    ∧ Forall (fun key => "+"%char ∉ list_ascii_of_string key) pressed
    ∧ Str.join "+" pressed = keys.
Proof.
  intros Hname Hargs Hkeys. exists (Str.split "+" keys).
  split; [|split; [apply split_nonempty|split;
                   [apply split_no_separator|apply join_split]]].
  unfold handle_action. rewrite Hname. cbv zeta.
  unfold_monad. unfold arg, getitem. by rewrite Hargs, Hkeys.
Qed.

(** ** Frames of the dispatch loop *)

Ltac frame :=
  repeat first
    [ apply keeps_ret | apply keeps_raise | apply keeps_lift | apply keeps_get
    | apply keeps_bind; [|intros ?]
    | match goal with
      | |- keeps _ (if ?b then _ else _) => destruct b
      | |- keeps _ (match ?x with _ => _ end) => destruct x
      | |- keeps _ (let _ := _ in _) => cbv zeta
      end ].

Section InputFrame.

(** Frame lemmas for an aspect [proj] of the agent that neither the trace
    nor the pending input enters. *)
Context {X : Type} (proj : agent → X).
Hypothesis proj_log : ∀ e s, proj (log e s) = proj s.
Hypothesis proj_stdin : ∀ l s, proj (set_stdin l s) = proj s.

Lemma read_decision_keeps lines : keeps proj (read_decision lines).
Proof.
  induction lines as [|line rest IH]; [apply keeps_raise|].
  simpl. apply keeps_bind.
  - intros s. unfold modify. simpl. by rewrite proj_log, proj_stdin.
  - intros _. destruct (Str.mem _ _); [apply keeps_ret|apply IH].
Qed.

Lemma safety_confirmation_keeps safety :
  keeps proj (_get_safety_confirmation safety).
Proof.
  unfold _get_safety_confirmation.
  apply keeps_bind; [apply keeps_lift|]. intros d.
  destruct (negb _); [apply keeps_raise|].
  apply keeps_bind; [apply keeps_get|]. intros s.
  destruct (_trust_mode s); [frame|].
  apply keeps_bind; [apply keeps_lift|]. intros _.
  apply keeps_bind; [apply read_decision_keeps|]. intros decision. frame.
Qed.

Lemma safety_step_keeps function_call : keeps proj (safety_step function_call).
Proof.
  unfold safety_step.
  destruct (FunctionCall.args function_call) as [args|]; [|apply keeps_ret].
  destruct (negb _); [|apply keeps_ret].
  destruct (args !! "safety_decision") as [safety|]; [|apply keeps_ret].
  destruct (truthy safety); [|apply keeps_ret].
  apply keeps_bind; [apply safety_confirmation_keeps|]. intros d. frame.
Qed.

Lemma ask_for_help_keeps question : keeps proj (ask_for_help question).
Proof.
  unfold ask_for_help. apply keeps_bind; [apply keeps_get|]. intros s.
  destruct (stdin s) as [|line rest]; [apply keeps_raise|].
  apply keeps_bind; [|intros _; apply keeps_ret].
  intros s'. unfold modify. simpl. by rewrite proj_log, proj_stdin.
Qed.

End InputFrame.

Section LoopFrame.

(** An aspect [proj] that the trace, the vault, the conversation, the
    final reasoning and the count of model calls do not enter is kept by
    a whole iteration, provided the safety step keeps it wherever it is
    [good]. *)
Context {X : Type} (proj : agent → X) (good : X → Prop).
Hypothesis proj_log : ∀ e s, proj (log e s) = proj s.
Hypothesis proj_vault : ∀ c s, proj (set_temp_credentials c s) = proj s.
Hypothesis proj_model_calls : ∀ n s, proj (set_model_calls n s) = proj s.
Hypothesis proj_contents : ∀ c s, proj (set_contents c s) = proj s.
Hypothesis proj_final_reasoning : ∀ r s, proj (set_final_reasoning r s) = proj s.
Hypothesis safety_step_good :
  ∀ function_call s, good (proj s) → proj (safety_step function_call s).2 = proj s.

Lemma dispatch_loop_keeps function_calls function_responses s :
  good (proj s) →
  proj (dispatch_loop function_calls function_responses s).2 = proj s.
Proof.
  revert function_responses s.
  induction function_calls as [|fc fcs IH]; intros frs s Hgood; [done|].
  simpl. unfold mbind, M_bind.
  pose proof (safety_step_good fc s Hgood) as Hsafety.
  destruct (safety_step fc s) as [[e|[extra|]] s1]; simpl in Hsafety; try done.
  pose proof (handle_action_keeps proj proj_log fc proj_vault s1) as Hact.
  destruct (handle_action fc s1) as [[e|fc_result] s2]; simpl in Hact.
  - simpl. congruence.
  - rewrite IH; [congruence|]. by rewrite Hact, Hsafety.
Qed.

Lemma call_model_keeps : keeps proj call_model.
Proof. intros s. unfold call_model. simpl. by rewrite proj_log, proj_model_calls. Qed.

Lemma sleep_keeps delay : keeps proj (sleep delay).
Proof.
  unfold sleep. destruct (delay <? 0); [apply keeps_raise|].
  intros s. apply proj_log.
Qed.

Lemma retry_loop_keeps max_retries base attempt remaining :
  keeps proj (retry_loop max_retries base attempt remaining).
Proof.
  revert attempt. induction remaining as [|remaining IH]; intros attempt;
    [apply keeps_ret|].
  simpl. intros s. unfold try_except, mbind, M_bind.
  pose proof (call_model_keeps s) as Hcall.
  destruct (call_model s) as [[e|response] s1]; simpl in *; [|done].
  destruct (attempt <? max_retries - 1); [|done].
  pose proof (sleep_keeps (base * 2 ^ attempt) s1) as Hsleep.
  destruct (sleep (base * 2 ^ attempt) s1) as [[e'|[]] s2]; simpl in *;
    [congruence|].
  rewrite IH. congruence.
Qed.

Lemma run_one_iteration_keeps s :
  good (proj s) → proj (run_one_iteration s).2 = proj s.
Proof.
  intros Hgood. unfold run_one_iteration.
  unfold mbind at 1. unfold M_bind at 1. unfold try_except.
  unfold mbind at 1. unfold M_bind at 1.
  pose proof (retry_loop_keeps DEFAULT_MAX_RETRIES DEFAULT_BASE_DELAY_S 0
                (Z.to_nat DEFAULT_MAX_RETRIES) s) as Hmodel.
  fold (get_model_response DEFAULT_MAX_RETRIES DEFAULT_BASE_DELAY_S) in Hmodel.
  destruct (get_model_response DEFAULT_MAX_RETRIES DEFAULT_BASE_DELAY_S s)
    as [[e|[response|]] s1]; simpl in Hmodel; try done.
  unfold mret at 1. unfold M_ret at 1.
  destruct (GenerateContentResponse.candidates response) as [[|candidate others]|];
    try done.
  unfold mbind at 1. unfold M_bind at 1.
  set (s2 := match Candidate.content candidate with
             | Some content => set_contents (_contents s1 ++ [content]) s1
             | None => s1
             end).
  assert (proj s2 = proj s) as H2.
  { subst s2. destruct (Candidate.content candidate); [|done].
    by rewrite proj_contents. }
  replace ((match Candidate.content candidate with
            | Some content => append_content content
            | None => mret tt
            end) s1) with (inr tt : exn + unit, s2)
    by (subst s2; by destruct (Candidate.content candidate)).
  destruct (extract_function_calls candidate) as [|fc fcs] eqn:Ecalls.
  - destruct (get_text candidate), (Candidate.finish_reason candidate);
      simpl; by rewrite ?proj_final_reasoning.
  - assert (proj (dispatch_loop (fc :: fcs) [] s2).2 = proj s) as Hloop.
    { rewrite dispatch_loop_keeps; [done|]. by rewrite H2. }
    assert (∀ r : option string,
              match r with
              | Some _ | None =>
                  proj ((function_responses ← dispatch_loop (fc :: fcs) [];
                         match function_responses with
                         | None => mret COMPLETE
                         | Some function_responses =>
                             append_content (user_turn function_responses);;
                             modify (fun s => set_contents
                                                (prune_screenshots (_contents s)) s);;
                             mret CONTINUE
                         end) s2).2 = proj s
              end) as Hall.
    { intros r. unfold mbind, M_bind.
      destruct (dispatch_loop (fc :: fcs) [] s2) as [[e|[frs|]] s3];
        simpl in Hloop; destruct r; try done;
        unfold append_content, modify; simpl; by rewrite !proj_contents. }
    destruct (get_text candidate) as [text|].
    + destruct (Candidate.finish_reason candidate); exact (Hall (Some text)).
    + destruct (Candidate.finish_reason candidate); exact (Hall None).
Qed.

Lemma agent_loop_keeps fuel s :
  good (proj s) → proj (agent_loop fuel s).2 = proj s.
Proof.
  revert s. induction fuel as [|fuel IH]; intros s Hgood; [done|].
  simpl. unfold mbind, M_bind.
  pose proof (run_one_iteration_keeps s Hgood) as Hrun.
  destruct (run_one_iteration s) as [[e|[|]] s1]; simpl in Hrun; try done.
  rewrite IH; [done|]. by rewrite Hrun.
Qed.

End LoopFrame.

Lemma safety_confirmation_trusted safety s :
  _trust_mode s = true → (_get_safety_confirmation safety s).2 = s.
Proof.
  intros Ht. unfold _get_safety_confirmation. unfold_monad.
  destruct (subscript safety "decision") as [e|d]; [done|].
  destruct (negb _); [done|]. rewrite Ht.
  by destruct (subscript safety "explanation").
Qed.

Lemma safety_step_trusted function_call s :
  _trust_mode s = true → (safety_step function_call s).2 = s.
Proof.
  intros Ht. unfold safety_step.
  destruct (FunctionCall.args function_call) as [args|]; [|done].
  destruct (negb _); [|done].
  destruct (args !! "safety_decision") as [safety|]; [|done].
  destruct (truthy safety); [|done].
  unfold mbind, M_bind.
  pose proof (safety_confirmation_trusted safety s Ht) as H.
  destruct (_get_safety_confirmation safety s) as [[e|[|]] s1]; simpl in H;
    by subst s1.
Qed.

(** X10. In trust mode the agent never reads standard input: after one
    iteration, and after the agent loop run for any number of iterations,
    the pending input is what it was and trust mode is still on, whatever
    the model answers, the requests carry and the backend returns. *)
Theorem trust_mode_never_reads_input (s : agent) (fuel : nat) :
  _trust_mode s = true →
  (stdin (run_one_iteration s).2 = stdin s
   ∧ _trust_mode (run_one_iteration s).2 = true)
  ∧ (stdin (agent_loop fuel s).2 = stdin s
     ∧ _trust_mode (agent_loop fuel s).2 = true).
Proof.
  intros Ht.
  pose (proj := fun s : agent => (_trust_mode s, stdin s)).
  assert (∀ function_call s0,
            (proj s0).1 = true → proj (safety_step function_call s0).2 = proj s0)
    as Hsafety.
  { intros fc s0 H0. by rewrite safety_step_trusted. }
  pose proof (run_one_iteration_keeps proj (fun x => x.1 = true)
                ltac:(done) ltac:(done) ltac:(done) ltac:(done) ltac:(done)
                Hsafety s Ht) as Hrun.
  pose proof (agent_loop_keeps proj (fun x => x.1 = true)
                ltac:(done) ltac:(done) ltac:(done) ltac:(done) ltac:(done)
                Hsafety fuel s Ht) as Hloop.
  unfold proj in Hrun, Hloop.
  injection Hrun as Hrun1 Hrun2. injection Hloop as Hloop1 Hloop2.
  rewrite Ht in Hrun1, Hloop1. done.
Qed.

(** ** The safety gate and the retry wrapper at their edges *)

Lemma read_decision_exhausted lines s :
  Forall (fun l => Str.lower l ∉ ACCEPTED) lines →
  stdin s = lines →
  read_decision lines s = (inl EOFError, after_input lines [] s).
Proof.
  intros Hrej. revert s. induction Hrej as [|l lines Hl Hrej IH]; intros s Hin.
  - simpl. unfold raise, after_input. rewrite app_nil_r, <- Hin. by destruct s.
  - simpl. unfold_monad. simpl.
    apply mem_not_elem_of in Hl. rewrite Hl.
    rewrite IH by done. unfold after_input, log, set_stdin. simpl.
    by rewrite <- app_assoc.
Qed.

(** X11. The safety gate at its edges.  A decision other than
    "require_confirmation" raises ValueError before anything is printed or
    read, in trust mode too.  With trust mode off, standard input that
    ends before an accepted answer raises EOFError after every line has
    been read: no answer is assumed.  And a [safety_decision] argument
    that is falsy (None, an empty dict, an empty string) is treated as
    absent: the request goes on to dispatch with no confirmation and no
    acknowledgement. *)
Theorem safety_gate_edges (safety : pyval) (s : agent) :
  (∀ d, subscript safety "decision" = inr d →
        d ≠ VStr "require_confirmation" →
        _get_safety_confirmation safety s
        = (inl (ValueError "Unknown safety decision: safety['decision']"), s))
  ∧ (∀ explanation,
       subscript safety "decision" = inr (VStr "require_confirmation") →
       subscript safety "explanation" = inr explanation →
       _trust_mode s = false →
       Forall (fun l => Str.lower l ∉ ["y"; "n"; "ye"; "yes"; "no"]) (stdin s) →
       _get_safety_confirmation safety s
       = (inl EOFError, after_input (stdin s) [] s))
  ∧ (∀ function_call args,
       FunctionCall.args function_call = Some args →
       args !! "safety_decision" = Some safety →
       truthy safety = false →
       safety_step function_call s = (inr (Some ∅), s)).
Proof.
  split; [|split].
  - intros d Hd Hne. unfold _get_safety_confirmation. unfold_monad. rewrite Hd.
    destruct (eq_str d "require_confirmation") eqn:E; [|done].
    by apply eq_str_true in E.
  - intros explanation Hd He Ht Hrej.
    unfold _get_safety_confirmation. unfold_monad.
    rewrite Hd. simpl. rewrite Ht, He.
    by rewrite read_decision_exhausted.
  - intros function_call args Hargs Hsafety Hfalsy.
    unfold safety_step. rewrite Hargs, Hsafety, Hfalsy.
    by destruct (negb _).
Qed.

(** X12. [get_model_response] outside its usual parameters.  With
    [max_retries <= 0] it makes no attempt and returns [None].  With a
    single attempt allowed, a failure is raised at once, with no sleep.
    With a negative base delay and more than one attempt allowed, the
    first failure is followed by a sleep that raises ValueError, and that
    error, not the service's, is what the caller gets, after one
    attempt. *)
Theorem get_model_response_edges (max_retries base_delay_s : Z) (s : agent) :
  (max_retries ≤ 0 →
   get_model_response max_retries base_delay_s s = (inr None, s))
  ∧ (∀ e, max_retries = 1 →
          generate_content (model_calls s) = inl e →
          get_model_response max_retries base_delay_s s
          = (inl e, after_calls 1 [EvGenerate (_contents s)] s))
  ∧ (∀ e, 1 < max_retries → base_delay_s < 0 →
          generate_content (model_calls s) = inl e →
          get_model_response max_retries base_delay_s s
          = (inl (ValueError "sleep length must be non-negative"),
             after_calls 1 [EvGenerate (_contents s)] s)).
Proof.
  unfold get_model_response. split; [|split].
  - intros H. by replace (Z.to_nat max_retries) with 0%nat by lia.
  - intros e -> He. simpl. unfold_monad. by rewrite call_model_step, He.
  - intros e Hmax Hbase He.
    destruct (Z.to_nat max_retries) as [|remaining] eqn:E; [lia|].
    simpl. unfold_monad. rewrite call_model_step, He.
    rewrite (proj2 (Z.ltb_lt _ _)) by lia.
    unfold sleep. rewrite (proj2 (Z.ltb_lt _ _)) by lia. done.
Qed.

(** ** The user turn of an iteration *)

Lemma dispatch_loop_responses function_calls :
  ∀ function_responses s out s',
    dispatch_loop function_calls function_responses s = (inr (Some out), s') →
    ∃ new,
      out = function_responses ++ new
      ∧ Forall2 (fun call fr => FunctionResponse.name fr = FunctionCall.name call)
          function_calls new.
Proof.
  induction function_calls as [|fc fcs IH]; intros frs s out s'.
  - simpl. unfold mret, M_ret. intros [= <- <-]. exists [].
    split; [by rewrite app_nil_r|constructor].
  - simpl. unfold mbind, M_bind.
    destruct (safety_step fc s) as [[e|[extra|]] s1]; try discriminate.
    destruct (handle_action fc s1) as [[e|fc_result] s2]; try discriminate.
    intros H. apply IH in H as (new & -> & Hnew).
    exists (function_response_of fc extra fc_result :: new).
    split; [by rewrite <- app_assoc|].
    constructor; [by destruct fc_result|done].
Qed.

Lemma dispatch_loop_contents function_calls function_responses s :
  _contents (dispatch_loop function_calls function_responses s).2 = _contents s.
Proof.
  apply (dispatch_loop_keeps _contents (fun _ => True)); try done.
  intros fc s0 _. by apply safety_step_keeps.
Qed.

Lemma prune_screenshots_bound contents :
  (screenshot_turns (prune_screenshots contents)
   ≤ MAX_RECENT_TURN_WITH_SCREENSHOTS)%nat.
Proof.
  unfold prune_screenshots.
  rewrite screenshot_turns_rev, prune_reversed_count. lia.
Qed.

(** X13. An iteration whose model turn carries action requests ends in
    one of two ways.  If it returns CONTINUE, the conversation has gained
    the model's turn and one user turn with exactly one function response
    per request, in the order of the requests and under their names, and
    has then been pruned, so that at most three screenshot turns remain.
    If it returns COMPLETE or raises, the conversation has gained the
    model's turn and nothing else: the results of the requests already
    dispatched are not recorded. *)
Theorem run_one_iteration_with_calls (s : agent)
    (response : GenerateContentResponse.t) (candidate : Candidate.t)
    (others : list Candidate.t) (content : Content.t) (fc : FunctionCall.t)
    (fcs : list FunctionCall.t) :
  generate_content (model_calls s) = inr response →
  GenerateContentResponse.candidates response = Some (candidate :: others) →
  Candidate.content candidate = Some content →
  extract_function_calls candidate = fc :: fcs →
  match run_one_iteration s with
  | (inr CONTINUE, s') =>
      ∃ function_responses,
        Forall2 (fun call fr => FunctionResponse.name fr = FunctionCall.name call)
          (fc :: fcs) function_responses
        ∧ _contents s'
          = prune_screenshots
              (_contents s ++ [content; user_turn function_responses])
        ∧ (screenshot_turns (_contents s') ≤ MAX_RECENT_TURN_WITH_SCREENSHOTS)%nat
  | (_, s') => _contents s' = _contents s ++ [content]
  end.
Proof.
  intros Hok Hcand Hcontent Hfcs.
  rewrite (run_one_iteration_dispatch _ _ _ _ _ _ _ Hok Hcand Hcontent Hfcs).
  unfold mbind, M_bind.
  pose proof (dispatch_loop_contents (fc :: fcs) [] (model_turn content s)) as Hc.
  destruct (dispatch_loop (fc :: fcs) [] (model_turn content s))
    as [[e|[frs|]] s1] eqn:E; simpl in Hc; try done.
  apply dispatch_loop_responses in E as (new & -> & Hnew).
  unfold append_content, modify, mret, M_ret. simpl.
  exists new. split; [done|]. rewrite Hc, <- app_assoc. simpl.
  split; [done|apply prune_screenshots_bound].
Qed.

(** ** The conversation only grows *)

Lemma grown_from_refl n l : grown_from n l l.
Proof. split; [lia|]. intros i c Hi. by left. Qed.

Lemma grown_from_mono n m old new :
  (n ≤ m)%nat → grown_from n old new → grown_from m old new.
Proof. intros Hnm [Hlen Hat]. split; [lia|done]. Qed.

Lemma grown_from_snoc n old new content :
  grown_from n old new → grown_from (S n) old (new ++ [content]).
Proof.
  intros [Hlen Hat]. split; [rewrite length_app; simpl; lia|].
  intros i c Hi.
  destruct (Hat i c Hi) as [H|H]; [left|right];
    by rewrite lookup_app_l by (by apply lookup_lt_Some in H).
Qed.

Lemma grown_from_prune n old new :
  grown_from n old new → grown_from n old (prune_screenshots new).
Proof.
  intros [Hlen Hat]. split; [by rewrite prune_screenshots_length|].
  intros i c Hi.
  destruct (Hat i c Hi) as [H|H];
    rewrite (prune_screenshots_lookup _ _ _ H).
  - destruct (_ && _); [by right|by left].
  - rewrite strip_content_clean. by right.
Qed.

Lemma strip_content_idem content :
  strip_content (strip_content content) = strip_content content.
Proof.
  unfold strip_content. destruct (Content.parts content) as [parts|]; simpl; [|done].
  f_equal. f_equal. rewrite <- list_fmap_compose. apply list_fmap_ext.
  intros i part _. simpl. apply strip_part_other, strip_part_clean.
Qed.

Lemma grown_from_trans n m l1 l2 l3 :
  grown_from n l1 l2 → grown_from m l2 l3 → grown_from (n + m) l1 l3.
Proof.
  intros [Hlen1 Hat1] [Hlen2 Hat2]. split; [lia|].
  intros i c Hi.
  destruct (Hat1 i c Hi) as [H|H]; destruct (Hat2 _ _ H) as [H'|H']; auto.
  right. by rewrite H', strip_content_idem.
Qed.

Lemma run_one_iteration_grows s :
  grown_from 2 (_contents s) (_contents (run_one_iteration s).2).
Proof.
  unfold run_one_iteration.
  unfold mbind at 1. unfold M_bind at 1. unfold try_except.
  unfold mbind at 1. unfold M_bind at 1.
  pose proof (retry_loop_keeps _contents ltac:(done) ltac:(done)
                DEFAULT_MAX_RETRIES DEFAULT_BASE_DELAY_S 0
                (Z.to_nat DEFAULT_MAX_RETRIES) s) as Hmodel.
  fold (get_model_response DEFAULT_MAX_RETRIES DEFAULT_BASE_DELAY_S) in Hmodel.
  destruct (get_model_response DEFAULT_MAX_RETRIES DEFAULT_BASE_DELAY_S s)
    as [[e|[response|]] s1]; simpl in Hmodel;
    try (simpl; rewrite Hmodel; apply grown_from_refl).
  unfold mret at 1. unfold M_ret at 1.
  destruct (GenerateContentResponse.candidates response) as [[|candidate others]|];
    try (simpl; rewrite Hmodel; apply grown_from_refl).
  unfold mbind at 1. unfold M_bind at 1.
  set (s2 := match Candidate.content candidate with
             | Some content => set_contents (_contents s1 ++ [content]) s1
             | None => s1
             end).
  assert (grown_from 1 (_contents s) (_contents s2)) as H2.
  { subst s2. destruct (Candidate.content candidate); simpl; rewrite Hmodel.
    - apply grown_from_snoc, grown_from_refl.
    - apply grown_from_refl. }
  replace ((match Candidate.content candidate with
            | Some content => append_content content
            | None => mret tt
            end) s1) with (inr tt : exn + unit, s2)
    by (subst s2; by destruct (Candidate.content candidate)).
  assert (grown_from 2 (_contents s) (_contents s2)) as H2'
    by (apply (grown_from_mono 1); [lia|done]).
  destruct (extract_function_calls candidate) as [|fc fcs] eqn:Ecalls.
  - by destruct (get_text candidate), (Candidate.finish_reason candidate).
  - assert (∀ r : option string,
              match r with
              | Some _ | None =>
                  grown_from 2 (_contents s)
                    (_contents
                       ((function_responses ← dispatch_loop (fc :: fcs) [];
                         match function_responses with
                         | None => mret COMPLETE
                         | Some function_responses =>
                             append_content (user_turn function_responses);;
                             modify (fun s => set_contents
                                                (prune_screenshots (_contents s)) s);;
                             mret CONTINUE
                         end) s2).2)
              end) as Hall.
    { intros r. unfold mbind, M_bind.
      pose proof (dispatch_loop_contents (fc :: fcs) [] s2) as Hloop.
      destruct (dispatch_loop (fc :: fcs) [] s2) as [[e|[frs|]] s3];
        simpl in Hloop; destruct r; simpl; rewrite ?Hloop; try done;
        by apply grown_from_prune, grown_from_snoc. }
    destruct (get_text candidate) as [text|].
    + destruct (Candidate.finish_reason candidate); exact (Hall (Some text)).
    + destruct (Candidate.finish_reason candidate); exact (Hall None).
Qed.

(** X14. The conversation is append-only up to screenshot stripping.
    After one iteration, whatever its outcome, every turn that was in the
    conversation is still at its place, unchanged or with its screenshots
    stripped, and at most two turns have been added; after any number
    [fuel] of iterations of the loop the same holds with at most
    [2 * fuel] turns added. *)
Theorem conversation_only_grows (s : agent) (fuel : nat) :
  grown_from 2 (_contents s) (_contents (run_one_iteration s).2)
  ∧ grown_from (2 * fuel) (_contents s) (_contents (agent_loop fuel s).2).
Proof.
  split; [apply run_one_iteration_grows|].
  revert s. induction fuel as [|fuel IH]; intros s; [apply grown_from_refl|].
  simpl agent_loop. unfold mbind, M_bind.
  pose proof (run_one_iteration_grows s) as Hrun.
  destruct (run_one_iteration s) as [[e|[|]] s1]; simpl in Hrun;
    try (simpl; apply (grown_from_mono 2); [lia|done]).
  replace (2 * S fuel)%nat with (2 + 2 * fuel)%nat by lia.
  eapply grown_from_trans; [exact Hrun|apply IH].
Qed.

(** ** Pruning a short conversation *)

Lemma prune_reversed_within n l :
  (n + screenshot_turns l ≤ MAX_RECENT_TURN_WITH_SCREENSHOTS)%nat →
  prune_reversed n l = l.
Proof.
  unfold screenshot_turns. revert n.
  induction l as [|c l IH]; intros n; [done|].
  cbn -[Nat.ltb]. destruct (screenshot_turn c); cbn -[Nat.ltb]; intros H.
  - rewrite (proj2 (Nat.ltb_ge _ _)) by lia. rewrite IH; [done|lia].
  - by rewrite IH.
Qed.

(** X15. The pruning pass leaves a conversation with at most three
    screenshot turns exactly as it is, and in general leaves the smaller
    of three and the number of screenshot turns it found. *)
Theorem prune_screenshots_within_limit (contents : list Content.t) :
  ((screenshot_turns contents ≤ MAX_RECENT_TURN_WITH_SCREENSHOTS)%nat →
   prune_screenshots contents = contents)
  ∧ screenshot_turns (prune_screenshots contents)
    = (screenshot_turns contents `min` MAX_RECENT_TURN_WITH_SCREENSHOTS)%nat.
Proof.
  unfold prune_screenshots. split.
  - intros H. rewrite prune_reversed_within, rev_involutive; [done|].
    by rewrite screenshot_turns_rev.
  - rewrite screenshot_turns_rev, prune_reversed_count, screenshot_turns_rev.
    by rewrite Nat.sub_0_r.
Qed.

(** ** The text of a candidate *)

Lemma join_cons_nonempty sep h t : h ≠ "" → Str.join sep (h :: t) ≠ "".
Proof.
  intros Hh. unfold Str.join. destruct h as [|c h]; [done|].
  destruct t as [|h' t]; simpl; discriminate.
Qed.

Lemma get_text_joined candidate :
  get_text candidate
  = let joined :=
      Str.join " "
        (omap (fun part =>
                 match Part.text part with
                 | Some t => if String.eqb t "" then None else Some t
                 | None => None
                 end) (candidate_parts candidate)) in
    if String.eqb joined "" then None else Some joined.
Proof.
  unfold get_text, candidate_parts.
  destruct (Candidate.content candidate) as [content|]; [|done].
  by destruct (Content.parts content) as [[|part parts]|].
Qed.

(** X16. [get_text] returns [None] exactly when the candidate has no part
    with a non-empty text (no content, no parts, or only parts whose text
    is missing or empty), and it never returns the empty string. *)
Theorem get_text_none_iff (candidate : Candidate.t) :
  (get_text candidate = None
   ↔ Forall (fun part => Part.text part = None ∨ Part.text part = Some "")
       (candidate_parts candidate))
  ∧ get_text candidate ≠ Some "".
Proof.
  rewrite get_text_joined. cbv zeta.
  set (text_of := fun part : Part.t =>
                    match Part.text part with
                    | Some t => if String.eqb t "" then None else Some t
                    | None => None
                    end).
  generalize (candidate_parts candidate). intros l.
  assert (Forall (fun t => t ≠ "") (omap text_of l)) as Hne.
  { apply Forall_forall. intros t [p [_ Hp]]%list_elem_of_omap.
    unfold text_of in Hp. destruct (Part.text p) as [t'|]; [|done].
    destruct (String.eqb t' "") eqn:E; [done|].
    injection Hp as <-. by apply String.eqb_neq. }
  assert (omap text_of l = []
          ↔ Forall (fun part => Part.text part = None ∨ Part.text part = Some "") l)
    as Hempty.
  { clear Hne. induction l as [|p l IH].
    - split; [constructor|done].
    - rewrite Forall_cons, <- IH.
      change (omap text_of (p :: l))
        with (match text_of p with
              | Some y => y :: omap text_of l
              | None => omap text_of l
              end).
      unfold text_of at 1.
      destruct (Part.text p) as [t|].
      2: { split; [intros H; split; [by left|done]|by intros [_ H]]. }
      destruct (String.eqb t "") eqn:E.
      + apply String.eqb_eq in E. subst t.
        split; [intros H; split; [by right|done]|by intros [_ H]].
      + apply String.eqb_neq in E. split; [done|].
        intros [[?|[= ?]] _]; done. }
  rewrite <- Hempty.
  destruct (omap text_of l) as [|t ts].
  - done.
  - apply Forall_cons_1 in Hne. destruct Hne as [Ht _].
    pose proof (join_cons_nonempty " " t ts Ht) as Hjoin.
    destruct (String.eqb (Str.join " " (t :: ts)) "") eqn:E.
    + by apply String.eqb_eq in E.
    + split; [split; discriminate|]. intros [= H]. done.
Qed.

(** ** FormAgent *)

(** X17. [ask_for_help] is gated by [can_ask_for_help].  With the flag
    off, FormAgent passes the request on to BrowserAgent, which raises
    ValueError "Unsupported function" without reading any input.  With the
    flag on, the request reads exactly one line of standard input and
    returns it under [response], raises EOFError at the end of the input,
    and raises KeyError before reading anything when the [question]
    argument is missing. *)
Theorem ask_for_help_gate (action : FunctionCall.t) (args : gmap string pyval)
    (s : agent) :
  FunctionCall.name action = "ask_for_help" →
  FunctionCall.args action = Some args →
  FormAgent_handle_action false action s
  = (inl (ValueError "Unsupported function"), s)
  ∧ (args !! "question" = None →
     FormAgent_handle_action true action s = (inl (KeyError "question"), s))
  ∧ (is_Some (args !! "question") →
     match stdin s with
     | [] => FormAgent_handle_action true action s = (inl EOFError, s)
     | line :: rest =>
         FormAgent_handle_action true action s
         = (inr (FormValue (VDict {[ "response" := VStr line ]})),
            after_input [line] rest s)
     end).
Proof.
  intros Hname Hargs. unfold FormAgent_handle_action. rewrite Hname. cbv zeta.
  split; [|split].
  - simpl. unfold mbind, M_bind.
    rewrite handle_action_not_handled; [done|].
    rewrite Hname. clear. apply not_handled.
    repeat (apply Forall_cons_2; [reflexivity|]). apply Forall_nil_2.
  - intros Hq. simpl. unfold arg, getitem. unfold_monad. by rewrite Hargs, Hq.
  - intros [question Hq]. simpl. unfold arg, getitem, ask_for_help. unfold_monad.
    rewrite Hargs, Hq. by destruct (stdin s) as [|line rest].
Qed.

Lemma FormAgent_dispatch_loop_length can_ask_for_help function_calls :
  ∀ function_responses s out s',
    FormAgent_dispatch_loop can_ask_for_help function_calls function_responses s
    = (inr (Some out), s') →
    (length function_responses ≤ length out
     ≤ length function_responses + length function_calls)%nat.
Proof.
  induction function_calls as [|fc fcs IH]; intros frs s out s'.
  - simpl. unfold mret, M_ret. intros [= <- <-]. lia.
  - simpl. unfold mbind, M_bind.
    destruct (safety_step fc s) as [[e|[extra|]] s1]; try discriminate.
    destruct (FormAgent_handle_action can_ask_for_help fc s1)
      as [[e|fc_result] s2]; try discriminate.
    intros H. apply IH in H. rewrite length_app in H.
    destruct (FormAgent_response_of fc extra fc_result); simpl in H; lia.
Qed.

(** X18. A FormAgent can leave a function call without a function
    response.  The dispatch loop records a response for an [EnvState] and
    for a dict only, and [read_data_from_json] returns whatever document
    the file holds: a request that carries no [safety_decision] and reads
    a file whose document is not a JSON object returns normally, leaves
    the agent as it was, and adds nothing to the function responses.  In
    general the loop returns at most one response per call. *)
Theorem read_data_from_json_without_response (can_ask_for_help : bool)
    (function_call : FunctionCall.t) (args : gmap string pyval)
    (file_path document : pyval)
    (function_responses : list FunctionResponse.t) (s : agent) :
  FunctionCall.name function_call = "read_data_from_json" →
  FunctionCall.args function_call = Some args →
  args !! "safety_decision" = None →
  args !! "file_path" = Some file_path →
  json_file file_path = inr document →
  (∀ d, document ≠ VDict d) →
  FormAgent_handle_action can_ask_for_help function_call s
  = (inr (FormValue document), s)
  ∧ FormAgent_dispatch_loop can_ask_for_help [function_call] function_responses s
    = (inr (Some function_responses), s)
  ∧ ∀ function_calls out s',
      FormAgent_dispatch_loop can_ask_for_help function_calls [] s
      = (inr (Some out), s') →
      (length out ≤ length function_calls)%nat.
Proof.
  intros Hname Hargs Hsafety Hpath Hfile Hdocument.
  assert (FormAgent_handle_action can_ask_for_help function_call s
          = (inr (FormValue document), s)) as Hact.
  { unfold FormAgent_handle_action. rewrite Hname. cbv zeta.
    change (String.eqb "read_data_from_json" "read_data_from_json") with true.
    cbv iota. unfold read_data_from_json, arg, getitem. unfold_monad.
    by rewrite Hargs, Hpath, Hfile. }
  split; [exact Hact|]. split.
  - simpl. unfold mbind, M_bind.
    rewrite safety_step_unflagged.
    2: { intros args' Hargs'. rewrite Hargs in Hargs'. by injection Hargs' as <-. }
    rewrite Hact. unfold FormAgent_response_of.
    destruct document as [| | | | |d]; try (by rewrite app_nil_r).
    by destruct (Hdocument d).
  - intros function_calls out s' H.
    apply FormAgent_dispatch_loop_length in H. simpl in H. lia.
Qed.

End BrowserAgent.

(** ** The credential helpers *)

Lemma environ_get_mem environ k v :
  environ_get environ k = Some v → Str.mem k (env_vars environ) = true.
Proof.
  unfold environ_get, env_vars.
  destruct (List.find _ environ) as [pair|] eqn:E; [|done].
  intros _. apply find_some in E as [Hin Heq]. apply String.eqb_eq in Heq.
  apply mem_elem_of. subst k. apply list_elem_of_fmap. exists pair.
  split; [done|]. by apply list_elem_of_In.
Qed.

(** X19. The username variable is chosen by presence, not by content.
    When SITE_USERNAME is set, even to the empty string, it is the one
    that is read: with an empty SITE_USERNAME the login fails, whatever
    SITE_USER and SITE_PASSWORD hold, and the message names SITE_USERNAME.
    SITE_USER is read only when SITE_USERNAME is not set at all. *)
Theorem perform_secure_login_username_key (environ : list (string * string))
    (site : string) :
  (environ_get environ (Str.upper site +:+ "_USERNAME") = Some "" →
   perform_secure_login environ (VStr site)
   = inr {[ "success" := VBool false;
            "message" :=
              VStr ("No credentials found for " +:+ site
                    +:+ ". Expected environment variables: "
                    +:+ (Str.upper site +:+ "_USERNAME") +:+ " and "
                    +:+ (Str.upper site +:+ "_PASSWORD"));
            "username" := VNone;
            "password" := VNone ]})
  ∧ (∀ u p,
       Str.upper site +:+ "_USERNAME" ∉ env_vars environ →
       environ_get environ (Str.upper site +:+ "_USER") = Some u →
       environ_get environ (Str.upper site +:+ "_PASSWORD") = Some p →
       u ≠ "" → p ≠ "" →
       perform_secure_login environ (VStr site)
       = inr {[ "success" := VBool true;
                "message" := VStr (retrieved_message site);
                "username" := VStr u;
                "password" := VStr p ]}).
Proof.
  split.
  - intros H. unfold perform_secure_login, not_found_message, password_key_of.
    cbv zeta. unfold username_key_of. cbv zeta.
    rewrite (environ_get_mem _ _ _ H), H.
    by destruct (environ_get environ (Str.upper site +:+ "_PASSWORD")).
  - intros u p Hno Hu Hp Hune Hpne.
    unfold perform_secure_login, password_key_of. cbv zeta.
    unfold username_key_of. cbv zeta.
    rewrite (proj2 (mem_not_elem_of _ _) Hno), Hu, Hp. simpl.
    apply String.eqb_neq in Hune, Hpne. by rewrite Hune, Hpne.
Qed.

Lemma length_append a b :
  String.length (a +:+ b) = (String.length a + String.length b)%nat.
Proof. induction a as [|c a IH]; simpl; [done|by rewrite IH]. Qed.

Lemma substring_all b : substring 0 (String.length b) b = b.
Proof. induction b as [|c b IH]; simpl; [done|by rewrite IH]. Qed.

Lemma substring_append a b :
  substring (String.length a) (String.length b) (a +:+ b) = b.
Proof. induction a as [|c a IH]; simpl; [apply substring_all|done]. Qed.

Lemma endswith_append a b : Str.endswith (a +:+ b) b = true.
Proof.
  unfold Str.endswith. rewrite length_append.
  replace (String.length a + String.length b - String.length b)%nat
    with (String.length a) by lia.
  rewrite substring_append, String.eqb_refl.
  by rewrite (proj2 (Nat.leb_le _ _)) by lia.
Qed.

Lemma append_empty a : a +:+ "" = a.
Proof.
  induction a as [|c a IH]; [done|].
  change (String c a +:+ "") with (String c (a +:+ "")). by f_equal.
Qed.

(** Text without an underscore holds no occurrence of a pattern that
    starts with one. *)
Lemma replace_from_plain old new a tail :
  "_"%char ∉ list_ascii_of_string a →
  Str.replace_from (String "_" old) new 0 (a +:+ tail)
  = a +:+ Str.replace_from (String "_" old) new 0 tail.
Proof.
  induction a as [|c a IH]; [done|].
  simpl list_ascii_of_string. rewrite not_elem_of_cons. intros [Hc Ha].
  change (String c a +:+ tail) with (String c (a +:+ tail)).
  change (Str.replace_from (String "_" old) new 0 (String c (a +:+ tail)))
    with (if String.prefix (String "_" old) (String c (a +:+ tail))
          then new +:+ Str.replace_from (String "_" old) new
                         (String.length (String "_" old) - 1) (a +:+ tail)
          else String c (Str.replace_from (String "_" old) new 0 (a +:+ tail))).
  change (String.prefix (String "_" old) (String c (a +:+ tail)))
    with (match ascii_dec "_" c with
          | left _ => String.prefix old (a +:+ tail)
          | right _ => false
          end).
  destruct (ascii_dec "_" c) as [E|_]; [by subst c|].
  by rewrite IH.
Qed.

Lemma replace_from_unchanged old new a :
  "_"%char ∉ list_ascii_of_string a →
  Str.replace_from (String "_" old) new 0 a = a.
Proof.
  intros Hplain. rewrite <- (append_empty a) at 1.
  rewrite (replace_from_plain _ _ a "" Hplain). apply append_empty.
Qed.

Lemma site_of_username_var environ site :
  "_"%char ∉ list_ascii_of_string site →
  Str.mem (site +:+ "_PASSWORD") (env_vars environ) = true →
  site_of_var environ (site +:+ "_USERNAME") = Some (Str.lower site).
Proof.
  intros Hplain Hpassword. unfold site_of_var.
  rewrite endswith_append. cbv zeta. simpl orb. cbv iota.
  unfold Str.replace.
  rewrite (replace_from_plain _ _ site "_USERNAME" Hplain).
  change (Str.replace_from "_USERNAME" "" 0 "_USERNAME") with "".
  rewrite append_empty.
  rewrite !(replace_from_unchanged _ _ site Hplain). by rewrite Hpassword.
Qed.


Lemma site_of_user_var environ site :
  "_"%char ∉ list_ascii_of_string site →
  Str.mem (site +:+ "_PASSWORD") (env_vars environ) = true →
  site_of_var environ (site +:+ "_USER") = Some (Str.lower site).
Proof.
  intros Hplain Hpassword. unfold site_of_var.
  rewrite (endswith_append site "_USER"), orb_true_r. cbv zeta.
  unfold Str.replace.
  rewrite (replace_from_plain _ _ site "_USER" Hplain).
  change (Str.replace_from "_USERNAME" "" 0 "_USER") with "_USER".
  rewrite (replace_from_plain _ _ site "_USER" Hplain).
  change (Str.replace_from "_USER" "" 0 "_USER") with "".
  rewrite append_empty. by rewrite Hpassword.
Qed.

Lemma append_inv_l a b c : a +:+ b = a +:+ c → b = c.
Proof.
  induction a as [|x a IH]; [done|].
  change (String x a +:+ b) with (String x (a +:+ b)).
  change (String x a +:+ c) with (String x (a +:+ c)).
  intros [= H]. by apply IH.
Qed.

Lemma omap_two_places {A B} (f : A → option B) (l : list A) (a b : A) (y : B) :
  a ∈ l → b ∈ l → a ≠ b → f a = Some y → f b = Some y →
  ∃ l1 l2 l3, omap f l = l1 ++ y :: l2 ++ y :: l3.
Proof.
  intros Ha Hb Hab Hfa Hfb.
  assert (∀ a b, a ≠ b → f a = Some y → f b = Some y →
                 ∀ k1 k2, l = k1 ++ a :: k2 → b ∈ k2 →
                 ∃ l1 l2 l3, omap f l = l1 ++ y :: l2 ++ y :: l3) as Hafter.
  { clear. intros a b Hab Hfa Hfb k1 k2 -> Hb.
    apply list_elem_of_split in Hb as (m1 & m2 & ->).
    exists (omap f k1), (omap f m1), (omap f m2).
    rewrite omap_app. simpl. rewrite Hfa, omap_app. simpl. by rewrite Hfb. }
  apply list_elem_of_split in Ha as (k1 & k2 & Hl).
  assert (b ∈ k1 ∨ b ∈ k2) as [Hb1|Hb2].
  { rewrite Hl in Hb. apply elem_of_app in Hb as [?|Hb]; [by left|].
    apply elem_of_cons in Hb as [?|?]; [by subst b|by right]. }
  - apply list_elem_of_split in Hb1 as (m1 & m2 & Hk1).
    apply (Hafter b a ltac:(done) Hfb Hfa m1 (m2 ++ a :: k2)).
    + by rewrite Hl, Hk1, <- app_assoc.
    + apply elem_of_app. right. apply elem_of_cons. by left.
  - by apply (Hafter a b Hab Hfa Hfb k1 k2).
Qed.

(** X21. The listing can name a site twice.  When the environment holds
    SITE_USERNAME, SITE_USER and SITE_PASSWORD for a site name without
    underscore, both username variables contribute an entry, and the
    lower-cased site occurs at two places of [available_sites]. *)
Theorem site_listed_twice (environ : list (string * string)) (site : string) :
  "_"%char ∉ list_ascii_of_string site →
  site +:+ "_USERNAME" ∈ env_vars environ →
  site +:+ "_USER" ∈ env_vars environ →
  site +:+ "_PASSWORD" ∈ env_vars environ →
  ∃ before between after,
    available_sites environ
    = before ++ Str.lower site :: between ++ Str.lower site :: after.
Proof.
  intros Hplain Hname Huser Hpassword.
  apply mem_elem_of in Hpassword.
  apply (omap_two_places (site_of_var environ) (env_vars environ)
           (site +:+ "_USERNAME") (site +:+ "_USER")); try done.
  - intros H. by apply append_inv_l in H.
  - by apply site_of_username_var.
  - by apply site_of_user_var.
Qed.

(** ** Site authentication *)

Lemma table_get_None table k : table_get table k = None ↔ k ∉ table.*1.
Proof.
  unfold table_get. induction table as [|[k' v] table IH]; simpl.
  - split; [intros _ H; by apply elem_of_nil in H|done].
  - rewrite not_elem_of_cons. destruct (String.eqb k' k) eqn:E; simpl.
    + apply String.eqb_eq in E. subst k'. split; [done|by intros [? _]].
    + apply String.eqb_neq in E. rewrite IH.
      split; [by intros H; split; [intros ->|]|by intros [_ H]].
Qed.

Lemma table_get_Some table k v : table_get table k = Some v → (k, v) ∈ table.
Proof.
  unfold table_get. induction table as [|[k' v'] table IH]; simpl; [done|].
  destruct (String.eqb k' k) eqn:E; simpl.
  - apply String.eqb_eq in E. subst k'. intros [= ->]. apply elem_of_cons. by left.
  - intros H. apply elem_of_cons. right. by apply IH.
Qed.

(** X22. Which site [get_site_config] resolves.  No name means the
    configured [default_site]; an empty name (given, or from a missing
    default) raises ValueError; a name that is not among
    [list_available_sites] raises a ValueError whose message lists those
    sites, in file order and separated by commas; a listed name builds the
    [AuthConfig] of its own table entry. *)
Theorem get_site_config_cases (config_data : ConfigData.t) (site : string) :
  get_site_config config_data None
  = get_site_config config_data (Some (default "" (ConfigData.default_site config_data)))
  ∧ get_site_config config_data (Some "")
    = inl (ValueError "No site specified and no default_site configured")
  ∧ (site ≠ "" →
     (site ∉ list_available_sites config_data →
      get_site_config config_data (Some site)
      = inl (ValueError ("Site '" +:+ site +:+ "' not found in config. "
                         +:+ "Available sites: "
                         +:+ Str.join ", " (list_available_sites config_data))))
     ∧ (site ∈ list_available_sites config_data →
        ∃ config,
          (site, config) ∈ default [] (ConfigData.sites config_data)
          ∧ get_site_config config_data (Some site) = AuthConfig_init site config)).
Proof.
  split; [done|]. split; [done|].
  intros Hsite. apply String.eqb_neq in Hsite.
  unfold get_site_config, list_available_sites. cbv zeta. rewrite Hsite.
  split.
  - intros Hout. apply table_get_None in Hout. by rewrite Hout.
  - intros Hin.
    destruct (table_get (sites config_data) site) as [config|] eqn:E.
    + exists config. split; [by apply table_get_Some|done].
    + by apply table_get_None in E.
Qed.

(** X23. What an [AuthConfig] requires of a site table.  The keys
    [login_url], [username_env] and [password_env] are required, and the
    first one missing, in that order, is the KeyError raised.  With the
    three present and no [selectors] table, the display name defaults to
    the site key, [success_url] and the four selectors to the empty
    string, and the timeout to 30. *)
Theorem AuthConfig_init_required (site : string) (d : gmap string pyval) :
  (d !! "login_url" = None →
   AuthConfig_init site (VDict d) = inl (KeyError "login_url"))
  ∧ (is_Some (d !! "login_url") → d !! "username_env" = None →
     AuthConfig_init site (VDict d) = inl (KeyError "username_env"))
  ∧ (is_Some (d !! "login_url") → is_Some (d !! "username_env") →
     d !! "password_env" = None →
     AuthConfig_init site (VDict d) = inl (KeyError "password_env"))
  ∧ (∀ url uenv penv,
       d !! "login_url" = Some url →
       d !! "username_env" = Some uenv →
       d !! "password_env" = Some penv →
       d !! "selectors" = None →
       AuthConfig_init site (VDict d)
       = inr (AuthConfig.mk site (default (VStr site) (d !! "name")) url
                (default (VStr "") (d !! "success_url")) uenv penv
                (VStr "") (VStr "") (VStr "") (VStr "") (VInt 30))).
Proof.
  unfold AuthConfig_init, mbind, exn_bind, value_get, subscript, getitem, get_default.
  split; [|split; [|split]].
  - by intros ->.
  - by intros [url ->] ->.
  - by intros [url ->] [uenv ->] ->.
  - by intros url uenv penv -> -> -> ->.
Qed.

(** X24. [get_credentials] returns the two values exactly when both
    variables named by the site are set and non-empty, and raises
    ValueError otherwise, also when only one of them is missing or
    empty. *)
Theorem get_credentials_spec (environ : list (string * string))
    (config : AuthConfig.t) (username_env password_env : string) :
  AuthConfig.username_env config = VStr username_env →
  AuthConfig.password_env config = VStr password_env →
  (∀ u p,
     get_credentials environ config = inr (u, p)
     ↔ environ_get environ username_env = Some u
       ∧ environ_get environ password_env = Some p
       ∧ u ≠ "" ∧ p ≠ "")
  ∧ (get_credentials environ config = inl (ValueError "Missing credentials for ")
     ↔ ¬ ∃ u p, environ_get environ username_env = Some u
                ∧ environ_get environ password_env = Some p
                ∧ u ≠ "" ∧ p ≠ "").
Proof.
  intros Hu Hp.
  unfold get_credentials, os_environ_get, mbind, exn_bind. rewrite Hu, Hp.
  destruct (environ_get environ username_env) as [u|];
    destruct (environ_get environ password_env) as [p|].
  2-4: split; [intros u' p'; split; [done|by intros (? & ? & _)]
              |split; [by intros _ (? & ? & ? & ? & _)|done]].
  destruct (String.eqb u "") eqn:Eu; [apply String.eqb_eq in Eu|apply String.eqb_neq in Eu];
    (destruct (String.eqb p "") eqn:Ep;
     [apply String.eqb_eq in Ep|apply String.eqb_neq in Ep]); simpl.
  4: { split.
       - intros u' p'. split; [by intros [= <- <-]|by intros ([= <-] & [= <-] & _)].
       - split; [done|]. intros H. exfalso. apply H. by exists u, p. }
  all: split;
    [ intros u' p'; split; [done|intros ([= <-] & [= <-] & ? & ?); done]
    | split; [intros _ (? & ? & [= <-] & [= <-] & ? & ?); done|done] ].
Qed.

(** *** perform_login *)

Section Login.

Variable environ : list (string * string).
Variable config_data : ConfigData.t.
Variable page : list Page.event → Page.call → option Page.error.
Variable page_url : list Page.event → string.

#[local] Existing Instance P_ret.
#[local] Existing Instance P_bind.

Lemma emits_ret {A} Q (a : A) : emits Q (mret a : P A).
Proof. intros t. exists []. by rewrite app_nil_r. Qed.

Lemma emits_python {A} Q (r : exn + A) : emits Q (python r).
Proof. intros t. exists []. by rewrite app_nil_r. Qed.

Lemma emits_call (Q : Page.event → Prop) c :
  Q (Page.Called c) → emits Q (call page c).
Proof. intros H t. exists [Page.Called c]. split; [done|by constructor]. Qed.

Lemma emits_pause (Q : Page.event → Prop) seconds :
  Q (Page.Slept seconds) → emits Q (pause seconds).
Proof. intros H t. exists [Page.Slept seconds]. split; [done|by constructor]. Qed.

Lemma emits_bind {A B} Q (m : P A) (f : A → P B) :
  emits Q m → (∀ a, emits Q (f a)) → emits Q (m ≫= f).
Proof.
  intros Hm Hf t. unfold mbind, P_bind.
  destruct (Hm t) as (new1 & H1 & HQ1).
  destruct (m t) as [[e|a] t1]; simpl in H1; subst t1; [by exists new1|].
  destruct (Hf a (t ++ new1)) as (new2 & H2 & HQ2).
  exists (new1 ++ new2). rewrite H2, app_assoc. split; [done|].
  by apply Forall_app.
Qed.

Lemma emits_except {A} Q (m h : P A) :
  emits Q m → emits Q h → emits Q (except_timeout m h).
Proof.
  intros Hm Hh t. unfold except_timeout.
  destruct (Hm t) as (new1 & H1 & HQ1).
  destruct (m t) as [[[| |]|a] t1]; simpl in H1; subst t1;
    try (by exists new1).
  destruct (Hh (t ++ new1)) as (new2 & H2 & HQ2).
  exists (new1 ++ new2). rewrite H2, app_assoc. split; [done|].
  by apply Forall_app.
Qed.

Lemma emits_timeout_ms Q config : emits Q (timeout_ms config).
Proof. apply emits_python. Qed.

Lemma call_first {B} (Q : Page.event → Prop) c (f : unit → P B) t :
  (∀ a, emits Q (f a)) →
  ∃ new, ((call page c ≫= f) t).2 = t ++ Page.Called c :: new ∧ Forall Q new.
Proof.
  intros Hf. unfold mbind, P_bind, call.
  destruct (page t c) as [e|].
  - by exists [].
  - destruct (Hf tt (t ++ [Page.Called c])) as (new & Hnew & HQ).
    exists new. by rewrite Hnew, <- app_assoc.
Qed.

Lemma login_steps_emits config username password t :
  ∃ new,
    (login_steps page page_url config username password t).2
    = t ++ Page.Called (Page.goto (AuthConfig.login_url config)) :: new
    ∧ Forall (login_event config username password) new.
Proof.
  unfold login_steps. apply call_first. intros _.
  repeat first
    [ apply emits_timeout_ms
    | apply emits_ret
    | apply emits_pause; done
    | apply emits_call; simpl; by auto
    | apply emits_except
    | apply emits_bind; [|intros ?]
    | match goal with
      | |- emits _ (if ?b then _ else _) => destruct b
      end ].
  intros t0. exists []. by rewrite app_nil_r.
Qed.

(** X25. The login resolves the site and reads the credentials before it
    touches the page: when the site cannot be resolved, or a credential
    is missing or empty, [perform_login] raises that error with no page
    call and no pause at all. *)
Theorem perform_login_checks_first (site_name : option string)
    (t : list Page.event) (e : exn) :
  (get_site_config config_data site_name = inl e
   ∨ ∃ config, get_site_config config_data site_name = inr config
               ∧ get_credentials environ config = inl e) →
  perform_login environ config_data page page_url site_name t
  = (inl (Page.PythonError e), t).
Proof.
  unfold perform_login, mbind, P_bind, python.
  intros [->|(config & -> & ->)]; done.
Qed.

(** X26. Where the login sends the credentials.  Once the site and the
    credentials are resolved, the first page call is [goto] of the login
    URL, and every later event is a pause of one second or one of the
    calls of the login flow; in particular a value is only ever filled
    in, by selector or by label, as the username in the username field or
    as the password in the password field, whatever the page answers. *)
Theorem perform_login_events (site_name : option string) (config : AuthConfig.t)
    (username password : string) (t : list Page.event) :
  get_site_config config_data site_name = inr config →
  get_credentials environ config = inr (username, password) →
  ∃ new,
    (perform_login environ config_data page page_url site_name t).2
    = t ++ Page.Called (Page.goto (AuthConfig.login_url config)) :: new
    ∧ Forall (login_event config username password) new.
Proof.
  intros Hconfig Hcredentials.
  unfold perform_login, mbind, P_bind, python. rewrite Hconfig, Hcredentials.
  apply login_steps_emits.
Qed.

Lemma returns_ret {A} (a : A) : returns (mret a : P A).
Proof. intros t. by exists a, t. Qed.

Lemma returns_pause seconds : returns (pause seconds).
Proof. intros t. by eexists _, _. Qed.

Lemma returns_bind {A B} (m : P A) (f : A → P B) :
  returns m → (∀ a, returns (f a)) → returns (m ≫= f).
Proof.
  intros Hm Hf t. unfold mbind, P_bind.
  destruct (Hm t) as (a & t1 & ->). apply Hf.
Qed.

Lemma times_out_bind {A B} (m : P A) (f : A → P B) :
  returns m → (∀ a, returns_or_times_out (f a)) →
  returns_or_times_out (m ≫= f).
Proof.
  intros Hm Hf t. unfold mbind, P_bind.
  destruct (Hm t) as (a & t1 & ->). apply Hf.
Qed.

Lemma returns_except {A} (m h : P A) :
  returns_or_times_out m → returns h → returns (except_timeout m h).
Proof.
  intros Hm Hh t. unfold except_timeout.
  destruct (Hm t) as [(a & t1 & ->)|(t1 & ->)]; [by exists a, t1|apply Hh].
Qed.

Section Tolerant.

(** A page on which nothing fails but, at most, by timeout, the calls
    that have a fallback. *)
Hypothesis tolerant :
  ∀ t c, page t c = None
         ∨ (page t c = Some Page.PlaywrightTimeoutError ∧ has_fallback c = true).

Lemma returns_call c : has_fallback c = false → returns (call page c).
Proof.
  intros Hc t. unfold call.
  destruct (tolerant t c) as [->|[_ H]]; [by eexists _, _|congruence].
Qed.

Lemma times_out_call c : returns_or_times_out (call page c).
Proof.
  intros t. unfold call.
  destruct (tolerant t c) as [->|[-> _]]; [left; by eexists _, _|right; by eexists].
Qed.

Lemma login_steps_returns config username password ms :
  times (AuthConfig.timeout config) 1000 = inr ms →
  returns (login_steps page page_url config username password).
Proof.
  intros Hms.
  assert (returns (timeout_ms config)) as Htimeout.
  { intros t. unfold timeout_ms, python. rewrite Hms. by eexists _, _. }
  unfold login_steps.
  repeat first
    [ exact Htimeout
    | apply returns_ret
    | apply returns_pause
    | apply returns_call; reflexivity
    | apply returns_except
    | apply times_out_call
    | apply times_out_bind; [|intros ?]
    | apply returns_bind; [|intros ?]
    | match goal with
      | |- returns (if ?b then _ else _) => destruct b
      end ].
  intros t. by eexists _, _.
Qed.

End Tolerant.

Lemma bind_returned {A B} (m : P A) (f : A → P B) t r t' :
  (m ≫= f) t = (inr r, t') → ∃ a t1, f a t1 = (inr r, t').
Proof.
  unfold mbind, P_bind. destruct (m t) as [[e|a] t1]; [done|].
  intros H. by exists a, t1.
Qed.

Lemma login_steps_result config username password t r t' :
  login_steps page page_url config username password t = (inr r, t') →
  r = login_result page_url config t'.
Proof.
  unfold login_steps, login_result. intros H.
  repeat (apply bind_returned in H as (? & ? & H)).
  destruct (truthy (AuthConfig.success_url config)).
  - by injection H as <- _.
  - by injection H as <- <-.
Qed.

(** X27. What the login returns, and when.  Whenever [perform_login]
    returns, its result is the configured [success_url] if that is
    truthy, and otherwise the URL the page is at after the last pause.
    It does return, with the site and credentials resolved and a numeric
    timeout, on every page where nothing fails but, at most, by timeout,
    the calls that have a fallback (filling or clicking by selector,
    waiting for the success URL or the success element): such timeouts
    never fail the login. *)
Theorem perform_login_result (site_name : option string) (config : AuthConfig.t)
    (username password : string) (ms : pyval) (t : list Page.event) :
  get_site_config config_data site_name = inr config →
  get_credentials environ config = inr (username, password) →
  (∀ r t',
     perform_login environ config_data page page_url site_name t = (inr r, t') →
     r = login_result page_url config t')
  ∧ (times (AuthConfig.timeout config) 1000 = inr ms →
     (∀ t c, page t c = None
             ∨ (page t c = Some Page.PlaywrightTimeoutError
                ∧ has_fallback c = true)) →
     ∃ t', perform_login environ config_data page page_url site_name t
           = (inr (login_result page_url config t'), t')).
Proof.
  intros Hconfig Hcredentials.
  unfold perform_login, mbind, P_bind, python. rewrite Hconfig, Hcredentials.
  split; [intros r t'; apply login_steps_result|].
  intros Hms Htolerant.
  destruct (login_steps_returns Htolerant config username password ms Hms t)
    as (r & t' & Hrun).
  exists t'. simpl. rewrite Hrun. f_equal. f_equal.
  by apply login_steps_result in Hrun.
Qed.

End Login.

(** ** Credentials stay out of what the model sees *)

Section Noninterference.

Variable screen_size : Z * Z.
Variable computer : list event → BackendCall → EnvState.t.
Variables environ environ' : list (string * string).
Hypothesis same_shape : shape environ' = shape environ.

Lemma shape_env_vars : env_vars environ' = env_vars environ.
Proof.
  unfold env_vars. revert same_shape. generalize environ'.
  induction environ as [|[k v] l IH]; intros [|[k' v'] l'] H; try done.
  unfold shape in H. rewrite !fmap_cons in H. simpl in H.
  injection H as Hk _ Hl. rewrite !fmap_cons. simpl. f_equal; [done|].
  by apply IH.
Qed.

Lemma shape_both_set k1 k2 :
  both_set (environ_get environ' k1) (environ_get environ' k2)
  = both_set (environ_get environ k1) (environ_get environ k2).
Proof.
  assert (∀ k, match environ_get environ' k with
               | Some v => Some (String.eqb v "")
               | None => None
               end
               = match environ_get environ k with
                 | Some v => Some (String.eqb v "")
                 | None => None
                 end) as Hget.
  { intros k. unfold environ_get. revert same_shape. generalize environ'.
    induction environ as [|[k0 v] l IH]; intros [|[k0' v'] l'] H; try done.
    unfold shape in H. rewrite !fmap_cons in H. simpl in H.
    injection H as Hk Hv Hl. subst k0'. simpl.
    destruct (String.eqb k0 k); simpl; [by rewrite Hv|].
    by apply IH. }
  pose proof (Hget k1) as H1. pose proof (Hget k2) as H2.
  unfold both_set.
  destruct (environ_get environ' k1), (environ_get environ k1); try done;
    destruct (environ_get environ' k2), (environ_get environ k2); try done;
    injection H1 as ->; try injection H2 as ->; done.
Qed.

Lemma shape_username_key site :
  username_key_of environ' site = username_key_of environ site.
Proof. unfold username_key_of. by rewrite shape_env_vars. Qed.

Lemma shape_available_sites : available_sites environ' = available_sites environ.
Proof.
  unfold available_sites, site_of_var. by rewrite shape_env_vars.
Qed.

(** The listing's result, which reads variable names only. *)
Lemma handle_action_listing env action s :
  FunctionCall.name action = "get_available_credentials" →
  handle_action screen_size computer env action s
  = (inr (OfDict {[ "available_sites" := VList (VStr <$> available_sites env);
                    "message" :=
                      VStr ("Credentials are securely stored for: "
                            +:+ (match available_sites env with
                                 | [] => "no sites"
                                 | _ => Str.join ", " (available_sites env)
                                 end)
                            +:+ ". Use perform_secure_login() to authenticate.") ]}),
     s).
Proof. unfold handle_action. by intros ->. Qed.

(** Every way the retrieval branch can end. *)
Lemma handle_action_login_cases env action s :
  FunctionCall.name action = "perform_secure_login" →
  (∃ e, (handle_action screen_size computer env action s).1 = inl e
        ∧ ∀ env', (handle_action screen_size computer env' action s).1 = inl e)
  ∨ ∃ site,
      arg action "site" = inr (VStr site)
      ∧ handle_action screen_size computer env action s
        = if both_set (environ_get env (username_key_of env site))
                      (environ_get env (password_key_of site))
          then
            (inr (OfDict (<[ "instruction" := VStr INSTRUCTION ]>
                            {[ "success" := VBool true;
                               "message" := VStr (retrieved_message site) ]})),
             set_temp_credentials
               {[ "username" := opt_str (environ_get env (username_key_of env site));
                  "password" := opt_str (environ_get env (password_key_of site)) ]} s)
          else
            (inr (OfDict {[ "success" := VBool false;
                            "message" := VStr (not_found_message env site) ]}),
             s).
Proof.
  intros Hname.
  destruct (arg action "site") as [e|site] eqn:Hsite.
  { left. exists e. split; [|intros env'];
      rewrite (handle_action_login _ _ _ _ Hname); unfold_monad; by rewrite Hsite. }
  destruct site as [| | |site| |];
    try (left; exists AttributeError; split; [|intros env'];
         rewrite (handle_action_login _ _ _ _ Hname); unfold_monad;
         by rewrite Hsite).
  right. exists site. split; [done|].
  by rewrite (handle_action_login_site _ _ _ _ _ _ Hname Hsite).
Qed.

(** The two credential actions return the same in both environments. *)
Lemma handle_action_same_shape action s :
  FunctionCall.name action = "perform_secure_login"
  ∨ FunctionCall.name action = "get_available_credentials" →
  (handle_action screen_size computer environ' action s).1
  = (handle_action screen_size computer environ action s).1.
Proof.
  intros [Hname|Hname].
  - destruct (handle_action_login_cases environ action s Hname)
      as [(e & He & Hall)|(site & Hsite & Hres)].
    { by rewrite He, Hall. }
    rewrite Hres.
    rewrite (handle_action_login_site _ _ _ _ _ _ Hname Hsite). cbn zeta.
    rewrite shape_username_key, shape_both_set.
    unfold not_found_message. rewrite shape_username_key.
    by destruct (both_set _ _).
  - by rewrite !handle_action_listing, shape_available_sites.
Qed.

End Noninterference.


(** ** Coordinates

    [denormalize] multiplies two binary64 numbers.  The lemmas below follow
    the Standard Library's [binary_round_aux] through its shift, its
    rounding to nearest even and its renormalization, and bound the result
    against the exact product. *)

Lemma digits2_pos_size p : digits2_pos p = Pos.size p.
Proof. induction p; simpl; congruence. Qed.

Lemma digits2_pos_bounds p :
  2 ^ (Zpos (digits2_pos p) - 1) <= Zpos p < 2 ^ Zpos (digits2_pos p).
Proof.
  rewrite digits2_pos_size.
  induction p as [p IH|p IH|].
  - simpl Pos.size. rewrite Pos2Z.inj_succ.
    replace (Z.succ (Z.pos (Pos.size p)) - 1) with (Z.succ (Zpos (Pos.size p) - 1)) by lia.
    rewrite !Z.pow_succ_r by lia. lia.
  - simpl Pos.size. rewrite Pos2Z.inj_succ.
    replace (Z.succ (Z.pos (Pos.size p)) - 1) with (Z.succ (Zpos (Pos.size p) - 1)) by lia.
    rewrite !Z.pow_succ_r by lia. lia.
  - simpl. lia.
Qed.

Lemma digits2_pos_unique p n :
  2 ^ (n - 1) <= Zpos p < 2 ^ n -> Zpos (digits2_pos p) = n.
Proof.
  intros [Hlo Hhi]. pose proof (digits2_pos_bounds p) as [Hlo' Hhi'].
  assert (0 < n).
  { destruct (Z.lt_trichotomy n 0) as [Hn|[->|Hn]]; [|simpl in Hhi; lia|done].
    rewrite Z.pow_neg_r in Hhi by done. lia. }
  destruct (Z.lt_trichotomy (Zpos (digits2_pos p)) n) as [Hlt|[Heq|Hgt]]; [|done|].
  - assert (2 ^ Zpos (digits2_pos p) <= 2 ^ (n - 1)) by (apply Z.pow_le_mono_r; lia). lia.
  - assert (2 ^ n <= 2 ^ (Zpos (digits2_pos p) - 1)) by (apply Z.pow_le_mono_r; lia). lia.
Qed.

Lemma shr_1_nonneg m r s :
  0 <= m ->
  shr_1 (Build_shr_record m r s) = Build_shr_record (m / 2) (Z.odd m) (r || s).
Proof.
  intros Hm. destruct m as [|p|p]; [done| |lia].
  destruct p as [p|p|]; simpl.
  - f_equal. rewrite Pos2Z.inj_xI.
    apply Z.div_unique with 1; lia.
  - f_equal. rewrite Pos2Z.inj_xO.
    apply Z.div_unique with 0; lia.
  - done.
Qed.

Lemma iter_pos_nat {A} (f : A -> A) (p : positive) (x : A) :
  SpecFloat.iter_pos f p x = Nat.iter (Pos.to_nat p) f x.
Proof.
  revert x. induction p as [p IH|p IH|]; intros x; cbn [SpecFloat.iter_pos].
  - rewrite !IH, Pos2Nat.inj_xI.
    replace (S (2 * Pos.to_nat p)) with (Pos.to_nat p + S (Pos.to_nat p))%nat by lia.
    rewrite Nat.iter_add. f_equal. by rewrite Nat.iter_succ_r.
  - rewrite !IH, Pos2Nat.inj_xO.
    replace (2 * Pos.to_nat p)%nat with (Pos.to_nat p + Pos.to_nat p)%nat by lia.
    by rewrite Nat.iter_add.
  - done.
Qed.

Lemma mod_pow2_succ m j :
  0 <= j -> m mod 2 ^ (j + 1) = m mod 2 ^ j + 2 ^ j * ((m / 2 ^ j) mod 2).
Proof.
  intros Hj. rewrite Z.pow_add_r by lia. change (2 ^ 1) with 2.
  apply Z.rem_mul_r; [|lia]. apply Z.pow_nonzero; lia.
Qed.

Lemma shr_1_shifted m r s k :
  0 <= m -> 1 <= k -> shr_1 (shifted m r s k) = shifted m r s (k + 1).
Proof.
  intros Hm Hk. unfold shifted.
  rewrite shr_1_nonneg by (apply Z.div_pos; [done|apply Z.pow_pos_nonneg; lia]).
  f_equal.
  - rewrite Z.pow_add_r by lia. change (2 ^ 1) with 2.
    rewrite Z.div_div; [done| |lia]. apply Z.pow_nonzero; lia.
  - by replace (k + 1 - 1) with k by lia.
  - replace (k + 1 - 1) with (k - 1 + 1) by lia.
    rewrite (mod_pow2_succ m (k - 1)) by lia.
    rewrite Zmod_odd.
    pose proof (Z.mod_pos_bound m (2 ^ (k - 1)) ltac:(apply Z.pow_pos_nonneg; lia)).
    pose proof (Z.pow_pos_nonneg 2 (k - 1) ltac:(lia) ltac:(lia)).
    destruct (Z.odd (m / 2 ^ (k - 1))); simpl.
    + by rewrite (proj2 (Z.eqb_neq _ _)) by lia.
    + rewrite Z.mul_0_r, Z.add_0_r. done.
Qed.

Lemma iter_shr_1 m r s n :
  0 <= m ->
  Nat.iter (S n) shr_1 (Build_shr_record m r s) = shifted m r s (Z.of_nat (S n)).
Proof.
  intros Hm. induction n as [|n IH].
  - change (Nat.iter 1 shr_1 (Build_shr_record m r s))
      with (shr_1 (Build_shr_record m r s)).
    rewrite shr_1_nonneg by done. unfold shifted.
    change (Z.of_nat 1) with 1. change (1 - 1) with 0.
    change (2 ^ 1) with 2. change (2 ^ 0) with 1.
    rewrite Z.div_1_r, Z.mod_1_r. done.
  - change (Nat.iter (S (S n)) shr_1 (Build_shr_record m r s))
      with (shr_1 (Nat.iter (S n) shr_1 (Build_shr_record m r s))).
    rewrite IH, shr_1_shifted by lia. f_equal. lia.
Qed.

Lemma shr_shifted m e k :
  0 <= m -> 1 <= k ->
  shr (Build_shr_record m false false) e k = (shifted m false false k, e + k).
Proof.
  intros Hm Hk. destruct k as [|p|p]; try lia.
  unfold shr. f_equal. rewrite iter_pos_nat.
  destruct (Pos2Nat.is_succ p) as [n Hn]. rewrite Hn, iter_shr_1 by done.
  f_equal. lia.
Qed.

Lemma round_shifted M k :
  0 <= M -> 1 <= k ->
  let mrs := shifted M false false k in
  let m2 := round_nearest_even (shr_m mrs) (loc_of_shr_record mrs) in
  M / 2 ^ k <= m2 <= M / 2 ^ k + 1
  /\ Z.abs (m2 * 2 ^ k - M) <= 2 ^ (k - 1)
  /\ (M mod 2 ^ k = 0 -> m2 * 2 ^ k = M).
Proof.
  intros HM Hk mrs m2. subst mrs m2. unfold shifted.
  cbn [shr_m shr_r shr_s loc_of_shr_record].
  pose proof (Z.pow_pos_nonneg 2 (k - 1) ltac:(lia) ltac:(lia)) as Hh.
  assert (2 ^ k = 2 * 2 ^ (k - 1)) as Hk2.
  { replace k with (Z.succ (k - 1)) at 1 by lia. by rewrite Z.pow_succ_r by lia. }
  pose proof (Z.div_mod M (2 ^ k) ltac:(lia)) as Hdm.
  pose proof (mod_pow2_succ M (k - 1) ltac:(lia)) as Hmod.
  replace (k - 1 + 1) with k in Hmod by lia.
  pose proof (Z.mod_pos_bound M (2 ^ (k - 1)) Hh) as Hlow.
  rewrite Zmod_odd in Hmod.
  set (q := M / 2 ^ k) in *. set (h := 2 ^ (k - 1)) in *.
  set (lo := M mod h) in *. set (rem := M mod 2 ^ k) in *.
  destruct (Z.odd (M / h)); destruct (Z.eqb_spec lo 0) as [Hz|Hnz];
    cbn [negb orb round_nearest_even].
  - destruct (Z.even q); nia.
  - nia.
  - nia.
  - nia.
Qed.

Lemma fexp_normal x : -1074 <= x - 53 -> fexp 53 1024 x = x - 53.
Proof. unfold fexp, emin. lia. Qed.

Lemma shr_zero mrs e n : n <= 0 -> shr mrs e n = (mrs, e).
Proof. by destruct n. Qed.

(** A mantissa of exactly 53 digits in the normal range is already
    rounded. *)
Lemma binary_round_aux_exact sx P e :
  Zpos (digits2_pos P) = 53 -> -1074 <= e <= 971 ->
  binary_round_aux 53 1024 sx (Zpos P) e loc_Exact = S754_finite sx P e.
Proof.
  intros Hd He. unfold binary_round_aux, shr_fexp.
  cbn [Zdigits2 shr_record_of_loc]. rewrite Hd, fexp_normal by lia.
  rewrite shr_zero by lia.
  cbn [shr_m loc_of_shr_record round_nearest_even Zdigits2 shr_record_of_loc].
  rewrite Hd, fexp_normal by lia. rewrite shr_zero by lia.
  cbn [shr_m]. by rewrite (proj2 (Z.leb_le _ _)) by lia.
Qed.

(** A longer mantissa is shifted, rounded to nearest even, and shifted
    once more when rounding carried into a 54th digit. *)
Lemma binary_round_aux_round sx P e :
  let n := Zpos (digits2_pos P) in
  let k := n - 53 in
  1 <= k -> -1074 <= e + k -> e + k + 1 <= 971 ->
  exists m3 e3,
    binary_round_aux 53 1024 sx (Zpos P) e loc_Exact = S754_finite sx m3 e3
    /\ e + k <= e3 <= e + k + 1
    /\ 2 ^ 52 <= Zpos m3 < 2 ^ 53
    /\ Z.abs (Zpos m3 * 2 ^ (e3 - e) - Zpos P) <= 2 ^ (k - 1)
    /\ (Zpos P mod 2 ^ k = 0 -> Zpos m3 * 2 ^ (e3 - e) = Zpos P).
Proof.
  intros n k Hk Hlo Hhi.
  pose proof (digits2_pos_bounds P) as HP. fold n in HP.
  destruct (round_shifted (Zpos P) k ltac:(lia) Hk) as (Hm2 & Habs & Hex).
  set (mrs := shifted (Zpos P) false false k) in *.
  set (m2 := round_nearest_even (shr_m mrs) (loc_of_shr_record mrs)) in *.
  assert (2 ^ k * 2 ^ 52 = 2 ^ (n - 1)) as Hpow1.
  { rewrite <- Z.pow_add_r by lia. f_equal. lia. }
  assert (2 ^ k * 2 ^ 53 = 2 ^ n) as Hpow2.
  { rewrite <- Z.pow_add_r by lia. f_equal. lia. }
  pose proof (Z.pow_pos_nonneg 2 k ltac:(lia) ltac:(lia)) as Hk0.
  assert (2 ^ 52 <= Zpos P / 2 ^ k < 2 ^ 53) as Hq.
  { split.
    - apply Z.div_le_lower_bound; lia.
    - apply Z.div_lt_upper_bound; lia. }
  unfold binary_round_aux, shr_fexp.
  cbn [Zdigits2 shr_record_of_loc]. fold n.
  rewrite fexp_normal by lia.
  replace (n + e - 53 - e) with k by lia.
  rewrite shr_shifted by lia. fold mrs. fold m2.
  destruct (Z.eq_dec m2 (2 ^ 53)) as [Hcarry|Hnocarry].
  - (* rounding carried *)
    rewrite Hcarry. change (Zdigits2 (2 ^ 53)) with 54.
    rewrite fexp_normal by lia.
    replace (54 + (e + k) - 53 - (e + k)) with 1 by lia.
    cbn [shr_record_of_loc]. rewrite shr_shifted by lia.
    change (shr_m (shifted (2 ^ 53) false false 1)) with (Zpos (2 ^ 52)%positive).
    cbn iota. rewrite (proj2 (Z.leb_le _ _)) by lia.
    exists (2 ^ 52)%positive, (e + k + 1).
    split; [done|]. split; [lia|]. split; [done|].
    replace (e + k + 1 - e) with (k + 1) by lia.
    rewrite Z.pow_add_r by lia. change (2 ^ 1) with 2.
    change (Zpos (2 ^ 52)) with (2 ^ 52). change (2 ^ 53) with (2 * 2 ^ 52) in Hcarry.
    split.
    + replace (2 ^ 52 * (2 ^ k * 2)) with (m2 * 2 ^ k) by lia. done.
    + intros H. replace (2 ^ 52 * (2 ^ k * 2)) with (m2 * 2 ^ k) by lia. by apply Hex.
  - (* no carry *)
    assert (2 ^ 52 <= m2 < 2 ^ 53) as Hm2' by lia.
    destruct m2 as [|p2|p2] eqn:Em2; try lia.
    assert (Zpos (digits2_pos p2) = 53) as Hd2.
    { apply digits2_pos_unique. change (53 - 1) with 52. lia. }
    cbn [Zdigits2]. rewrite Hd2, fexp_normal by lia.
    rewrite shr_zero by lia. cbn [shr_record_of_loc shr_m].
    rewrite (proj2 (Z.leb_le _ _)) by lia.
    exists p2, (e + k). split; [done|]. split; [lia|]. split; [done|].
    replace (e + k - e) with k by lia. done.
Qed.

Lemma pos_iter_xO p n : Zpos (Pos.iter xO p n) = Zpos p * 2 ^ Zpos n.
Proof.
  rewrite (Pos.iter_swap_gen _ _ Zpos xO (Z.mul 2)) by done.
  change (Pos.iter (Z.mul 2) (Zpos p) n) with (Z.shiftl (Zpos p) (Zpos n)).
  by rewrite Z.shiftl_mul_pow2.
Qed.

Lemma of_int_pos d :
  0 < d < 2 ^ 53 ->
  exists md ed,
    Float64.of_int d = S754_finite false md ed
    /\ 2 ^ 52 <= Zpos md < 2 ^ 53
    /\ -52 <= ed <= 0
    /\ Zpos md = d * 2 ^ (- ed)
    /\ 2 ^ (ed + 52) <= d < 2 ^ (ed + 53).
Proof.
  intros Hd. destruct d as [|p|p]; try lia.
  unfold Float64.of_int, Float64.prec, Float64.emax, binary_normalize, binary_round.
  pose proof (digits2_pos_bounds p) as Hp.
  set (n := Zpos (digits2_pos p)) in *.
  assert (1 <= n <= 53) as Hn.
  { split; [subst n; lia|].
    destruct (Z.le_gt_cases n 53); [done|].
    assert (2 ^ 53 <= 2 ^ (n - 1)) by (apply Z.pow_le_mono_r; lia). lia. }
  rewrite Z.add_0_r, fexp_normal by lia.
  unfold shl_align. rewrite Z.sub_0_r.
  destruct (n - 53) as [|k|k] eqn:Ek; try lia.
  - assert (n = 53) as Hn53 by lia. rewrite Hn53 in Hp.
    rewrite binary_round_aux_exact by (fold n; lia).
    exists p, 0. split; [done|]. change (53 - 1) with 52 in Hp.
    repeat split; try lia.
  - assert (Zpos k = 53 - n) as Hk by lia.
    pose proof (pos_iter_xO p k) as Hiter.
    assert (2 ^ 52 <= Zpos (Pos.iter xO p k) < 2 ^ 53) as Hmz.
    { rewrite Hiter, Hk.
      assert (2 ^ (n - 1) * 2 ^ (53 - n) = 2 ^ 52) as <-.
      { rewrite <- Z.pow_add_r by lia. f_equal. lia. }
      assert (2 ^ n * 2 ^ (53 - n) = 2 ^ 53) as <-.
      { rewrite <- Z.pow_add_r by lia. f_equal. lia. }
      pose proof (Z.pow_pos_nonneg 2 (53 - n) ltac:(lia) ltac:(lia)). nia. }
    rewrite binary_round_aux_exact.
    + exists (Pos.iter xO p k), (Zneg k). split; [done|]. split; [done|].
      split; [lia|]. split.
      * rewrite Hiter. f_equal.
      * replace (Z.neg k + 52) with (n - 1) by lia.
        replace (Z.neg k + 53) with n by lia. done.
    + apply digits2_pos_unique. change (53 - 1) with 52. done.
    + lia.
Qed.

Lemma mul_value s mv ev d :
  2 ^ 52 <= Zpos mv < 2 ^ 53 -> -62 <= ev <= -51 -> 0 < d < 2 ^ 41 ->
  exists m3 e3,
    Float64.mul (S754_finite s mv ev) (Float64.of_int d) = S754_finite s m3 e3
    /\ e3 <= -9 /\ (ev <= -52 -> e3 <= -10)
    /\ 2 * Z.abs (Zpos m3 * 2 ^ (- ev) - Zpos mv * d * 2 ^ (- e3)) <= 2 ^ (- ev)
    /\ (Zpos mv = 2 ^ 52 -> Zpos m3 * 2 ^ (- ev) = Zpos mv * d * 2 ^ (- e3)).
Proof.
  intros Hmv Hev Hd.
  destruct (of_int_pos d ltac:(lia)) as (md & ed & -> & Hmd & Hed & Hmdd & Hdd).
  assert (ed <= -12) as Hed'.
  { destruct (Z.le_gt_cases ed (-12)); [done|].
    assert (2 ^ 41 <= 2 ^ (ed + 52)) by (apply Z.pow_le_mono_r; lia). lia. }
  unfold Float64.mul, Float64.prec, Float64.emax, SFmul. rewrite xorb_false_r.
  change (Z.add ev ed) with (ev + ed).
  pose proof (digits2_pos_bounds (mv * md)) as HP.
  rewrite Pos2Z.inj_mul in HP.
  set (P := Zpos mv * Zpos md) in *.
  assert (2 ^ 104 <= P < 2 ^ 106) as HPb.
  { change (2 ^ 104) with (2 ^ 52 * 2 ^ 52). change (2 ^ 106) with (2 ^ 53 * 2 ^ 53).
    subst P. nia. }
  set (n := Zpos (digits2_pos (mv * md))) in *.
  assert (105 <= n <= 106) as Hn.
  { split.
    - destruct (Z.le_gt_cases 105 n); [done|].
      assert (2 ^ n <= 2 ^ 104) by (apply Z.pow_le_mono_r; lia). lia.
    - destruct (Z.le_gt_cases n 106); [done|].
      assert (2 ^ 106 <= 2 ^ (n - 1)) by (apply Z.pow_le_mono_r; lia). lia. }
  pose proof (binary_round_aux_round s (mv * md) (ev + ed)) as Hround.
  cbv zeta in Hround. fold n in Hround.
  set (k := n - 53) in *.
  destruct Hround as (m3 & e3 & -> & He3 & Hm3 & Habs & Hex); try lia.
  rewrite Pos2Z.inj_mul in Habs, Hex. fold P in Habs, Hex.
  exists m3, e3. split; [done|]. split; [lia|]. split; [lia|].
  (* the powers of two involved, and how they multiply *)
  assert (2 ^ (e3 - (ev + ed)) * 2 ^ (- e3) = 2 ^ (- ev) * 2 ^ (- ed)) as Hpow.
  { rewrite <- !Z.pow_add_r by lia. f_equal. lia. }
  assert (2 ^ k <= 2 ^ (e3 - (ev + ed))) as Hks by (apply Z.pow_le_mono_r; lia).
  assert (2 * 2 ^ (k - 1) = 2 ^ k) as Hk2.
  { replace k with (Z.succ (k - 1)) at 2 by lia. by rewrite Z.pow_succ_r by lia. }
  pose proof (Z.pow_pos_nonneg 2 (- e3) ltac:(lia) ltac:(lia)) as HN.
  pose proof (Z.pow_pos_nonneg 2 (- ev) ltac:(lia) ltac:(lia)) as HA.
  pose proof (Z.pow_pos_nonneg 2 (- ed) ltac:(lia) ltac:(lia)) as HD.
  pose proof (Z.pow_pos_nonneg 2 (k - 1) ltac:(lia) ltac:(lia)) as HK.
  set (Sc := 2 ^ (e3 - (ev + ed))) in *. set (N := 2 ^ (- e3)) in *.
  set (A := 2 ^ (- ev)) in *. set (D := 2 ^ (- ed)) in *.
  set (h := 2 ^ (k - 1)) in *. set (K := 2 ^ k) in *.
  assert ((Zpos m3 * A - Zpos mv * d * N) * D = N * (Zpos m3 * Sc - P)) as Hkey.
  { subst P. rewrite Hmdd.
    transitivity (Zpos m3 * (A * D) - Zpos mv * (d * D) * N); [ring|].
    rewrite <- Hpow. ring. }
  split.
  - assert (Z.abs (Zpos m3 * A - Zpos mv * d * N) * D
            = N * Z.abs (Zpos m3 * Sc - P)) as Habs'.
    { rewrite <- (Z.abs_eq D) at 1 by lia.
      by rewrite <- Z.abs_mul, Hkey, Z.abs_mul, (Z.abs_eq N) by lia. }
    set (ax := Z.abs (Zpos m3 * A - Zpos mv * d * N)) in *.
    set (ay := Z.abs (Zpos m3 * Sc - P)) in *.
    assert (N * ay <= N * h) as H1 by (apply Z.mul_le_mono_nonneg_l; lia).
    assert (N * K <= N * Sc) as H2 by (apply Z.mul_le_mono_nonneg_l; lia).
    assert (2 * ax * D <= A * D) as H3.
    { replace (2 * ax * D) with (2 * (ax * D)) by ring.
      rewrite Habs', <- Hpow. lia. }
    apply (Z.mul_le_mono_pos_r _ _ D); [done|]. lia.
  - intros Hpow2.
    assert (n = 105) as Hn105.
    { destruct (Z.eq_dec n 105); [done|]. assert (n = 106) as Hn106 by lia.
      rewrite Hn106 in HP. change (106 - 1) with 105 in HP.
      subst P. rewrite Hpow2 in HP. change (2 ^ 105) with (2 ^ 52 * 2 ^ 53) in HP. nia. }
    assert (P mod 2 ^ k = 0) as Hdiv.
    { subst k. rewrite Hn105. change (105 - 53) with 52. subst P. rewrite Hpow2.
      rewrite Z.mul_comm. apply Z.mod_mul. lia. }
    specialize (Hex Hdiv). rewrite Hex, Z.sub_diag, Z.mul_0_r in Hkey.
    apply Z.mul_eq_0_l in Hkey; lia.
Qed.

Lemma to_int_neg_exp s m e :
  e < 0 ->
  Float64.to_int (S754_finite s m e)
  = Some (if s then - (Zpos m / 2 ^ (- e)) else Zpos m / 2 ^ (- e)).
Proof.
  intros He. destruct e as [|p|p]; try lia.
  unfold Float64.to_int. by rewrite Z.shiftr_div_pow2 by lia.
Qed.

(** The floor of a scaled value that lies within one thousandth of
    [t / 1000]. *)
Lemma floor_close t m N :
  0 < N -> Z.abs (1000 * m - t * N) < N ->
  t / 1000 - 1 <= m / N <= t / 1000
  /\ (t mod 1000 <> 0 -> m / N = t / 1000)
  /\ (1000 * m = t * N -> m / N = t / 1000).
Proof.
  intros HN Hclose.
  pose proof (Z.div_mod t 1000 ltac:(lia)) as Ht.
  pose proof (Z.mod_pos_bound t 1000 ltac:(lia)) as Hrho.
  pose proof (Z.div_mod m N ltac:(lia)) as Hm.
  pose proof (Z.mod_pos_bound m N HN) as Hr.
  set (f := t / 1000) in *. set (rho := t mod 1000) in *.
  set (r := m / N) in *. set (mu := m mod N) in *.
  assert (r <= f) as Hup.
  { destruct (Z.le_gt_cases r f); [done|].
    assert (N * (f + 1) <= N * r) by (apply Z.mul_le_mono_nonneg_l; lia). nia. }
  assert (f - 1 <= r) as Hdown.
  { destruct (Z.le_gt_cases (f - 1) r); [done|].
    assert (N * (r + 1) <= N * (f - 1)) by (apply Z.mul_le_mono_nonneg_l; lia). nia. }
  split; [lia|]. split.
  - intros Hnz. destruct (Z.eq_dec r f); [done|].
    assert (r = f - 1) as -> by lia. nia.
  - intros Hexact. destruct (Z.eq_dec r f); [done|].
    assert (r = f - 1) as -> by lia. nia.
Qed.

Lemma quotient_table : forallb quotient_ok (seqZ 1 1000) = true.
Proof. vm_compute. reflexivity. Qed.

Lemma quotient_spec v :
  1 <= v <= 1000 ->
  exists m e,
    quotient v = S754_finite false m e
    /\ 2 ^ 52 <= Zpos m < 2 ^ 53 /\ -62 <= e <= -52
    /\ Z.abs (1000 * Zpos m - v * 2 ^ (- e)) <= 500.
Proof.
  intros Hv.
  assert (quotient_ok v = true) as Hok.
  { pose proof quotient_table as Htable.
    rewrite forallb_forall in Htable. apply Htable.
    apply list_elem_of_In, elem_of_seqZ. lia. }
  unfold quotient_ok in Hok.
  destruct (quotient v) as [| | |[|] m e]; try discriminate.
  exists m, e. split; [done|].
  rewrite !andb_true_iff in Hok.
  destruct Hok as ((((H1 & H2) & H3) & H4) & H5).
  apply Z.leb_le in H1, H3, H4, H5. apply Z.ltb_lt in H2. lia.
Qed.

Lemma denormalize_in_range v d :
  1 <= v <= 1000 -> 0 < d < 2 ^ 41 ->
  exists p,
    denormalize v d = inr p
    /\ v * d / 1000 - 1 <= p <= v * d / 1000
    /\ ((v * d) mod 1000 <> 0 -> p = v * d / 1000).
Proof.
  intros Hv Hd.
  destruct (quotient_spec v Hv) as (mv & ev & Hq & Hmv & Hev & Herr).
  destruct (mul_value false mv ev d Hmv ltac:(lia) Hd)
    as (m3 & e3 & Hmul & _ & He3 & Hhalf & _).
  specialize (He3 ltac:(lia)).
  unfold denormalize. rewrite Hq, Hmul.
  rewrite to_int_neg_exp by lia.
  exists (Zpos m3 / 2 ^ (- e3)). split; [done|].
  pose proof (Z.pow_pos_nonneg 2 (- ev) ltac:(lia) ltac:(lia)) as HA.
  assert (2 ^ 52 <= 2 ^ (- ev)) as HA' by (apply Z.pow_le_mono_r; lia).
  assert (2 ^ 10 <= 2 ^ (- e3)) as HN' by (apply Z.pow_le_mono_r; lia).
  set (A := 2 ^ (- ev)) in *. set (N := 2 ^ (- e3)) in *.
  assert (Z.abs (1000 * Zpos m3 - v * d * N) < N) as Hclose.
  { assert ((1000 * Zpos m3 - v * d * N) * A
            = 1000 * (Zpos m3 * A - Zpos mv * d * N)
              + d * N * (1000 * Zpos mv - v * A)) as Hsplit by ring.
    set (x := 1000 * Zpos m3 - v * d * N) in *.
    set (y := Zpos m3 * A - Zpos mv * d * N) in *.
    set (z := 1000 * Zpos mv - v * A) in *.
    assert (Z.abs x * A <= 500 * A + 500 * (d * N)) as Hbound.
    { rewrite <- (Z.abs_eq A) at 1 by lia. rewrite <- Z.abs_mul, Hsplit.
      eapply Z.le_trans; [apply Z.abs_triangle|].
      rewrite !Z.abs_mul, (Z.abs_eq 1000), (Z.abs_eq d), (Z.abs_eq N) by lia.
      assert (d * N * Z.abs z <= d * N * 500)
        by (apply Z.mul_le_mono_nonneg_l; nia).
      lia. }
    change (2 ^ 52) with 4503599627370496 in HA'.
    change (2 ^ 10) with 1024 in HN'.
    change (2 ^ 41) with 2199023255552 in Hd.
    assert (1024 * A <= N * A) by (apply Z.mul_le_mono_nonneg_r; lia).
    assert (2048 * d * N <= A * N) by (apply Z.mul_le_mono_nonneg_r; lia).
    assert (Z.abs x * A < N * A) by lia.
    apply (Z.mul_lt_mono_pos_r A); lia. }
  destruct (floor_close (v * d) (Zpos m3) N ltac:(lia) Hclose) as (H1 & H2 & _).
  done.
Qed.

Lemma denormalize_pow2 s v a d :
  quotient v = S754_finite s (2 ^ 52)%positive (- a) -> 51 <= a <= 62 ->
  0 < d < 2 ^ 41 ->
  exists p,
    denormalize v d = inr (if s then - p else p)
    /\ p = 2 ^ 52 * d / 2 ^ a.
Proof.
  intros Hq Ha Hd.
  destruct (mul_value s (2 ^ 52)%positive (- a) d ltac:(done) ltac:(lia) Hd)
    as (m3 & e3 & Hmul & He3 & _ & _ & Hexact).
  specialize (Hexact eq_refl). rewrite Z.opp_involutive in Hexact.
  unfold denormalize. rewrite Hq, Hmul.
  rewrite to_int_neg_exp by lia.
  exists (Zpos m3 / 2 ^ (- e3)). split; [by destruct s|].
  pose proof (Z.pow_pos_nonneg 2 a ltac:(lia) ltac:(lia)) as HA.
  pose proof (Z.pow_pos_nonneg 2 (- e3) ltac:(lia) ltac:(lia)) as HN.
  set (A := 2 ^ a) in *. set (N := 2 ^ (- e3)) in *.
  change (Zpos (2 ^ 52)) with (2 ^ 52) in Hexact.
  (* both sides are the floor of the same rational *)
  pose proof (Z.div_mod (Zpos m3) N ltac:(lia)) as Hm.
  pose proof (Z.mod_pos_bound (Zpos m3) N HN) as Hmu.
  set (r := Zpos m3 / N) in *. set (mu := Zpos m3 mod N) in *.
  assert ((2 ^ 52 * d - A * r) * N = mu * A) as Hrem.
  { transitivity (2 ^ 52 * d * N - (N * r) * A); [ring|].
    rewrite <- Hexact, Hm. ring. }
  apply Z.div_unique_pos with (2 ^ 52 * d - A * r); [|ring].
  split.
  - apply (Z.mul_le_mono_pos_r _ _ N); [done|]. rewrite Hrem. nia.
  - apply (Z.mul_lt_mono_pos_r N); [done|]. rewrite Hrem. nia.
Qed.

Lemma denormalize_zero_dim v : 0 <= v <= 1000 -> denormalize v 0 = inr 0.
Proof.
  intros Hv. unfold denormalize.
  destruct (Z.eq_dec v 0) as [->|Hnz]; [done|].
  destruct (quotient_spec v ltac:(lia)) as (m & e & -> & _). done.
Qed.

Lemma denormalize_zero d : 0 <= d < 2 ^ 41 -> denormalize 0 d = inr 0.
Proof.
  intros Hd. destruct (Z.eq_dec d 0) as [->|Hnz]; [done|].
  destruct (of_int_pos d ltac:(lia)) as (md & ed & Hof & _).
  unfold denormalize. by rewrite Hof.
Qed.

(** On the screen of main.py, 1440 by 900: the width is one pixel short
    of the exact floor at four coordinates and exact elsewhere, the height
    is exact everywhere. *)
Lemma denormalize_playwright_screen v :
  0 <= v <= 1000 ->
  denormalize v 1440 = inr (expected_pixel WIDTH_EXCEPTIONS v 1440)
  /\ denormalize v 900 = inr (v * 900 / 1000).
Proof.
  intros Hv.
  assert (forallb (pixel_ok WIDTH_EXCEPTIONS 1440) (seqZ 0 1001) = true) as Hw
    by (vm_compute; reflexivity).
  assert (forallb (pixel_ok [] 900) (seqZ 0 1001) = true) as Hh
    by (vm_compute; reflexivity).
  rewrite forallb_forall in Hw, Hh.
  assert (In v (seqZ 0 1001)) as Hin by (apply list_elem_of_In, elem_of_seqZ; lia).
  specialize (Hw v Hin). specialize (Hh v Hin).
  unfold pixel_ok in Hw, Hh.
  destruct (denormalize v 1440) as [|p]; [discriminate|].
  destruct (denormalize v 900) as [|p']; [discriminate|].
  apply Z.eqb_eq in Hw, Hh. by subst.
Qed.


(** ** The facts on the sample session *)

(** Settles a decidable closed proposition by evaluating its decision. *)
Ltac by_decision :=
  match goal with
  | |- ?P => apply (bool_decide_unpack P); vm_compute; exact I
  end.

Lemma C5_retention_witness :
  let pruned := prune_screenshots sample_conversation in
  length pruned = length sample_conversation
  ∧ screenshot_turns pruned = MAX_RECENT_TURN_WITH_SCREENSHOTS
  ∧ pruned !! 2%nat = Some (strip_content (screenshot_of "https://a.example"))
  ∧ pruned !! 4%nat = Some (screenshot_of "https://b.example").
Proof.
  assert (MAX_RECENT_TURN_WITH_SCREENSHOTS < screenshot_turns sample_conversation)%nat
    as H by (vm_compute; lia).
  destruct (C5_retention sample_conversation H) as (Hlen & Hcount & Hat & _).
  split; [exact Hlen|]. split; [exact Hcount|]. split.
  - destruct (Hat 2%nat (screenshot_of "https://a.example") eq_refl)
      as (_ & Hstrip & _).
    apply Hstrip; [reflexivity|vm_compute; lia].
  - destruct (Hat 4%nat (screenshot_of "https://b.example") eq_refl)
      as (Hkeep & _ & _).
    apply Hkeep; [reflexivity|vm_compute; lia].
Defined.

Lemma C8_safety_gate_witness :
  _get_safety_confirmation sample_safety (sample_agent true ["no"])
  = (inr D_CONTINUE, sample_agent true ["no"])
  ∧ _get_safety_confirmation sample_safety (sample_agent false ["maybe"; "NO"; "y"])
    = (inr D_TERMINATE,
       after_input ["maybe"; "NO"] ["y"] (sample_agent false ["maybe"; "NO"; "y"]))
  ∧ _get_safety_confirmation sample_safety (sample_agent false [""; "Ye"; "no"])
    = (inr D_CONTINUE,
       after_input [""; "Ye"] ["no"] (sample_agent false [""; "Ye"; "no"])).
Proof.
  split; [|split].
  - apply (C8_safety_gate sample_safety (VStr "This action submits a form.")
             (sample_agent true ["no"])); reflexivity.
  - apply (proj2 (C8_safety_gate sample_safety (VStr "This action submits a form.")
             (sample_agent false ["maybe"; "NO"; "y"]) eq_refl eq_refl)
             eq_refl ["maybe"] "NO" ["y"] eq_refl).
    + by_decision.
    + by_decision.
  - apply (proj2 (C8_safety_gate sample_safety (VStr "This action submits a form.")
             (sample_agent false [""; "Ye"; "no"]) eq_refl eq_refl)
             eq_refl [""] "Ye" ["no"] eq_refl).
    + by_decision.
    + by_decision.
Defined.

Lemma C7_retry_backoff_witness :
  get_model_response (flaky_model 4 (turn_of [click_request])) 5 1 (sample_agent false [])
  = (inr (Some (answer (turn_of [click_request]))),
     after_calls 5
       [ EvGenerate [sample_query]; EvSleep 1;
         EvGenerate [sample_query]; EvSleep 2;
         EvGenerate [sample_query]; EvSleep 4;
         EvGenerate [sample_query]; EvSleep 8;
         EvGenerate [sample_query] ]
       (sample_agent false []))
  ∧ get_model_response (flaky_model 9 (turn_of [click_request])) 3 1 (sample_agent false [])
    = (inl (ServiceError "503"),
       after_calls 3
         [ EvGenerate [sample_query]; EvSleep 1;
           EvGenerate [sample_query]; EvSleep 2;
           EvGenerate [sample_query] ]
         (sample_agent false [])).
Proof.
  split.
  - apply (proj1 (C7_retry_backoff (flaky_model 4 (turn_of [click_request])) 5 1
                    (fun _ => ServiceError "503") (sample_agent false [])
                    ltac:(lia)) 4%nat (answer (turn_of [click_request]))).
    + lia.
    + intros i Hi. simpl. unfold flaky_model.
      by rewrite (proj2 (Nat.ltb_lt _ _)).
    + reflexivity.
  - apply (proj2 (C7_retry_backoff (flaky_model 9 (turn_of [click_request])) 3 1
                    (fun _ => ServiceError "503") (sample_agent false [])
                    ltac:(lia))).
    + lia.
    + intros i Hi. simpl. unfold flaky_model.
      by rewrite (proj2 (Nat.ltb_lt _ _)) by lia.
Defined.

Lemma C3_type_text_substitution_witness :
  let s := set_temp_credentials
             {[ "username" := VStr "octocat"; "password" := VStr "hunter2" ]}
             (sample_agent false []) in
  ∃ forwarded,
    handle_action PLAYWRIGHT_SCREEN_SIZE sample_computer sample_environ
      (type_request "{{PASSWORD}}") s
    = (let call := type_text_at 360 90 forwarded (VBool false) (VBool true) in
       (inr (OfEnvState (sample_computer (trace s) call)), log (EvBackend call) s))
    ∧ forwarded = VStr "hunter2".
Proof.
  intros s.
  destruct (C3_type_text_substitution PLAYWRIGHT_SCREEN_SIZE sample_computer
              sample_environ (type_request "{{PASSWORD}}")
              {[ "x" := VInt 250; "y" := VInt 100; "text" := VStr "{{PASSWORD}}" ]}
              (VInt 250) (VInt 100) (VStr "{{PASSWORD}}") 360 90 s
              eq_refl eq_refl eq_refl eq_refl eq_refl
              ltac:(vm_compute; reflexivity) ltac:(vm_compute; reflexivity))
    as (forwarded & Hcall & _ & Hpassword & _).
  exists forwarded. split; [exact Hcall|].
  by apply Hpassword.
Defined.



(** C4, on the code. With trust mode on, a flagged built-in request and a
    flagged custom-tool request are both dispatched; the response of the
    built-in one carries the acknowledgement marker, the response of the
    custom tool is the tool's own mapping and carries none. *)
Theorem C4_acknowledgement_dropped_for_custom_tool :
  let run function_call :=
    (dispatch_loop PLAYWRIGHT_SCREEN_SIZE sample_computer sample_environ
       [function_call] [] (sample_agent true [])).1 in
  carries_safety_decision flagged_open
  ∧ carries_safety_decision flagged_listing
  ∧ (∃ fr, run flagged_open = inr (Some [fr])
           ∧ FunctionResponse.response fr !! "safety_acknowledgement"
             = Some (VStr "true"))
  ∧ (∃ fr, run flagged_listing = inr (Some [fr])
           ∧ dom (FunctionResponse.response fr) = {[ "available_sites"; "message" ]}
           ∧ FunctionResponse.response fr !! "safety_acknowledgement" = None).
Proof.
  intros run.
  split. { eexists _, sample_safety, _. repeat split; reflexivity. }
  split. { eexists _, sample_safety, _. repeat split; reflexivity. }
  split.
  - eexists. split; reflexivity.
  - eexists. repeat split; reflexivity.
Qed.




Lemma C10_vault_frame_witness :
  let s' := handle_actions PLAYWRIGHT_SCREEN_SIZE sample_computer sample_environ
              [ login_request "github"; login_request "gitlab";
                type_request "{{USERNAME}}" ]
              (sample_agent false []) in
  _temp_credentials s'
  = {[ "username" := VStr "octocat"; "password" := VStr "hunter2" ]}
  ∧ substitute (VStr "{{PASSWORD}}") (_temp_credentials s') = VStr "hunter2".
Proof.
  intros s'.
  destruct (proj2 (proj2 (proj2 (C10_vault_frame PLAYWRIGHT_SCREEN_SIZE
                                   sample_computer sample_environ)))
              (login_request "github")
              {[ "username" := VStr "octocat"; "password" := VStr "hunter2" ]}
              [ login_request "gitlab"; type_request "{{USERNAME}}" ]
              (sample_agent false []) eq_refl
              ltac:(repeat constructor))
    as (u & p & _ & Hvault & _).
  fold s' in Hvault. rewrite Hvault. split; reflexivity.
Defined.

(** ** More facts on the sample session *)

(** X28. A click on the screen of main.py.  With the 1440 by 900 screen,
    a [click_at] request with integer coordinates in [0, 1000] reaches the
    backend at the exact pixel [y * 900 / 1000] vertically, and
    horizontally at [x * 1440 / 1000], less one at the four coordinates
    175, 350, 575 and 700. *)
Theorem click_at_on_playwright_screen
    (computer : list event → BackendCall → EnvState.t)
    (environ : list (string * string)) (action : FunctionCall.t)
    (args : gmap string pyval) (x y : Z) (s : agent) :
  FunctionCall.name action = "click_at" →
  FunctionCall.args action = Some args →
  args !! "x" = Some (VInt x) → args !! "y" = Some (VInt y) →
  0 ≤ x ≤ 1000 → 0 ≤ y ≤ 1000 →
  handle_action PLAYWRIGHT_SCREEN_SIZE computer environ action s
  = browser computer
      (click_at (if bool_decide (x ∈ [175; 350; 575; 700])
                 then x * 1440 / 1000 - 1 else x * 1440 / 1000)
                (y * 900 / 1000)) s.
Proof.
  intros Hname Hargs Hx Hy Hxr Hyr.
  unfold handle_action. rewrite Hname. cbv zeta.
  change (String.eqb "click_at" "open_web_browser") with false.
  change (String.eqb "click_at" "click_at") with true. cbv iota.
  unfold_monad. unfold arg, getitem, denormalize_x, denormalize_y. unfold_monad.
  rewrite Hargs, Hx, Hy.
  change (as_int (VInt x)) with (inr x : exn + Z).
  change (as_int (VInt y)) with (inr y : exn + Z).
  change (PLAYWRIGHT_SCREEN_SIZE.1) with 1440.
  change (PLAYWRIGHT_SCREEN_SIZE.2) with 900.
  cbv beta iota.
  rewrite (proj1 (denormalize_playwright_screen x Hxr)).
  rewrite (proj2 (denormalize_playwright_screen y Hyr)).
  unfold expected_pixel, WIDTH_EXCEPTIONS.
  replace (existsb (Z.eqb x) [175; 350; 575; 700])
    with (bool_decide (x ∈ [175; 350; 575; 700])); [done|].
  destruct (existsb (Z.eqb x) [175; 350; 575; 700]) eqn:E.
  - apply bool_decide_eq_true_2. apply existsb_exists in E as (z & Hin & Hz).
    apply Z.eqb_eq in Hz. subst z. by apply list_elem_of_In.
  - apply bool_decide_eq_false_2. intros Hin.
    assert (existsb (Z.eqb x) [175; 350; 575; 700] = true) as E'; [|congruence].
    apply existsb_exists. exists x.
    split; [by apply list_elem_of_In|apply Z.eqb_refl].
Qed.

Lemma run_one_iteration_service_down_witness :
  let s := sample_agent false ["y"] in
  run_one_iteration PLAYWRIGHT_SCREEN_SIZE sample_computer sample_environ
    failing_model s
  = (inr COMPLETE, after_calls 5 (backoff_trace [sample_query] 1 4) s)
  ∧ agent_loop PLAYWRIGHT_SCREEN_SIZE sample_computer sample_environ
      failing_model 1 s
    = (inr (Some tt), after_calls 5 (backoff_trace [sample_query] 1 4) s).
Proof.
  intros s.
  apply (run_one_iteration_service_down PLAYWRIGHT_SCREEN_SIZE sample_computer
           sample_environ failing_model (fun _ => ServiceError "503") s 0).
  intros i Hi. reflexivity.
Defined.

Lemma empty_response_raises_witness :
  let s := sample_agent false [] in
  run_one_iteration PLAYWRIGHT_SCREEN_SIZE sample_computer sample_environ
    empty_model s
  = (inl (ValueError "Empty response"), after_calls 1 [EvGenerate [sample_query]] s)
  ∧ agent_loop PLAYWRIGHT_SCREEN_SIZE sample_computer sample_environ
      empty_model 3 s
    = (inl (ValueError "Empty response"), after_calls 1 [EvGenerate [sample_query]] s).
Proof.
  intros s.
  apply (empty_response_raises PLAYWRIGHT_SCREEN_SIZE sample_computer
           sample_environ empty_model s (GenerateContentResponse.mk None) 2);
    reflexivity.
Defined.

Lemma run_one_iteration_without_calls_witness :
  let s := sample_agent false [] in
  run_one_iteration PLAYWRIGHT_SCREEN_SIZE sample_computer sample_environ
    (steady_model final_answer) s
  = (inr COMPLETE,
     set_final_reasoning (Some "The form is submitted.") (model_turn final_answer s)).
Proof.
  intros s.
  apply (proj2 (run_one_iteration_without_calls PLAYWRIGHT_SCREEN_SIZE
                  sample_computer sample_environ (steady_model final_answer) s
                  (answer final_answer) (Candidate.mk (Some final_answer) STOP) []
                  eq_refl eq_refl eq_refl)).
  left. discriminate.
Defined.

Lemma agent_loop_malformed_forever_witness :
  let s := sample_agent false [] in
  agent_loop PLAYWRIGHT_SCREEN_SIZE sample_computer sample_environ
    malformed_model 3 s
  = (inr None, after_calls 3 (replicate 3 (EvGenerate [sample_query])) s).
Proof.
  intros s.
  apply (agent_loop_malformed_forever PLAYWRIGHT_SCREEN_SIZE sample_computer
           sample_environ malformed_model s 3).
  intros k.
  exists (GenerateContentResponse.mk
            (Some [Candidate.mk None MALFORMED_FUNCTION_CALL])), [].
  split; reflexivity.
Defined.

Lemma scroll_at_magnitude_witness :
  let s := sample_agent false [] in
  handle_action PLAYWRIGHT_SCREEN_SIZE sample_computer sample_environ
    scroll_request s
  = browser sample_computer (scroll_at 720 450 (VStr "down") 720) s.
Proof.
  intros s.
  apply (proj1 (scroll_at_magnitude PLAYWRIGHT_SCREEN_SIZE sample_computer
                  sample_environ scroll_request
                  {[ "x" := VInt 500; "y" := VInt 500; "direction" := VStr "down" ]}
                  (VInt 500) (VInt 500) (VStr "down") 500 500 720 450 s
                  eq_refl eq_refl eq_refl eq_refl
                  ltac:(vm_compute; reflexivity)
                  eq_refl eq_refl
                  ltac:(vm_compute; reflexivity)
                  eq_refl)
          ltac:(apply elem_of_cons; right; apply elem_of_cons; by left)
          800 720 eq_refl ltac:(vm_compute; reflexivity)).
Defined.

Lemma key_combination_keys_witness :
  ∃ pressed,
    handle_action PLAYWRIGHT_SCREEN_SIZE sample_computer sample_environ
      keys_request (sample_agent false [])
    = browser sample_computer (key_combination pressed) (sample_agent false [])
    ∧ pressed ≠ []
    ∧ Forall (fun key => "+"%char ∉ list_ascii_of_string key) pressed
    ∧ Str.join "+" pressed = "Control+Shift+T".
Proof.
  apply (key_combination_keys PLAYWRIGHT_SCREEN_SIZE sample_computer
           sample_environ keys_request {[ "keys" := VStr "Control+Shift+T" ]}
           "Control+Shift+T" (sample_agent false []));
    reflexivity.
Defined.

Lemma trust_mode_never_reads_input_witness :
  let s := sample_agent true ["n"] in
  let model := steady_model (turn_of [flagged_navigate]) in
  (stdin (run_one_iteration PLAYWRIGHT_SCREEN_SIZE sample_computer
            sample_environ model s).2 = ["n"]
   ∧ _trust_mode (run_one_iteration PLAYWRIGHT_SCREEN_SIZE sample_computer
                    sample_environ model s).2 = true)
  ∧ (stdin (agent_loop PLAYWRIGHT_SCREEN_SIZE sample_computer
              sample_environ model 2 s).2 = ["n"]
     ∧ _trust_mode (agent_loop PLAYWRIGHT_SCREEN_SIZE sample_computer
                      sample_environ model 2 s).2 = true).
Proof.
  intros s model.
  exact (trust_mode_never_reads_input PLAYWRIGHT_SCREEN_SIZE sample_computer
           sample_environ model s 2 eq_refl).
Defined.

Lemma run_one_iteration_with_calls_witness :
  let s := sample_agent false [] in
  match run_one_iteration PLAYWRIGHT_SCREEN_SIZE sample_computer sample_environ
          (steady_model (turn_of [click_request])) s with
  | (inr CONTINUE, s') =>
      ∃ function_responses,
        Forall2 (fun call fr => FunctionResponse.name fr = FunctionCall.name call)
          [click_request] function_responses
        ∧ _contents s'
          = prune_screenshots
              ([sample_query]
                 ++ [turn_of [click_request]; user_turn function_responses])
        ∧ (screenshot_turns (_contents s') ≤ MAX_RECENT_TURN_WITH_SCREENSHOTS)%nat
  | (_, s') => _contents s' = [sample_query] ++ [turn_of [click_request]]
  end.
Proof.
  intros s.
  exact (run_one_iteration_with_calls PLAYWRIGHT_SCREEN_SIZE sample_computer
           sample_environ (steady_model (turn_of [click_request])) s
           (answer (turn_of [click_request]))
           (Candidate.mk (Some (turn_of [click_request])) STOP) []
           (turn_of [click_request]) click_request []
           eq_refl eq_refl eq_refl eq_refl).
Defined.

Lemma ask_for_help_gate_witness :
  let s := sample_agent false ["the second one"] in
  let json_file := fun _ : pyval => inl (ValueError "no such file") : exn + pyval in
  FormAgent_handle_action PLAYWRIGHT_SCREEN_SIZE sample_computer sample_environ
    json_file false help_request s
  = (inl (ValueError "Unsupported function"), s)
  ∧ FormAgent_handle_action PLAYWRIGHT_SCREEN_SIZE sample_computer sample_environ
      json_file true help_request s
    = (inr (FormValue (VDict {[ "response" := VStr "the second one" ]})),
       after_input ["the second one"] [] s).
Proof.
  intros s json_file.
  destruct (ask_for_help_gate PLAYWRIGHT_SCREEN_SIZE sample_computer
              sample_environ json_file help_request
              {[ "question" := VStr "Which account?" ]} s eq_refl eq_refl)
    as (Hoff & _ & Hon).
  split; [exact Hoff|].
  apply Hon. by exists (VStr "Which account?").
Defined.


Lemma get_credentials_spec_witness :
  get_credentials sample_environ sample_config = inr ("octocat", "hunter2").
Proof.
  apply (proj1 (get_credentials_spec sample_environ sample_config
                  "GITHUB_USERNAME" "GITHUB_PASSWORD" eq_refl eq_refl)
           "octocat" "hunter2").
  repeat split; discriminate.
Defined.

Lemma perform_login_checks_first_witness :
  perform_login sample_environ sample_config_data quiet_page sample_page_url
    (Some "gitlab") []
  = (inl (Page.PythonError
            (ValueError "Site 'gitlab' not found in config. Available sites: github")),
     []).
Proof.
  apply (perform_login_checks_first sample_environ sample_config_data quiet_page
           sample_page_url (Some "gitlab") []).
  left. reflexivity.
Defined.

Lemma perform_login_events_witness :
  ∃ new,
    (perform_login sample_environ sample_config_data slow_page sample_page_url
       None []).2
    = [] ++ Page.Called (Page.goto (VStr "https://github.com/login")) :: new
    ∧ Forall (login_event sample_config "octocat" "hunter2") new.
Proof.
  apply (perform_login_events sample_environ sample_config_data slow_page
           sample_page_url None sample_config "octocat" "hunter2" []);
    reflexivity.
Defined.

Lemma perform_login_result_witness :
  ∃ t',
    perform_login sample_environ sample_config_data slow_page sample_page_url
      None []
    = (inr (VStr "https://github.com/"), t').
Proof.
  apply (proj2 (perform_login_result sample_environ sample_config_data slow_page
                  sample_page_url None sample_config "octocat" "hunter2"
                  (VInt 30000) [] eq_refl eq_refl) eq_refl).
  intros t c. unfold slow_page.
  destruct (has_fallback c); [right|left]; done.
Defined.

Lemma click_at_on_playwright_screen_witness :
  handle_action PLAYWRIGHT_SCREEN_SIZE sample_computer sample_environ
    (FunctionCall.mk "click_at" (Some {[ "x" := VInt 175; "y" := VInt 500 ]}))
    (sample_agent false [])
  = browser sample_computer (click_at 251 450) (sample_agent false []).
Proof.
  apply (click_at_on_playwright_screen sample_computer sample_environ
           (FunctionCall.mk "click_at" (Some {[ "x" := VInt 175; "y" := VInt 500 ]}))
           {[ "x" := VInt 175; "y" := VInt 500 ]} 175 500 (sample_agent false []));
    first [reflexivity | lia].
Defined.


Lemma read_data_from_json_without_response_witness :
  let s := sample_agent false [] in
  FormAgent_dispatch_loop PLAYWRIGHT_SCREEN_SIZE sample_computer sample_environ
    sample_json_file false [read_request] [] s
  = (inr (Some []), s).
Proof.
  intros s.
  apply (read_data_from_json_without_response PLAYWRIGHT_SCREEN_SIZE
           sample_computer sample_environ sample_json_file false read_request
           {[ "file_path" := VStr "rows.json" ]} (VStr "rows.json")
           (VList [VInt 1; VInt 2]) [] s);
    first [reflexivity | intros d; discriminate].
Defined.

Lemma site_listed_twice_witness :
  ∃ before between after,
    available_sites doubled_environ = before ++ "db" :: between ++ "db" :: after.
Proof.
  apply (site_listed_twice doubled_environ "DB"); by_decision.
Defined.
